(** * BEAM for Individuals: competitor discovery and threat scoring

    A shallow embedding of
      - server/services/competitorDiscoveryService.js
      - server/services/threatScoringService.js
      - server/services/automationService.js
    over an explicit model of the relational store they read and write
    (server/migrations/run-migrations.js) and of the two external
    providers (the search provider and the reasoning service).

    Conventions.
      - JavaScript numbers that the code treats as integers are [Z].
      - A key that may be absent or [null] in a JavaScript object, and a
        nullable SQL column, is an [option].
      - Objects parsed from the reasoning service carry the keys the prompts
        ask for; each of them may be missing.
      - [async] functions that touch the store are computations in the
        state-and-exception monad [M]; functions that only talk to a provider
        live in [Result].  The store is not transactional: what was written
        before a [throw] stays written.
      - [UUID()] and [uuid.v4()] draw from the counter [next_uuid].
      - Statements against the store always execute; the columns they name
        are taken to exist. *)

From Stdlib Require Import ZArith List String Bool Arith Lia.
From Stdlib Require Import Permutation Sorted.
Import ListNotations.

Set Implicit Arguments.

(* ------------------------------------------------------------------ *)
(** ** JavaScript coercions used by the services *)

Module Js.

(** Truthiness of a string-valued key: [undefined], [null] and the empty
    string are falsy. *)
Definition truthy_string (v : option string) : bool :=
  match v with
  | None => false
  | Some s => negb (String.eqb s EmptyString)
  end.

(** Truthiness of a number-valued key: [undefined], [null] and [0] are
    falsy. *)
Definition truthy_number (v : option Z) : bool :=
  match v with
  | None => false
  | Some n => negb (Z.eqb n 0)
  end.

(** [v || d] on a number-valued key. *)
Definition or_number (v : option Z) (d : Z) : Z :=
  match v with
  | Some n => if Z.eqb n 0 then d else n
  | None => d
  end.

(** [v >= k] where [v] may be missing: [undefined >= k] is false, and
    [null >= k] compares [0]; both are false for the positive threshold
    the code uses. *)
Definition ge_number (v : option Z) (k : Z) : bool :=
  match v with
  | Some n => Z.leb k n
  | None => false
  end.

(** [Math.round(s / n)] for integers [s] and positive [n]: halves round
    towards plus infinity. *)
Definition round_div (s n : Z) : Z := Z.div (2 * s + n) (2 * n).

(** [Math.max(...l)]; the code only calls it on a non-empty array. *)
Definition Math_max (l : list Z) : Z :=
  match l with
  | [] => 0
  | x :: xs => fold_left Z.max xs x
  end.

(** [Array.prototype.sort] with a comparator: a stable sort.  [before a b]
    holds when the comparator does not ask for [b] to come first. *)
Section Sort.
Variable A : Type.
Variable before : A -> A -> bool.

Fixpoint insert (x : A) (l : list A) : list A :=
    match l with
    | [] => [x]
    | y :: ys => if before x y then x :: l else y :: insert x ys
    end.

Fixpoint sort (l : list A) : list A :=
    match l with
    | [] => []
    | x :: xs => insert x (sort xs)
    end.
End Sort.

(** [new Map(entries)]: insertion order of first occurrence, value of the
    last occurrence. *)
Section OrderedMap.
Variable V : Type.

Fixpoint map_set (k : string) (v : V) (m : list (string * V))
    : list (string * V) :=
    match m with
    | [] => [(k, v)]
    | (k', v') :: rest =>
        if String.eqb k k' then (k', v) :: rest
        else (k', v') :: map_set k v rest
    end.

Definition map_of_entries (entries : list (string * V))
    : list (string * V) :=
    fold_left (fun m e => map_set (fst e) (snd e) m) entries [].

Definition map_values (m : list (string * V)) : list V := map snd m.
End OrderedMap.

End Js.

(* ------------------------------------------------------------------ *)
(** ** The relational store *)

Module Db.

Definition Id := nat.
Definition Timestamp := nat.

(** A JSON column as [JSON.parse] sees it. *)
Inductive JsonText :=
| JsonStrings (items : list string)
| JsonUnparsable (message : string).

Record Website := {
  w_id : Id;
  w_user_id : Id;
  w_business_name : string;
  w_business_type : string;
  w_location : string;
  w_website_url : option string;
  w_status : string;
  w_updated_at : Timestamp;
  w_deleted_at : option Timestamp;
}.

Record BusinessType := {
  bt_type_name : string;
  bt_keywords : option JsonText;
  bt_typical_competitors : option JsonText;
}.

Record Competitor := {
  c_id : Id;
  c_website_id : Id;
  c_competitor_name : string;
  c_competitor_url : string;
  c_threat_level : option string;
  c_threat_score : option Z;
  c_discovery_method : string;
  c_confidence : option Z;
  c_discovered_at : Timestamp;
  c_deleted_at : option Timestamp;
}.

Inductive JobStatus := pending | in_progress | completed | failed.

Record DiscoveryJob := {
  j_id : Id;
  j_website_id : Id;
  j_status : JobStatus;
  j_discovery_method : string;
  j_started_at : option Timestamp;
  j_competitors_found : option Z;
  j_error_message : option string;
}.

Record Keyword := {
  k_id : Id;
  k_website_id : Id;
  k_keyword : string;
}.

Inductive ThreatLevel := CRITICAL | HIGH | MEDIUM | LOW.

Record ThreatAssessment := {
  ta_id : Id;
  ta_website_id : Id;
  ta_threat_level : ThreatLevel;
  ta_threat_score : Z;
  ta_competitor_count : Z;
  ta_average_competitor_score : Z;
  ta_assessed_at : Timestamp;
}.

Record Store := {
  websites : list Website;
  business_types : list BusinessType;
  competitors : list Competitor;
  jobs : list DiscoveryJob;
  keywords : list Keyword;
  threat_assessments : list ThreatAssessment;
  next_uuid : Id;
  clock : Timestamp;
}.

Definition set_websites (s : Store) (v : list Website) : Store :=
  {| websites := v; business_types := business_types s;
     competitors := competitors s; jobs := jobs s; keywords := keywords s;
     threat_assessments := threat_assessments s;
     next_uuid := next_uuid s; clock := clock s |}.

Definition set_competitors (s : Store) (v : list Competitor) : Store :=
  {| websites := websites s; business_types := business_types s;
     competitors := v; jobs := jobs s; keywords := keywords s;
     threat_assessments := threat_assessments s;
     next_uuid := next_uuid s; clock := clock s |}.

Definition set_jobs (s : Store) (v : list DiscoveryJob) : Store :=
  {| websites := websites s; business_types := business_types s;
     competitors := competitors s; jobs := v; keywords := keywords s;
     threat_assessments := threat_assessments s;
     next_uuid := next_uuid s; clock := clock s |}.

Definition set_threat_assessments (s : Store) (v : list ThreatAssessment)
  : Store :=
  {| websites := websites s; business_types := business_types s;
     competitors := competitors s; jobs := jobs s; keywords := keywords s;
     threat_assessments := v;
     next_uuid := next_uuid s; clock := clock s |}.

Definition set_next_uuid (s : Store) (v : Id) : Store :=
  {| websites := websites s; business_types := business_types s;
     competitors := competitors s; jobs := jobs s; keywords := keywords s;
     threat_assessments := threat_assessments s;
     next_uuid := v; clock := clock s |}.

(** Thrown values carry [error.message]. *)
Inductive Result (A : Type) :=
| Ok (a : A)
| Throw (message : string).
Arguments Ok {A} a.
Arguments Throw {A} message.

Definition rbind {A B} (c : Result A) (k : A -> Result B) : Result B :=
  match c with
  | Ok a => k a
  | Throw e => Throw e
  end.

(** [try { c } catch (error) { h error }] without store access. *)
Definition rcatch {A} (c : Result A) (h : string -> Result A) : Result A :=
  match c with
  | Ok a => Ok a
  | Throw e => h e
  end.

Definition M (A : Type) := Store -> Result A * Store.

Definition ret {A} (a : A) : M A := fun s => (Ok a, s).
Definition throw {A} (e : string) : M A := fun s => (Throw e, s).

Definition bind {A B} (c : M A) (k : A -> M B) : M B :=
  fun s =>
    match c s with
    | (Ok a, s1) => k a s1
    | (Throw e, s1) => (Throw e, s1)
    end.

(** [try { c } catch (error) { h error }]: the handler runs in the store
    the body left behind. *)
Definition try_catch {A} (c : M A) (h : string -> M A) : M A :=
  fun s =>
    match c s with
    | (Ok a, s1) => (Ok a, s1)
    | (Throw e, s1) => h e s1
    end.

Definition lift {A} (r : Result A) : M A := fun s => (r, s).

(** [UUID()] and [uuid.v4()]. *)
Definition fresh_uuid : M Id :=
  fun s => (Ok (next_uuid s), set_next_uuid s (S (next_uuid s))).

(** [NOW()]. *)
Definition now : M Timestamp := fun s => (Ok (clock s), s).

End Db.

Export Db.

Declare Scope js_scope.
Delimit Scope js_scope with js.
Notation "x <- c ;; k" := (bind c (fun x => k))
(at level 61, c at next level, right associativity) : js_scope.
Notation "c ;;; k" := (bind c (fun _ => k))
(at level 61, right associativity) : js_scope.

Local Open Scope js_scope.
Local Open Scope Z_scope.

(* ------------------------------------------------------------------ *)
(** ** server/services/threatScoringService.js *)

Module ThreatScoring.

Inductive Bucket := very_high | high | medium | low | very_low.

(** The object [calculateThreatScore] returns. *)
Record ThreatData := {
  threat_level : ThreatLevel;
  threat_score : Z;
  competitor_count : Z;
  average_competitor_score : Z;
  market_saturation : Bucket;
  ai_search_visibility : Bucket;
}.

Definition level_eqb (a b : ThreatLevel) : bool :=
  match a, b with
  | CRITICAL, CRITICAL | HIGH, HIGH | MEDIUM, MEDIUM | LOW, LOW => true
  | _, _ => false
  end.

Definition is_null {A} (v : option A) : bool :=
  match v with None => true | Some _ => false end.

(** [ORDER BY threat_score DESC]: NULL sorts last. *)
Definition score_desc (a b : option Z) : bool :=
  match a, b with
  | _, None => true
  | None, Some _ => false
  | Some x, Some y => Z.leb y x
  end.

(** [SELECT threat_score FROM competitors
     WHERE website_id = ? AND deleted_at IS NULL
     ORDER BY threat_score DESC] *)
Definition competitor_scores (websiteId : Id) (s : Store)
  : list (option Z) :=
  Js.sort score_desc
    (map c_threat_score
       (filter (fun c => Nat.eqb (c_website_id c) websiteId
                         && is_null (c_deleted_at c))
               (competitors s))).

Definition select_threat_scores (websiteId : Id) : M (list (option Z)) :=
  fun s => (Ok (competitor_scores websiteId s), s).

(** [SELECT COUNT( * ) as count FROM keywords WHERE website_id = ?]:
    one row holding the count. *)
Definition keyword_count (websiteId : Id) (s : Store) : Z :=
  Z.of_nat
    (List.length
       (filter (fun k => Nat.eqb (k_website_id k) websiteId) (keywords s))).

Definition select_keyword_count (websiteId : Id) : M (list Z) :=
  fun s => (Ok [keyword_count websiteId s], s).

(** The "Determine threat level" block: level and score from the count. *)
Definition determineThreatLevel (competitorCount : Z) : ThreatLevel * Z :=
  if 10 <=? competitorCount then
    (CRITICAL, Z.min 100 (80 + (competitorCount - 10) * 2))
  else if 7 <=? competitorCount then
    (HIGH, Z.min 100 (65 + (competitorCount - 7) * 3))
  else if 5 <=? competitorCount then
    (MEDIUM, Z.min 100 (50 + (competitorCount - 5) * 3))
  else if 3 <=? competitorCount then
    (MEDIUM, 40 + competitorCount * 2)
  else
    (LOW, 20 + competitorCount * 5).

(** The "Adjust based on strongest competitor" block.  The two inner [if]
    statements run one after the other on the same variable. *)
Definition adjustForStrongest (maxScore : Z) (base : ThreatLevel * Z)
  : ThreatLevel * Z :=
  let (threatLevel, threatScore) := base in
  if 90 <=? maxScore then
    (CRITICAL, Z.max threatScore 85)
  else if 75 <=? maxScore then
    let threatLevel1 :=
      if level_eqb threatLevel LOW then MEDIUM else threatLevel in
    let threatLevel2 :=
      if level_eqb threatLevel1 MEDIUM then HIGH else threatLevel1 in
    (threatLevel2, Z.max threatScore 70)
  else
    (threatLevel, threatScore).

(** The "Determine market saturation" block. *)
Definition determineMarketSaturation (competitorCount : Z) : Bucket :=
  if 10 <=? competitorCount then very_high
  else if 7 <=? competitorCount then high
  else if 5 <=? competitorCount then medium
  else if 3 <=? competitorCount then medium
  else very_low.

(** The "Estimate AI search visibility" block. *)
Definition estimateAiSearchVisibility (keywordCount : Z) : Bucket :=
  if 20 <=? keywordCount then very_high
  else if 15 <=? keywordCount then high
  else if 10 <=? keywordCount then medium
  else if 5 <=? keywordCount then low
  else very_low.

Definition sum (l : list Z) : Z := fold_left Z.add l 0.

(** [competitors.map(c => c.threat_score || 50)] *)
Definition threatScores (competitors : list (option Z)) : list Z :=
  map (fun c => Js.or_number c 50) competitors.

Definition averageScore (competitors : list (option Z)) : Z :=
  Js.round_div (sum (threatScores competitors))
               (Z.of_nat (List.length (threatScores competitors))).

Definition maxScore (competitors : list (option Z)) : Z :=
  Js.Math_max (threatScores competitors).

Definition calculateThreatScore (websiteId : Id) : M ThreatData :=
  try_catch
    (competitors <- select_threat_scores websiteId ;;
     if Nat.eqb (List.length competitors) 0 then
       ret {| threat_level := LOW;
              threat_score := 20;
              competitor_count := 0;
              average_competitor_score := 0;
              market_saturation := low;
              ai_search_visibility := low |}
     else
       let competitorCount := Z.of_nat (List.length competitors) in
       let (threatLevel, threatScore) :=
         adjustForStrongest (maxScore competitors)
                            (determineThreatLevel competitorCount) in
       let marketSaturation := determineMarketSaturation competitorCount in
       keywords <- select_keyword_count websiteId ;;
       let keywordCount := Js.or_number (hd_error keywords) 0 in
       let aiSearchVisibility := estimateAiSearchVisibility keywordCount in
       ret {| threat_level := threatLevel;
              threat_score := Z.min 100 threatScore;
              competitor_count := competitorCount;
              average_competitor_score := averageScore competitors;
              market_saturation := marketSaturation;
              ai_search_visibility := aiSearchVisibility |})
    (fun error => throw error).

End ThreatScoring.

(* ------------------------------------------------------------------ *)
(** ** server/services/competitorDiscoveryService.js *)

Module Discovery.

Notation "x <-- c ;; k" := (rbind c (fun x => k))
  (at level 61, c at next level, right associativity) : js_scope.

Record BusinessContext := {
  business_name : string;
  business_type : string;
  location : string;
  website_url : option string;
  ctx_keywords : list string;
  typical_competitors : list string;
}.

(** One entry of the search provider's [results] array. *)
Record SearchResult := {
  title : option string;
  url : option string;
  content : option string;
}.

(** What [axios.post] to the search provider leads to.  [SearchMalformed]
    stands for a body on which reading [response.data.results] or calling
    [.filter] on it raises a TypeError; [SearchData None] is a body without
    a [results] key. *)
Inductive SearchResponse :=
| SearchFailed (message : string)
| SearchMalformed (message : string)
| SearchData (results : option (list SearchResult)).

Record Candidate := {
  name : string;
  cand_url : string;
  description : option string;
  source : string;
}.

(** What a chat completion leads to: the request fails (or the body has no
    [choices[0].message.content]); the content holds no [{...}]; the match
    does not parse; or it parses. *)
Inductive Completion (A : Type) :=
| RequestFailed (message : string)
| NoJsonObject
| ParseError (message : string)
| Parsed (a : A).
Arguments RequestFailed {A} message.
Arguments NoJsonObject {A}.
Arguments ParseError {A} message.
Arguments Parsed {A} a.

(** One entry of [validated_competitors] in the supervisor's answer. *)
Record ValidatedCompetitor := {
  vc_name : string;
  vc_url : string;
  is_competitor : bool;
  business_model_match : option Z;
  geographic_relevance : option Z;
  market_relevance : option Z;
  confidence : option Z;
  reasoning : option string;
}.

(** The object the threat prompt asks for. *)
Record ThreatBreakdown := {
  company_size_score : option Z;
  growth_rate_score : option Z;
  feature_parity_score : option Z;
  market_presence_score : option Z;
  total_threat_score : option Z;
  threat_level : option string;
  td_reasoning : option string;
}.

(** [{ ...competitor, ...threatData }] *)
Record ScoredCompetitor := {
  sc_name : string;
  sc_url : string;
  sc_is_competitor : bool;
  sc_business_model_match : option Z;
  sc_geographic_relevance : option Z;
  sc_market_relevance : option Z;
  sc_confidence : option Z;
  sc_reasoning : option string;
  sc_company_size_score : option Z;
  sc_growth_rate_score : option Z;
  sc_feature_parity_score : option Z;
  sc_market_presence_score : option Z;
  sc_total_threat_score : option Z;
  sc_threat_level : option string;
}.

(** The external providers, fixed for a run: the search provider answers a
    query, the reasoning service answers the supervisor prompt (built from
    the context and the candidates) and the threat prompt (built from one
    competitor and the context). *)
Record Providers := {
  tavily_search : string -> SearchResponse;
  supervisor_completion :
    BusinessContext -> list Candidate ->
    Completion (option (list ValidatedCompetitor));
  threat_completion :
    ValidatedCompetitor -> BusinessContext -> Completion ThreatBreakdown;
}.

Definition string_of (v : option string) : string :=
  match v with Some s => s | None => EmptyString end.

(** [JSON.parse] on a JSON column. *)
Definition JSON_parse (t : JsonText) : Result (list string) :=
  match t with
  | JsonStrings items => Ok items
  | JsonUnparsable message => Throw message
  end.

(** [SELECT w.*, bt.keywords, bt.typical_competitors FROM websites w
     LEFT JOIN business_types bt ON w.business_type = bt.type_name
     WHERE w.id = ?], first row or [null]. *)
Definition select_website (websiteId : Id)
  : M (option (Website * option BusinessType)) :=
  fun s =>
    (Ok match find (fun w => Nat.eqb (w_id w) websiteId) (websites s) with
        | Some w =>
            Some (w, find (fun bt => String.eqb (w_business_type w)
                                                (bt_type_name bt))
                          (business_types s))
        | None => None
        end, s).

Definition joined {A} (bt : option BusinessType)
  (column : BusinessType -> option A) : option A :=
  match bt with Some b => column b | None => None end.

Definition extractBusinessContext (websiteId : Id) : M BusinessContext :=
  try_catch
    (website <- select_website websiteId ;;
     match website with
     | None => throw "Website not found"%string
     | Some (w, bt) =>
         keywords <- lift match joined bt bt_keywords with
                          | Some t => JSON_parse t
                          | None => Ok []
                          end ;;
         typical <- lift match joined bt bt_typical_competitors with
                         | Some t => JSON_parse t
                         | None => Ok []
                         end ;;
         ret {| business_name := w_business_name w;
                business_type := w_business_type w;
                location := w_location w;
                website_url := w_website_url w;
                ctx_keywords := keywords;
                typical_competitors := typical |}
     end)
    (fun error => throw error).

(** [axios.post] to the search provider followed by the read of
    [response.data.results]. *)
Definition response_data_results (P : Providers) (searchQuery : string)
  : Result (option (list SearchResult)) :=
  match tavily_search P searchQuery with
  | SearchFailed message => Throw message
  | SearchMalformed message => Throw message
  | SearchData results => Ok results
  end.

Definition researchAgent (P : Providers) (agentId : nat)
  (businessContext : BusinessContext) (searchQuery : string)
  : Result (list Candidate) :=
  rcatch
    (response <-- response_data_results P searchQuery ;;
     let results := match response with Some r => r | None => [] end in
     let competitors :=
       firstn 5
         (map (fun r => {| name := string_of (title r);
                           cand_url := string_of (url r);
                           description := content r;
                           source := "tavily_search"%string |})
              (filter (fun r => Js.truthy_string (title r)
                                && Js.truthy_string (url r))
                      results)) in
     Ok competitors)
    (fun error => Ok []).

(** The comparator [(a, b) => b.confidence - a.confidence]: [a] stays in
    front of [b] unless [b] is strictly more confident.  It is only applied
    to entries that passed the filter, whose confidence is a number. *)
Definition number_of (v : option Z) : Z :=
  match v with Some n => n | None => 0 end.

Definition confidence_desc (a b : ValidatedCompetitor) : bool :=
  Z.leb (number_of (confidence b) - number_of (confidence a)) 0.

(** The filter of the supervisor: [c.is_competitor && c.confidence >= 80]. *)
Definition passes (c : ValidatedCompetitor) : bool :=
  is_competitor c && Js.ge_number (confidence c) 80.

Definition supervisorAgent (P : Providers)
  (businessContext : BusinessContext) (allCandidates : list Candidate)
  : Result (list ValidatedCompetitor) :=
  rcatch
    match supervisor_completion P businessContext allCandidates with
    | RequestFailed message => Throw message
    | NoJsonObject => Ok []
    | ParseError message => Throw message
    | Parsed None =>
        Throw "Cannot read properties of undefined (reading 'filter')"%string
    | Parsed (Some validated_competitors) =>
        let validated :=
          firstn 5 (Js.sort confidence_desc
                      (filter passes validated_competitors)) in
        Ok validated
    end
    (fun error => Ok []).

(** [{ total_threat_score: 50, threat_level: 'MEDIUM' }] *)
Definition neutral_threat : ThreatBreakdown :=
  {| company_size_score := None;
     growth_rate_score := None;
     feature_parity_score := None;
     market_presence_score := None;
     total_threat_score := Some 50;
     threat_level := Some "MEDIUM"%string;
     td_reasoning := None |}.

Definition calculateCompetitorThreat (P : Providers)
  (competitor : ValidatedCompetitor) (businessContext : BusinessContext)
  : Result ThreatBreakdown :=
  rcatch
    match threat_completion P competitor businessContext with
    | RequestFailed message => Throw message
    | NoJsonObject => Ok neutral_threat
    | ParseError message => Throw message
    | Parsed threatData => Ok threatData
    end
    (fun error => Ok neutral_threat).

(** [{ ...competitor, ...threatData }]: the only key both objects carry is
    [reasoning], and the later spread wins when it has it. *)
Definition spread (competitor : ValidatedCompetitor)
  (threatData : ThreatBreakdown) : ScoredCompetitor :=
  {| sc_name := vc_name competitor;
     sc_url := vc_url competitor;
     sc_is_competitor := is_competitor competitor;
     sc_business_model_match := business_model_match competitor;
     sc_geographic_relevance := geographic_relevance competitor;
     sc_market_relevance := market_relevance competitor;
     sc_confidence := confidence competitor;
     sc_reasoning := match td_reasoning threatData with
                     | Some r => Some r
                     | None => reasoning competitor
                     end;
     sc_company_size_score := company_size_score threatData;
     sc_growth_rate_score := growth_rate_score threatData;
     sc_feature_parity_score := feature_parity_score threatData;
     sc_market_presence_score := market_presence_score threatData;
     sc_total_threat_score := total_threat_score threatData;
     sc_threat_level := threat_level threatData |}.

(** The row of [INSERT INTO competitor_discovery_jobs
     (id, website_id, status, discovery_method, started_at)
     VALUES (?, ?, 'in_progress', 'v4_multi_agent', NOW())]. *)
Definition new_job (jobId websiteId : Id) (started : Timestamp)
  : DiscoveryJob :=
  {| j_id := jobId;
     j_website_id := websiteId;
     j_status := in_progress;
     j_discovery_method := "v4_multi_agent"%string;
     j_started_at := Some started;
     j_competitors_found := None;
     j_error_message := None |}.

Definition insert_job (jobId websiteId : Id) : M unit :=
  started <- now ;;
  fun s => (Ok tt, set_jobs s (jobs s ++ [new_job jobId websiteId started])).

(** [SET status = 'completed', competitors_found = ?] on one row. *)
Definition set_completed (found : Z) (j : DiscoveryJob) : DiscoveryJob :=
  {| j_id := j_id j;
     j_website_id := j_website_id j;
     j_status := completed;
     j_discovery_method := j_discovery_method j;
     j_started_at := j_started_at j;
     j_competitors_found := Some found;
     j_error_message := j_error_message j |}.

(** [SET status = 'failed', error_message = ?] on one row. *)
Definition set_failed (message : string) (j : DiscoveryJob) : DiscoveryJob :=
  {| j_id := j_id j;
     j_website_id := j_website_id j;
     j_status := failed;
     j_discovery_method := j_discovery_method j;
     j_started_at := j_started_at j;
     j_competitors_found := j_competitors_found j;
     j_error_message := Some message |}.

(** [UPDATE competitor_discovery_jobs
     SET status = 'completed', competitors_found = ? WHERE id = ?] *)
Definition update_job_completed (found : Z) (jobId : Id) : M unit :=
  fun s =>
    (Ok tt,
     set_jobs s
       (map (fun j => if Nat.eqb (j_id j) jobId then set_completed found j
                      else j)
            (jobs s))).

(** [UPDATE competitor_discovery_jobs
     SET status = 'failed', error_message = ? WHERE website_id = ?] *)
Definition update_jobs_failed (message : string) (websiteId : Id) : M unit :=
  fun s =>
    (Ok tt,
     set_jobs s
       (map (fun j => if Nat.eqb (j_website_id j) websiteId
                      then set_failed message j
                      else j)
            (jobs s))).

(** The unique keys of the competitors table as the migration creates it:
    [id VARCHAR(36) PRIMARY KEY], and no other unique index. *)
Definition duplicate_key (row old : Competitor) : bool :=
  Nat.eqb (c_id row) (c_id old).

(** [INSERT INTO competitors
     (id, website_id, competitor_name, competitor_url, threat_level,
      threat_score, discovery_method, confidence, discovered_at)
     VALUES (UUID(), ?, ?, ?, ?, ?, 'v4_multi_agent', ?, NOW())
     ON DUPLICATE KEY UPDATE
       threat_level = VALUES(threat_level),
       threat_score = VALUES(threat_score),
       confidence = VALUES(confidence)] *)
Definition new_row (id websiteId : Id)
  (competitor_name competitor_url : string) (level : option string)
  (score conf : Z) (discovered : Timestamp) : Competitor :=
  {| c_id := id;
     c_website_id := websiteId;
     c_competitor_name := competitor_name;
     c_competitor_url := competitor_url;
     c_threat_level := level;
     c_threat_score := Some score;
     c_discovery_method := "v4_multi_agent"%string;
     c_confidence := Some conf;
     c_discovered_at := discovered;
     c_deleted_at := None |}.

(** The [ON DUPLICATE KEY UPDATE] assignments on the row already there. *)
Definition update_duplicate (row old : Competitor) : Competitor :=
  {| c_id := c_id old;
     c_website_id := c_website_id old;
     c_competitor_name := c_competitor_name old;
     c_competitor_url := c_competitor_url old;
     c_threat_level := c_threat_level row;
     c_threat_score := c_threat_score row;
     c_discovery_method := c_discovery_method old;
     c_confidence := c_confidence row;
     c_discovered_at := c_discovered_at old;
     c_deleted_at := c_deleted_at old |}.

Definition insert_competitor (websiteId : Id)
  (competitor_name competitor_url : string) (level : option string)
  (score conf : Z) : M unit :=
  id <- fresh_uuid ;;
  discovered <- now ;;
  fun s =>
    let row := new_row id websiteId competitor_name competitor_url level
                       score conf discovered in
    if existsb (duplicate_key row) (competitors s) then
      (Ok tt,
       set_competitors s
         (map (fun old => if duplicate_key row old
                          then update_duplicate row old
                          else old)
              (competitors s)))
    else
      (Ok tt, set_competitors s (competitors s ++ [row])).

(** Step 5, the scoring loop. *)
Fixpoint scoreCompetitors (P : Providers)
  (businessContext : BusinessContext)
  (validatedCompetitors : list ValidatedCompetitor)
  : Result (list ScoredCompetitor) :=
  match validatedCompetitors with
  | [] => Ok []
  | competitor :: rest =>
      threatData <-- calculateCompetitorThreat P competitor businessContext ;;
      scored <-- scoreCompetitors P businessContext rest ;;
      Ok (spread competitor threatData :: scored)
  end.

(** Step 6, the storing loop. *)
Fixpoint storeCompetitors (websiteId : Id)
  (competitorsWithScores : list ScoredCompetitor) : M unit :=
  match competitorsWithScores with
  | [] => ret tt
  | competitor :: rest =>
      insert_competitor websiteId
        (sc_name competitor)
        (sc_url competitor)
        (sc_threat_level competitor)
        (Js.or_number (sc_total_threat_score competitor) 50)
        (Js.or_number (sc_confidence competitor) 80) ;;;
      storeCompetitors websiteId rest
  end.

Definition searchQueries (businessContext : BusinessContext)
  : string * string * string :=
  ((business_type businessContext ++ " competitors "
      ++ location businessContext)%string,
   ("best " ++ business_type businessContext ++ " in "
      ++ location businessContext)%string,
   (business_type businessContext ++ " alternatives to "
      ++ business_name businessContext)%string).

Definition discoverCompetitors (P : Providers) (websiteId : Id)
  : M (list ScoredCompetitor) :=
  try_catch
    (jobId <- fresh_uuid ;;
     insert_job jobId websiteId ;;;
     businessContext <- extractBusinessContext websiteId ;;
     let '(query1, query2, query3) := searchQueries businessContext in
     agent1Results <- lift (researchAgent P 1 businessContext query1) ;;
     agent2Results <- lift (researchAgent P 2 businessContext query2) ;;
     agent3Results <- lift (researchAgent P 3 businessContext query3) ;;
     let allCandidates := agent1Results ++ agent2Results ++ agent3Results in
     let uniqueCandidates :=
       Js.map_values
         (Js.map_of_entries (map (fun c => (cand_url c, c)) allCandidates)) in
     validatedCompetitors <-
       lift (supervisorAgent P businessContext uniqueCandidates) ;;
     competitorsWithScores <-
       lift (scoreCompetitors P businessContext validatedCompetitors) ;;
     storeCompetitors websiteId competitorsWithScores ;;;
     update_job_completed (Z.of_nat (List.length competitorsWithScores))
                          jobId ;;;
     ret competitorsWithScores)
    (fun error =>
       update_jobs_failed error websiteId ;;;
       throw error).

(** [SELECT * FROM competitor_discovery_jobs WHERE website_id = ?
     ORDER BY started_at DESC LIMIT 1], or [null]. *)
Definition started_desc (a b : DiscoveryJob) : bool :=
  match j_started_at a, j_started_at b with
  | _, None => true
  | None, Some _ => false
  | Some x, Some y => Nat.leb y x
  end.

Definition getDiscoveryStatus (websiteId : Id) : M (option DiscoveryJob) :=
  fun s =>
    (Ok (hd_error
           (Js.sort started_desc
              (filter (fun j => Nat.eqb (j_website_id j) websiteId)
                      (jobs s)))), s).

End Discovery.

(* ------------------------------------------------------------------ *)
(** ** server/services/automationService.js *)

Module Automation.

Definition updated_asc (a b : Website) : bool :=
  Nat.leb (w_updated_at a) (w_updated_at b).

(** [SELECT w.id, w.user_id, w.business_name, w.business_type, w.location
     FROM websites w
     WHERE w.deleted_at IS NULL AND w.status = 'active'
     ORDER BY w.updated_at ASC] *)
Definition active_websites (s : Store) : list Website :=
  Js.sort updated_asc
    (filter (fun w => ThreatScoring.is_null (w_deleted_at w)
                      && String.eqb (w_status w) "active")
            (websites s)).

Definition select_active_websites : M (list Website) :=
  fun s => (Ok (active_websites s), s).

(** [INSERT INTO threat_assessments
     (id, website_id, threat_level, threat_score, competitor_count,
      average_competitor_score, assessed_at)
     VALUES (UUID(), ?, ?, ?, ?, ?, NOW())] *)
Definition assessment_row (id websiteId : Id)
  (threatData : ThreatScoring.ThreatData) (assessed : Timestamp)
  : ThreatAssessment :=
  {| ta_id := id;
     ta_website_id := websiteId;
     ta_threat_level := ThreatScoring.threat_level threatData;
     ta_threat_score := ThreatScoring.threat_score threatData;
     ta_competitor_count := ThreatScoring.competitor_count threatData;
     ta_average_competitor_score :=
       ThreatScoring.average_competitor_score threatData;
     ta_assessed_at := assessed |}.

Definition insert_threat_assessment (websiteId : Id)
  (threatData : ThreatScoring.ThreatData) : M unit :=
  id <- fresh_uuid ;;
  assessed <- now ;;
  fun s =>
    (Ok tt,
     set_threat_assessments s
       (threat_assessments s
        ++ [assessment_row id websiteId threatData assessed])).

(** [UPDATE websites SET updated_at = NOW() WHERE id = ?] *)
Definition touch_website (websiteId : Id) : M unit :=
  updated <- now ;;
  fun s =>
    (Ok tt,
     set_websites s
       (map (fun w =>
               if Nat.eqb (w_id w) websiteId then
                 {| w_id := w_id w;
                    w_user_id := w_user_id w;
                    w_business_name := w_business_name w;
                    w_business_type := w_business_type w;
                    w_location := w_location w;
                    w_website_url := w_website_url w;
                    w_status := w_status w;
                    w_updated_at := updated;
                    w_deleted_at := w_deleted_at w |}
               else w)
            (websites s))).

(** The body of the inner [try] of the weekly loop, up to the increment of
    [successCount]. *)
Definition refreshWebsite (P : Discovery.Providers) (website : Website)
  : M unit :=
  Discovery.discoverCompetitors P (w_id website) ;;;
  threatData <- ThreatScoring.calculateThreatScore (w_id website) ;;
  insert_threat_assessment (w_id website) threatData ;;;
  touch_website (w_id website).

(** [for (const website of websites) { try { ... successCount++ }
     catch (error) { errorCount++ } }] *)
Fixpoint refreshAll (P : Discovery.Providers) (websites : list Website)
  (successCount errorCount : nat) : M (nat * nat) :=
  match websites with
  | [] => ret (successCount, errorCount)
  | website :: rest =>
      counts <-
        try_catch
          (refreshWebsite P website ;;;
           ret (S successCount, errorCount))
          (fun error => ret (successCount, S errorCount)) ;;
      refreshAll P rest (fst counts) (snd counts)
  end.

(** The function returns nothing; the model returns what its last log line
    reports: [Some (successCount, errorCount)] for "Weekly refresh
    completed", [None] for "Weekly refresh failed". *)
Definition performWeeklyRefresh (P : Discovery.Providers)
  : M (option (nat * nat)) :=
  try_catch
    (websites <- select_active_websites ;;
     counts <- refreshAll P websites 0 0 ;;
     ret (Some counts))
    (fun error => ret None).

End Automation.

(* ------------------------------------------------------------------ *)
(** ** Concrete stores and providers used by the examples *)

Module Fixtures.
Import Discovery.

Definition bakery (id : Id) (business : string) (kind : string) : Website :=
  {| w_id := id;
     w_user_id := 1%nat;
     w_business_name := business;
     w_business_type := kind;
     w_location := "Austin"%string;
     w_website_url := None;
     w_status := "active"%string;
     w_updated_at := id;
     w_deleted_at := None |}.

Definition bakery_type : BusinessType :=
  {| bt_type_name := "bakery"%string;
     bt_keywords := Some (JsonStrings ["bread"%string; "cakes"%string]);
     bt_typical_competitors := None |}.

(** A taxonomy row whose [keywords] column [JSON.parse] rejects. *)
Definition broken_type : BusinessType :=
  {| bt_type_name := "florist"%string;
     bt_keywords := Some (JsonUnparsable "Unexpected token b in JSON"%string);
     bt_typical_competitors := None |}.

Definition empty_store : Store :=
  {| websites := [];
     business_types := [bakery_type; broken_type];
     competitors := [];
     jobs := [];
     keywords := [];
     threat_assessments := [];
     next_uuid := 100%nat;
     clock := 1000%nat |}.

Definition one_site : Store :=
  set_websites empty_store [bakery 1%nat "Acme Bakery" "bakery"].

Definition three_sites : Store :=
  set_websites empty_store
    [bakery 1%nat "Acme Bakery" "bakery";
     bakery 2%nat "Petal Pushers" "florist";
     bakery 3%nat "Crumb and Co" "bakery"].

Definition hit (t u : string) : SearchResult :=
  {| title := Some t; url := Some u; content := None |}.

Definition judged (n u : string) (conf : Z) : ValidatedCompetitor :=
  {| vc_name := n;
     vc_url := u;
     is_competitor := true;
     business_model_match := Some 90;
     geographic_relevance := Some 90;
     market_relevance := Some 90;
     confidence := Some conf;
     reasoning := None |}.

Definition breakdown (total : option Z) : ThreatBreakdown :=
  {| company_size_score := Some 15;
     growth_rate_score := Some 15;
     feature_parity_score := Some 15;
     market_presence_score := Some 15;
     total_threat_score := total;
     threat_level := Some "MEDIUM"%string;
     td_reasoning := None |}.

(** Every provider answers: one search hit, validated at confidence 90 and
    scored 60. *)
Definition steady : Providers :=
  {| tavily_search := fun _ =>
       SearchData (Some [hit "Rival Bakery" "https://rival.example"]);
     supervisor_completion := fun _ _ =>
       Parsed (Some [judged "Rival Bakery" "https://rival.example" 90]);
     threat_completion := fun _ _ => Parsed (breakdown (Some 60)) |}.



Definition competitor_row (id website : Id) (score : Z) : Competitor :=
  {| c_id := id;
     c_website_id := website;
     c_competitor_name := "Rival"%string;
     c_competitor_url := "https://rival.example"%string;
     c_threat_level := Some "MEDIUM"%string;
     c_threat_score := Some score;
     c_discovery_method := "v4_multi_agent"%string;
     c_confidence := Some 90;
     c_discovered_at := 5%nat;
     c_deleted_at := None |}.

Definition keyword_row (id website : Id) : Keyword :=
  {| k_id := id; k_website_id := website; k_keyword := "bread"%string |}.

(** The reasoning service returns [entries] as [validated_competitors],
    whatever it is asked. *)
Definition answering (entries : list ValidatedCompetitor) : Providers :=
  {| tavily_search := tavily_search steady;
     supervisor_completion := fun _ _ => Parsed (Some entries);
     threat_completion := threat_completion steady |}.

Definition mixed_confidences : list ValidatedCompetitor :=
  [judged "A" "https://a.example" 95; judged "B" "https://b.example" 79;
   judged "C" "https://c.example" 80; judged "D" "https://d.example" 60].

Definition eight_passing : list ValidatedCompetitor :=
  [judged "A" "https://a.example" 81; judged "B" "https://b.example" 99;
   judged "C" "https://c.example" 85; judged "D" "https://d.example" 90;
   judged "E" "https://e.example" 88; judged "F" "https://f.example" 80;
   judged "G" "https://g.example" 95; judged "H" "https://h.example" 83].

(** The search provider answers with [hits], whatever the query. *)
Definition finding (hits : list SearchResult) : Providers :=
  {| tavily_search := fun _ => SearchData (Some hits);
     supervisor_completion := supervisor_completion steady;
     threat_completion := threat_completion steady |}.

Definition nine_results : list SearchResult :=
  [hit "A" "https://a.example";
   {| title := None; url := Some "https://b.example"%string;
      content := None |};
   hit "C" "https://c.example"; hit "D" "https://d.example";
   {| title := Some "E"%string; url := Some EmptyString; content := None |};
   hit "F" "https://f.example"; hit "G" "https://g.example";
   hit "H" "https://h.example"; hit "I" "https://i.example"].


(** A florist whose taxonomy row no longer parses, with one discovery job
    that completed earlier. *)
Definition earlier_job : DiscoveryJob :=
  {| j_id := 50%nat;
     j_website_id := 2%nat;
     j_status := completed;
     j_discovery_method := "v4_multi_agent"%string;
     j_started_at := Some 900%nat;
     j_competitors_found := Some 3;
     j_error_message := None |}.

Definition florist_history : Store :=
  set_jobs (set_websites empty_store [bakery 2%nat "Petal Pushers" "florist"])
           [earlier_job].



End Fixtures.

Module ThreatFixtures.
Import Fixtures.

(** A website with a single competitor scored 80 and no keywords. *)
Definition one_strong_rival : Store :=
  set_competitors one_site [competitor_row 10%nat 1%nat 80].

(** Eleven competitors scored 60 and three keywords. *)
Definition crowded_market : Store :=
  {| websites := websites one_site;
     business_types := business_types one_site;
     competitors :=
       map (fun id => competitor_row id 1%nat 60)
           [10; 11; 12; 13; 14; 15; 16; 17; 18; 19; 20]%nat;
     jobs := [];
     keywords := [keyword_row 30%nat 1%nat; keyword_row 31%nat 1%nat;
        keyword_row 32%nat 1%nat];
     threat_assessments := [];
     next_uuid := 100%nat;
     clock := 1000%nat |}.

(** Two competitors scored 80 and 50 and ten keywords. *)
Definition quiet_high : Store :=
  {| websites := websites one_site;
     business_types := business_types one_site;
     competitors := [competitor_row 10%nat 1%nat 80;
                     competitor_row 11%nat 1%nat 50];
     jobs := [];
     keywords := map (fun id => keyword_row id 1%nat)
                     [30; 31; 32; 33; 34; 35; 36; 37; 38; 39]%nat;
     threat_assessments := [];
     next_uuid := 100%nat;
     clock := 1000%nat |}.

Definition assessment (id website : Id) (l : ThreatLevel)
  : ThreatAssessment :=
  {| ta_id := id;
     ta_website_id := website;
     ta_threat_level := l;
     ta_threat_score := 50;
     ta_competitor_count := 3;
     ta_average_competitor_score := 50;
     ta_assessed_at := id |}.

End ThreatFixtures.

(* ------------------------------------------------------------------ *)
(** ** What one discovery run computes

    Names for the intermediate values of [discoverCompetitors], used to
    state what a run leaves in the store. *)

Module Run.
Import Discovery.

Definition value {A} (d : A) (r : Result A) : A :=
  match r with Ok a => a | Throw _ => d end.

(** The context a run resolves, or the message it fails with. *)
Definition resolve (websiteId : Id) (s : Store) : Result BusinessContext :=
  fst (extractBusinessContext websiteId s).

Definition agentResults (P : Providers) (agentId : nat)
  (businessContext : BusinessContext) (searchQuery : string)
  : list Candidate :=
  value [] (researchAgent P agentId businessContext searchQuery).

Definition uniqueCandidates (P : Providers)
  (businessContext : BusinessContext) : list Candidate :=
  let '(query1, query2, query3) := searchQueries businessContext in
  Js.map_values
    (Js.map_of_entries
       (map (fun c => (cand_url c, c))
            (agentResults P 1 businessContext query1
             ++ agentResults P 2 businessContext query2
             ++ agentResults P 3 businessContext query3))).

Definition validatedCompetitors (P : Providers)
  (businessContext : BusinessContext) : list ValidatedCompetitor :=
  value [] (supervisorAgent P businessContext
              (uniqueCandidates P businessContext)).

Definition competitorsWithScores (P : Providers)
  (businessContext : BusinessContext) : list ScoredCompetitor :=
  value [] (scoreCompetitors P businessContext
              (validatedCompetitors P businessContext)).

(** The row one pass of the storing loop inserts under the identifier
    [id]. *)
Definition stored_row (id websiteId : Id) (discovered : Timestamp)
  (competitor : ScoredCompetitor) : Competitor :=
  new_row id websiteId
    (sc_name competitor) (sc_url competitor) (sc_threat_level competitor)
    (Js.or_number (sc_total_threat_score competitor) 50)
    (Js.or_number (sc_confidence competitor) 80)
    discovered.

Fixpoint stored_rows (id websiteId : Id) (discovered : Timestamp)
  (l : list ScoredCompetitor) : list Competitor :=
  match l with
  | [] => []
  | competitor :: rest =>
      stored_row id websiteId discovered competitor
      :: stored_rows (S id) websiteId discovered rest
  end.

(** Identifiers already in the competitors table were handed out before. *)
Definition ids_fresh (s : Store) : Prop :=
  Forall (fun c => (c_id c < next_uuid s)%nat) (competitors s).

(** The natural key the specification gives a Competitor. *)
Definition natural_key (c : Competitor) : Id * string :=
  (c_website_id c, c_competitor_url c).

(** Two runs in succession; the outcome of the first is dropped. *)
Definition discover_twice (P : Providers) (websiteId : Id)
  : M (list ScoredCompetitor) :=
  fun s =>
    discoverCompetitors P websiteId
      (snd (discoverCompetitors P websiteId s)).

(** The store a run leaves behind: only the competitors table, the jobs
    table and the identifier counter move. *)
Definition after (s : Store) (rows : list Competitor)
  (js : list DiscoveryJob) (next : Id) : Store :=
  {| websites := websites s;
     business_types := business_types s;
     competitors := rows;
     jobs := js;
     keywords := keywords s;
     threat_assessments := threat_assessments s;
     next_uuid := next;
     clock := clock s |}.

(** Identifiers already in the jobs table were handed out before. *)
Definition job_ids_fresh (s : Store) : Prop :=
  Forall (fun j => (j_id j < next_uuid s)%nat) (jobs s).

(** The websites of a weekly batch, in order, each with whether its refresh
    returned ([true]) or threw ([false]) in the store the batch had reached
    by then. *)
Fixpoint outcomes (P : Providers) (websites : list Website) (s : Store)
  : list (Website * bool) :=
  match websites with
  | [] => []
  | website :: rest =>
      let '(r, s1) := Automation.refreshWebsite P website s in
      (website, match r with Ok _ => true | Throw _ => false end)
      :: outcomes P rest s1
  end.

Definition refreshed (o : Website * bool) : bool := snd o.
Definition thrown (o : Website * bool) : bool := negb (snd o).

End Run.

(* ------------------------------------------------------------------ *)
(** ** server/services/threatScoringService.js, the reporting functions *)

Module ThreatReporting.
Import ThreatScoring.

(** The string a level is in JavaScript. *)
Definition level_name (l : ThreatLevel) : string :=
  match l with
  | CRITICAL => "CRITICAL"%string
  | HIGH => "HIGH"%string
  | MEDIUM => "MEDIUM"%string
  | LOW => "LOW"%string
  end.

(** What [literal[key]] evaluates to for an object literal with string
    values: a value of the literal, or a member the literal inherits from
    [Object.prototype] (an object or a function, never a string), or
    [undefined]. *)
Inductive Property :=
| Own (value : string)
| Inherited (key : string).

Definition object_prototype_keys : list string :=
  ["constructor"; "__defineGetter__"; "__defineSetter__"; "hasOwnProperty";
   "__lookupGetter__"; "__lookupSetter__"; "isPrototypeOf";
   "propertyIsEnumerable"; "toString"; "valueOf"; "__proto__";
   "toLocaleString"]%string.

Definition get_property (literal : list (string * string)) (key : string)
  : option Property :=
  match find (fun entry => String.eqb (fst entry) key) literal with
  | Some entry => Some (Own (snd entry))
  | None =>
      if existsb (String.eqb key) object_prototype_keys
      then Some (Inherited key)
      else None
  end.

(** [value || fallback]: [undefined] and the empty string are falsy. *)
Definition or_string (value : option Property) (fallback : string)
  : Property :=
  match value with
  | Some (Own EmptyString) | None => Own fallback
  | Some found => found
  end.

Definition colors : list (string * string) :=
  [("CRITICAL", "#e74c3c"); ("HIGH", "#e67e22");
   ("MEDIUM", "#f39c12"); ("LOW", "#27ae60")]%string.

Definition getThreatColor (threatLevel : string) : Property :=
  or_string (get_property colors threatLevel) "#95a5a6".

Definition descriptions : list (string * string) :=
  [("CRITICAL", "Critical threat - Immediate action required");
   ("HIGH", "High threat - Take action soon");
   ("MEDIUM", "Medium threat - Monitor closely");
   ("LOW", "Low threat - Maintain current strategy")]%string.

Definition getThreatDescription (threatLevel : string) : Property :=
  or_string (get_property descriptions threatLevel) "Unknown threat level".

Record Recommendation := {
  priority : string;
  title : string;
  rec_description : string;
  category : string;
}.

Definition bucket_eqb (a b : Bucket) : bool :=
  match a, b with
  | very_high, very_high | high, high | medium, medium
  | low, low | very_low, very_low => true
  | _, _ => false
  end.

(** [if (test) recommendations.push(item)] *)
Definition push_if (test : bool) (item : Recommendation)
  (recommendations : list Recommendation) : list Recommendation :=
  if test then recommendations ++ [item] else recommendations.

Definition differentiate : Recommendation :=
  {| priority := "CRITICAL";
     title := "Differentiate Your Offering";
     rec_description :=
       "With 10+ competitors, focus on unique value proposition";
     category := "strategy" |}.

Definition improve_positioning : Recommendation :=
  {| priority := "HIGH";
     title := "Improve Competitive Positioning";
     rec_description :=
       "Your competitors are strong. Enhance your features and marketing.";
     category := "product" |}.

Definition niche_markets : Recommendation :=
  {| priority := "HIGH";
     title := "Focus on Niche Markets";
     rec_description :=
       "Consider targeting specific customer segments or geographic areas";
     category := "market" |}.

Definition improve_visibility : Recommendation :=
  {| priority := "HIGH";
     title := "Improve AI Search Visibility";
     rec_description :=
       "Optimize content for AI-driven search engines (ChatGPT, Perplexity, Gemini)";
     category := "content" |}.

Definition response_plan : Recommendation :=
  {| priority := "CRITICAL";
     title := "Develop Competitive Response Plan";
     rec_description :=
       "Create a detailed strategy to address competitive threats";
     category := "strategy" |}.

Definition monitor_activity : Recommendation :=
  {| priority := "MEDIUM";
     title := "Monitor Competitor Activity";
     rec_description :=
       "Set up alerts for new competitors and market changes";
     category := "monitoring" |}.

Definition generateRecommendations (threatData : ThreatData)
  : list Recommendation :=
  let recommendations := [] in
  let recommendations :=
    push_if (10 <=? competitor_count threatData) differentiate
            recommendations in
  let recommendations :=
    push_if (75 <=? average_competitor_score threatData)
            improve_positioning recommendations in
  let recommendations :=
    push_if (bucket_eqb (market_saturation threatData) very_high
             || bucket_eqb (market_saturation threatData) high)
            niche_markets recommendations in
  let recommendations :=
    push_if (bucket_eqb (ai_search_visibility threatData) very_low
             || bucket_eqb (ai_search_visibility threatData) low)
            improve_visibility recommendations in
  let recommendations :=
    push_if (level_eqb (threat_level threatData) CRITICAL)
            response_plan recommendations in
  let recommendations :=
    push_if (level_eqb (threat_level threatData) LOW
             || level_eqb (threat_level threatData) MEDIUM)
            monitor_activity recommendations in
  recommendations.

(** [{ ...threatData, color, description, recommendations }] *)
Record ThreatSummary := {
  threatData : ThreatData;
  color : Property;
  summary_description : Property;
  recommendations : list Recommendation;
}.

Definition generateThreatSummary (websiteId : Id) : M ThreatSummary :=
  try_catch
    (threatData <- calculateThreatScore websiteId ;;
     ret {| threatData := threatData;
            color := getThreatColor (level_name (threat_level threatData));
            summary_description :=
              getThreatDescription (level_name (threat_level threatData));
            recommendations := generateRecommendations threatData |})
    (fun error => throw error).

(** [SELECT threat_level, COUNT( * ) as count FROM threat_assessments
     WHERE website_id = ? GROUP BY threat_level
     ORDER BY CASE threat_level WHEN 'CRITICAL' THEN 1 WHEN 'HIGH' THEN 2
                                WHEN 'MEDIUM' THEN 3 WHEN 'LOW' THEN 4 END]:
    one row per level that occurs, in the order of the CASE. *)
Definition level_count (websiteId : Id) (l : ThreatLevel) (s : Store) : nat :=
  List.length
    (filter (fun ta => Nat.eqb (ta_website_id ta) websiteId
                       && level_eqb (ta_threat_level ta) l)
            (threat_assessments s)).

Definition distribution (websiteId : Id) (s : Store)
  : list (ThreatLevel * Z) :=
  flat_map (fun l => match level_count websiteId l s with
                     | O => []
                     | S n => [(l, Z.of_nat (S n))]
                     end)
           [CRITICAL; HIGH; MEDIUM; LOW].

Definition getThreatDistribution (websiteId : Id)
  : M (list (ThreatLevel * Z)) :=
  try_catch (fun s => (Ok (distribution websiteId s), s))
            (fun error => throw error).

(** A row of the ranking query with its [rank]. *)
Record RankedCompetitor := {
  rc_id : Id;
  rc_competitor_name : string;
  rc_competitor_url : string;
  rc_threat_level : option string;
  rc_threat_score : option Z;
  rc_confidence : option Z;
  rc_discovered_at : Timestamp;
  rank : Z;
}.

Definition row_score_desc (a b : Competitor) : bool :=
  score_desc (c_threat_score a) (c_threat_score b).

(** [SELECT id, competitor_name, competitor_url, threat_level,
     threat_score, confidence, discovered_at FROM competitors
     WHERE website_id = ? AND deleted_at IS NULL
     ORDER BY threat_score DESC LIMIT 10] *)
Definition select_ranking (websiteId : Id) (s : Store) : list Competitor :=
  firstn 10
    (Js.sort row_score_desc
       (filter (fun c => Nat.eqb (c_website_id c) websiteId
                         && is_null (c_deleted_at c))
               (competitors s))).

(** [ranking.map((c, index) => ({ ...c, rank: index + 1 }))] from [index]
    on. *)
Fixpoint with_rank (index : Z) (ranking : list Competitor)
  : list RankedCompetitor :=
  match ranking with
  | [] => []
  | c :: rest =>
      {| rc_id := c_id c;
         rc_competitor_name := c_competitor_name c;
         rc_competitor_url := c_competitor_url c;
         rc_threat_level := c_threat_level c;
         rc_threat_score := c_threat_score c;
         rc_confidence := c_confidence c;
         rc_discovered_at := c_discovered_at c;
         rank := index + 1 |}
      :: with_rank (index + 1) rest
  end.

Definition rankCompetitorsByThreat (websiteId : Id)
  : M (list RankedCompetitor) :=
  try_catch (fun s => (Ok (with_rank 0 (select_ranking websiteId s)), s))
            (fun error => throw error).

End ThreatReporting.

(* ------------------------------------------------------------------ *)
(** ** server/services/automationService.js, the task registry

    [cron.schedule] creates a task object that runs until its [stop] is
    called.  The module keeps references to the tasks it created in
    [scheduledJobs]; here a reference is the position of the task among all
    the tasks created so far. *)

Module Scheduler.

Inductive Callback :=
| weekly_refresh
| monthly_reports
| subscription_reminders.

Record CronTask := {
  expression : string;
  callback : Callback;
  running : bool;
}.

Record Cron := {
  tasks : list CronTask;
  scheduledJobs : list (string * nat);
}.

(** [cron.schedule(expression, callback)]: a new running task. *)
Definition cron_schedule (expr : string) (cb : Callback) (st : Cron)
  : nat * Cron :=
  (List.length (tasks st),
   {| tasks := tasks st
               ++ [{| expression := expr; callback := cb; running := true |}];
      scheduledJobs := scheduledJobs st |}).

(** [scheduledJobs[key] = job] *)
Definition assign (key : string) (job : nat) (st : Cron) : Cron :=
  {| tasks := tasks st;
     scheduledJobs := Js.map_set key job (scheduledJobs st) |}.

Fixpoint stop_at (job : nat) (l : list CronTask) : list CronTask :=
  match l, job with
  | [], _ => []
  | t :: rest, O =>
      {| expression := expression t; callback := callback t;
         running := false |} :: rest
  | t :: rest, S job' => t :: stop_at job' rest
  end.

(** [job.stop()] *)
Definition job_stop (job : nat) (st : Cron) : Cron :=
  {| tasks := stop_at job (tasks st); scheduledJobs := scheduledJobs st |}.

Definition scheduleWeeklyRefresh (st : Cron) : Cron :=
  let (job, st1) := cron_schedule "0 2 * * 1" weekly_refresh st in
  assign "weeklyRefresh" job st1.

Definition scheduleMonthlyReports (st : Cron) : Cron :=
  let (job, st1) := cron_schedule "0 3 1 * *" monthly_reports st in
  assign "monthlyReports" job st1.

Definition scheduleSubscriptionReminders (st : Cron) : Cron :=
  let (job, st1) := cron_schedule "0 9 * * *" subscription_reminders st in
  assign "subscriptionReminders" job st1.

Definition initializeScheduledTasks (st : Cron) : bool * Cron :=
  (true,
   scheduleSubscriptionReminders
     (scheduleMonthlyReports (scheduleWeeklyRefresh st))).

(** [for (const [name, job] of Object.entries(scheduledJobs)) job.stop()] *)
Definition stopAllTasks (st : Cron) : bool * Cron :=
  (true,
   fold_left (fun acc entry => job_stop (snd entry) acc)
             (scheduledJobs st) st).

Definition status_of (key : string) (st : Cron) : string :=
  match find (fun entry => String.eqb (fst entry) key) (scheduledJobs st) with
  | Some _ => "active"%string
  | None => "inactive"%string
  end.

Record TasksStatus := {
  weeklyRefresh : string;
  monthlyReports : string;
  subscriptionReminders : string;
}.

Definition getTasksStatus (st : Cron) : TasksStatus :=
  {| weeklyRefresh := status_of "weeklyRefresh" st;
     monthlyReports := status_of "monthlyReports" st;
     subscriptionReminders := status_of "subscriptionReminders" st |}.

(** The state of a freshly loaded module. *)
Definition module_loaded : Cron := {| tasks := []; scheduledJobs := [] |}.

Definition is_running (job : nat) (st : Cron) : bool :=
  match nth_error (tasks st) job with
  | Some t => running t
  | None => false
  end.

End Scheduler.

(* ------------------------------------------------------------------ *)
(** ** server/migrations/run-migrations.js

    Strings are sequences of code units below 256; the migration files are
    plain text in that range. *)

Module Migrations.
Import Ascii.

Definition code (c : ascii) : nat := nat_of_ascii c.

(** [\d] *)
Definition is_digit (c : ascii) : bool :=
  Nat.leb 48 (code c) && Nat.leb (code c) 57.

(** What [.] does not match. *)
Definition is_line_terminator (c : ascii) : bool :=
  Nat.eqb (code c) 10 || Nat.eqb (code c) 13.

(** What [trim] removes: tab, line feed, vertical tab, form feed, carriage
    return, space, no-break space. *)
Definition is_space (c : ascii) : bool :=
  existsb (Nat.eqb (code c)) [9; 10; 11; 12; 13; 32; 160]%nat.

Fixpoint drop_digits (s : string) : string :=
  match s with
  | String c rest => if is_digit c then drop_digits rest else s
  | EmptyString => s
  end.

Fixpoint no_line_terminator (s : string) : bool :=
  match s with
  | String c rest => negb (is_line_terminator c) && no_line_terminator rest
  | EmptyString => true
  end.

(** [s] without [suffix] at its end, when it ends with it. *)
Fixpoint strip_suffix (suffix s : string) : option string :=
  if String.eqb s suffix then Some EmptyString
  else match s with
       | String c rest => option_map (String c) (strip_suffix suffix rest)
       | EmptyString => None
       end.

(** [file.match(/^\d+_.*\.sql$/)] *)
Definition matches_migration (file : string) : bool :=
  match file with
  | String c _ =>
      is_digit c
      && match drop_digits file with
         | String u rest =>
             Ascii.eqb u "_" && no_line_terminator rest
             && match strip_suffix ".sql" rest with
                | Some _ => true
                | None => false
                end
         | EmptyString => false
         end
  | EmptyString => false
  end.

(** [fs.readdirSync(dir).filter(...).sort()]: the default sort compares
    code units. *)
Definition getMigrationFiles (entries : list string) : list string :=
  Js.sort String.leb (filter matches_migration entries).

(** [filename.replace(/\.sql$/, '')] *)
Definition getMigrationName (filename : string) : string :=
  match strip_suffix ".sql" filename with
  | Some name => name
  | None => filename
  end.

(** [sql.split(';')] *)
Fixpoint split (sep : ascii) (s : string) : list string :=
  match s with
  | EmptyString => [EmptyString]
  | String c rest =>
      if Ascii.eqb c sep then EmptyString :: split sep rest
      else match split sep rest with
           | piece :: pieces => String c piece :: pieces
           | [] => [String c EmptyString]
           end
  end.

Fixpoint trim_start (s : string) : string :=
  match s with
  | String c rest => if is_space c then trim_start rest else s
  | EmptyString => s
  end.

Fixpoint trim_end (s : string) : string :=
  match s with
  | String c rest =>
      match trim_end rest with
      | EmptyString => if is_space c then EmptyString
                       else String c EmptyString
      | kept => String c kept
      end
  | EmptyString => s
  end.

(** [stmt.trim()] *)
Definition trim (s : string) : string := trim_end (trim_start s).

(** [message.includes(needle)] *)
Fixpoint includes (needle hay : string) : bool :=
  String.prefix needle hay
  || match hay with
     | String _ rest => includes needle rest
     | EmptyString => false
     end.

(** [stmt.length > 0 && !stmt.startsWith('--')] *)
Definition is_statement (stmt : string) : bool :=
  Nat.ltb 0 (String.length stmt) && negb (String.prefix "--" stmt).

(** The statements [executeMigration] takes from the text of a file. *)
Definition statements (sql : string) : list string :=
  filter is_statement (map trim (split ";" sql)).

Section Execute.
(** The connection and the file system are the runner's environment:
    [execute] is [connection.execute], leaving the database in a new state,
    and [readFileSync] is [fs.readFileSync(path, 'utf8')]. *)
Variable Connection : Type.
Variable execute : Connection -> string -> Result unit * Connection.
Variable readFileSync : string -> Result string.

(** The loop over the statements: a statement that fails with a message
    containing "already exists" is passed over, any other failure is
    rethrown. *)
Fixpoint run_statements (l : list string) (c : Connection)
  : Result unit * Connection :=
  match l with
  | [] => (Ok tt, c)
  | statement :: rest =>
      match execute c statement with
      | (Ok _, c1) => run_statements rest c1
      | (Throw message, c1) =>
          if negb (includes "already exists" message)
          then (Throw message, c1)
          else run_statements rest c1
      end
  end.

Definition executeMigration (c : Connection) (filePath : string)
  (migrationName : string) : bool * Connection :=
  match readFileSync filePath with
  | Throw _ => (false, c)
  | Ok sql =>
      match run_statements (statements sql) c with
      | (Ok _, c1) => (true, c1)
      | (Throw _, c1) => (false, c1)
      end
  end.

End Execute.

(** [pieces.join(';')], the inverse of [split] on pieces without the
    separator. *)
Fixpoint join (pieces : list string) : string :=
  match pieces with
  | [] => EmptyString
  | [piece] => piece
  | piece :: rest => (piece ++ ";" ++ join rest)%string
  end.

Fixpoint has_char (sep : ascii) (s : string) : bool :=
  match s with
  | String c rest => Ascii.eqb c sep || has_char sep rest
  | EmptyString => false
  end.

(** A connection that records what it was asked to execute and accepts
    everything. *)
Definition recording (log : list string) (statement : string)
  : Result unit * list string :=
  (Ok tt, log ++ [statement]).

Definition newline : string := String (ascii_of_nat 10) EmptyString.

(** The text of 001_create_initial_schema.sql, line by line; every line
    ends with a line feed. *)
Definition schema_lines : list string :=
  ["-- BEAM for Individuals - Initial Database Schema";
   "-- This migration creates all core tables for the BEAM platform";
   EmptyString;
   "-- Create users table";
   "CREATE TABLE IF NOT EXISTS users (";
   "  id VARCHAR(36) PRIMARY KEY,";
   "  email VARCHAR(255) UNIQUE NOT NULL,";
   "  owner_name VARCHAR(255) NOT NULL,";
   "  password_hash VARCHAR(255),";
   "  stripe_customer_id VARCHAR(255),";
   "  subscription_status VARCHAR(50) DEFAULT 'inactive',";
   "  subscription_started_at TIMESTAMP NULL,";
   "  created_at TIMESTAMP DEFAULT CURRENT_TIMESTAMP,";
   "  updated_at TIMESTAMP DEFAULT CURRENT_TIMESTAMP ON UPDATE CURRENT_TIMESTAMP,";
   "  deleted_at TIMESTAMP NULL,";
   "  INDEX idx_email (email),";
   "  INDEX idx_stripe_customer (stripe_customer_id),";
   "  INDEX idx_created_at (created_at)";
   ") ENGINE=InnoDB DEFAULT CHARSET=utf8mb4 COLLATE=utf8mb4_unicode_ci;";
   EmptyString;
   "-- Create websites table";
   "CREATE TABLE IF NOT EXISTS websites (";
   "  id VARCHAR(36) PRIMARY KEY,";
   "  user_id VARCHAR(36) NOT NULL,";
   "  business_name VARCHAR(255) NOT NULL,";
   "  business_type VARCHAR(100) NOT NULL,";
   "  location VARCHAR(255) NOT NULL,";
   "  website_url VARCHAR(255),";
   "  status VARCHAR(50) DEFAULT 'active',";
   "  created_at TIMESTAMP DEFAULT CURRENT_TIMESTAMP,";
   "  updated_at TIMESTAMP DEFAULT CURRENT_TIMESTAMP ON UPDATE CURRENT_TIMESTAMP,";
   "  deleted_at TIMESTAMP NULL,";
   "  FOREIGN KEY (user_id) REFERENCES users(id) ON DELETE CASCADE,";
   "  INDEX idx_user_id (user_id),";
   "  INDEX idx_business_type (business_type),";
   "  INDEX idx_created_at (created_at)";
   ") ENGINE=InnoDB DEFAULT CHARSET=utf8mb4 COLLATE=utf8mb4_unicode_ci;";
   EmptyString;
   "-- Create competitors table";
   "CREATE TABLE IF NOT EXISTS competitors (";
   "  id VARCHAR(36) PRIMARY KEY,";
   "  website_id VARCHAR(36) NOT NULL,";
   "  competitor_name VARCHAR(255) NOT NULL,";
   "  competitor_url VARCHAR(255),";
   "  threat_level VARCHAR(20),";
   "  threat_score INT,";
   "  confidence INT DEFAULT 0,";
   "  discovered_at TIMESTAMP DEFAULT CURRENT_TIMESTAMP,";
   "  updated_at TIMESTAMP DEFAULT CURRENT_TIMESTAMP ON UPDATE CURRENT_TIMESTAMP,";
   "  deleted_at TIMESTAMP NULL,";
   "  FOREIGN KEY (website_id) REFERENCES websites(id) ON DELETE CASCADE,";
   "  INDEX idx_website_id (website_id),";
   "  INDEX idx_threat_level (threat_level),";
   "  INDEX idx_discovered_at (discovered_at)";
   ") ENGINE=InnoDB DEFAULT CHARSET=utf8mb4 COLLATE=utf8mb4_unicode_ci;";
   EmptyString;
   "-- Create keywords table";
   "CREATE TABLE IF NOT EXISTS keywords (";
   "  id VARCHAR(36) PRIMARY KEY,";
   "  website_id VARCHAR(36) NOT NULL,";
   "  keyword VARCHAR(255) NOT NULL,";
   "  relevance_score INT,";
   "  search_volume INT,";
   "  difficulty VARCHAR(50),";
   "  created_at TIMESTAMP DEFAULT CURRENT_TIMESTAMP,";
   "  deleted_at TIMESTAMP NULL,";
   "  FOREIGN KEY (website_id) REFERENCES websites(id) ON DELETE CASCADE,";
   "  INDEX idx_website_id (website_id),";
   "  INDEX idx_keyword (keyword),";
   "  INDEX idx_relevance (relevance_score)";
   ") ENGINE=InnoDB DEFAULT CHARSET=utf8mb4 COLLATE=utf8mb4_unicode_ci;";
   EmptyString;
   "-- Create threat_assessments table";
   "CREATE TABLE IF NOT EXISTS threat_assessments (";
   "  id VARCHAR(36) PRIMARY KEY,";
   "  website_id VARCHAR(36) NOT NULL,";
   "  threat_level VARCHAR(20),";
   "  threat_score INT,";
   "  competitor_count INT,";
   "  average_competitor_score INT,";
   "  market_saturation VARCHAR(50),";
   "  ai_search_visibility VARCHAR(50),";
   "  assessed_at TIMESTAMP DEFAULT CURRENT_TIMESTAMP,";
   "  deleted_at TIMESTAMP NULL,";
   "  FOREIGN KEY (website_id) REFERENCES websites(id) ON DELETE CASCADE,";
   "  INDEX idx_website_id (website_id),";
   "  INDEX idx_threat_level (threat_level),";
   "  INDEX idx_assessed_at (assessed_at)";
   ") ENGINE=InnoDB DEFAULT CHARSET=utf8mb4 COLLATE=utf8mb4_unicode_ci;";
   EmptyString;
   "-- Create recommended_actions table";
   "CREATE TABLE IF NOT EXISTS recommended_actions (";
   "  id VARCHAR(36) PRIMARY KEY,";
   "  website_id VARCHAR(36) NOT NULL,";
   "  action_title VARCHAR(255) NOT NULL,";
   "  description TEXT,";
   "  priority VARCHAR(20),";
   "  category VARCHAR(100),";
   "  estimated_effort VARCHAR(100),";
   "  completed BOOLEAN DEFAULT FALSE,";
   "  completed_at TIMESTAMP NULL,";
   "  created_at TIMESTAMP DEFAULT CURRENT_TIMESTAMP,";
   "  deleted_at TIMESTAMP NULL,";
   "  FOREIGN KEY (website_id) REFERENCES websites(id) ON DELETE CASCADE,";
   "  INDEX idx_website_id (website_id),";
   "  INDEX idx_priority (priority),";
   "  INDEX idx_completed (completed)";
   ") ENGINE=InnoDB DEFAULT CHARSET=utf8mb4 COLLATE=utf8mb4_unicode_ci;";
   EmptyString;
   "-- Create business_types table";
   "CREATE TABLE IF NOT EXISTS business_types (";
   "  id VARCHAR(36) PRIMARY KEY,";
   "  type_name VARCHAR(100) NOT NULL UNIQUE,";
   "  category VARCHAR(100) NOT NULL,";
   "  description TEXT,";
   "  keywords JSON,";
   "  typical_competitors JSON,";
   "  created_at TIMESTAMP DEFAULT CURRENT_TIMESTAMP,";
   "  INDEX idx_category (category),";
   "  INDEX idx_type_name (type_name)";
   ") ENGINE=InnoDB DEFAULT CHARSET=utf8mb4 COLLATE=utf8mb4_unicode_ci;";
   EmptyString;
   "-- Create subscriptions table";
   "CREATE TABLE IF NOT EXISTS subscriptions (";
   "  id VARCHAR(36) PRIMARY KEY,";
   "  user_id VARCHAR(36) NOT NULL,";
   "  stripe_subscription_id VARCHAR(255) UNIQUE,";
   "  stripe_customer_id VARCHAR(255),";
   "  stripe_payment_intent_id VARCHAR(255),";
   "  status VARCHAR(50) DEFAULT 'incomplete',";
   "  plan VARCHAR(50) DEFAULT 'annual',";
   "  price DECIMAL(10, 2),";
   "  currency VARCHAR(3) DEFAULT 'USD',";
   "  renewal_date TIMESTAMP NULL,";
   "  cancel_at_period_end BOOLEAN DEFAULT FALSE,";
   "  cancellation_reason TEXT,";
   "  created_at TIMESTAMP DEFAULT CURRENT_TIMESTAMP,";
   "  cancelled_at TIMESTAMP NULL,";
   "  deleted_at TIMESTAMP NULL,";
   "  FOREIGN KEY (user_id) REFERENCES users(id) ON DELETE CASCADE,";
   "  INDEX idx_user_id (user_id),";
   "  INDEX idx_status (status),";
   "  INDEX idx_renewal_date (renewal_date)";
   ") ENGINE=InnoDB DEFAULT CHARSET=utf8mb4 COLLATE=utf8mb4_unicode_ci;";
   EmptyString;
   "-- Create invoices table";
   "CREATE TABLE IF NOT EXISTS invoices (";
   "  id VARCHAR(36) PRIMARY KEY,";
   "  user_id VARCHAR(36) NOT NULL,";
   "  stripe_invoice_id VARCHAR(255) UNIQUE,";
   "  stripe_customer_id VARCHAR(255),";
   "  amount DECIMAL(10, 2),";
   "  currency VARCHAR(3) DEFAULT 'USD',";
   "  status VARCHAR(50),";
   "  paid_at TIMESTAMP NULL,";
   "  created_at TIMESTAMP DEFAULT CURRENT_TIMESTAMP,";
   "  deleted_at TIMESTAMP NULL,";
   "  FOREIGN KEY (user_id) REFERENCES users(id) ON DELETE CASCADE,";
   "  INDEX idx_user_id (user_id),";
   "  INDEX idx_status (status),";
   "  INDEX idx_paid_at (paid_at)";
   ") ENGINE=InnoDB DEFAULT CHARSET=utf8mb4 COLLATE=utf8mb4_unicode_ci;";
   EmptyString;
   "-- Create verification_codes table";
   "CREATE TABLE IF NOT EXISTS verification_codes (";
   "  id VARCHAR(36) PRIMARY KEY,";
   "  email VARCHAR(255) NOT NULL,";
   "  code VARCHAR(6) NOT NULL,";
   "  expires_at TIMESTAMP NOT NULL,";
   "  used BOOLEAN DEFAULT FALSE,";
   "  created_at TIMESTAMP DEFAULT CURRENT_TIMESTAMP,";
   "  INDEX idx_email (email),";
   "  INDEX idx_code (code),";
   "  INDEX idx_expires_at (expires_at)";
   ") ENGINE=InnoDB DEFAULT CHARSET=utf8mb4 COLLATE=utf8mb4_unicode_ci;";
   EmptyString;
   "-- Create sessions table";
   "CREATE TABLE IF NOT EXISTS sessions (";
   "  id VARCHAR(36) PRIMARY KEY,";
   "  user_id VARCHAR(36) NOT NULL,";
   "  token VARCHAR(500) NOT NULL UNIQUE,";
   "  expires_at TIMESTAMP NOT NULL,";
   "  created_at TIMESTAMP DEFAULT CURRENT_TIMESTAMP,";
   "  FOREIGN KEY (user_id) REFERENCES users(id) ON DELETE CASCADE,";
   "  INDEX idx_user_id (user_id),";
   "  INDEX idx_expires_at (expires_at)";
   ") ENGINE=InnoDB DEFAULT CHARSET=utf8mb4 COLLATE=utf8mb4_unicode_ci;";
   EmptyString;
   "-- Create competitor_discovery_jobs table";
   "CREATE TABLE IF NOT EXISTS competitor_discovery_jobs (";
   "  id VARCHAR(36) PRIMARY KEY,";
   "  website_id VARCHAR(36) NOT NULL,";
   "  status VARCHAR(50) DEFAULT 'pending',";
   "  started_at TIMESTAMP NULL,";
   "  completed_at TIMESTAMP NULL,";
   "  error_message TEXT,";
   "  created_at TIMESTAMP DEFAULT CURRENT_TIMESTAMP,";
   "  FOREIGN KEY (website_id) REFERENCES websites(id) ON DELETE CASCADE,";
   "  INDEX idx_website_id (website_id),";
   "  INDEX idx_status (status)";
   ") ENGINE=InnoDB DEFAULT CHARSET=utf8mb4 COLLATE=utf8mb4_unicode_ci;";
   EmptyString;
   "-- Create monthly_reports table";
   "CREATE TABLE IF NOT EXISTS monthly_reports (";
   "  id VARCHAR(36) PRIMARY KEY,";
   "  website_id VARCHAR(36) NOT NULL,";
   "  report_month VARCHAR(7),";
   "  threat_level VARCHAR(20),";
   "  threat_score INT,";
   "  competitor_count INT,";
   "  top_competitors JSON,";
   "  top_keywords JSON,";
   "  recommendations JSON,";
   "  generated_at TIMESTAMP DEFAULT CURRENT_TIMESTAMP,";
   "  email_sent_at TIMESTAMP NULL,";
   "  deleted_at TIMESTAMP NULL,";
   "  FOREIGN KEY (website_id) REFERENCES websites(id) ON DELETE CASCADE,";
   "  INDEX idx_website_id (website_id),";
   "  INDEX idx_report_month (report_month),";
   "  INDEX idx_generated_at (generated_at)";
   ") ENGINE=InnoDB DEFAULT CHARSET=utf8mb4 COLLATE=utf8mb4_unicode_ci;";
   EmptyString;
   "-- Create migrations table";
   "CREATE TABLE IF NOT EXISTS migrations (";
   "  id INT AUTO_INCREMENT PRIMARY KEY,";
   "  name VARCHAR(255) NOT NULL UNIQUE,";
   "  executed_at TIMESTAMP DEFAULT CURRENT_TIMESTAMP,";
   "  INDEX idx_name (name)";
   ") ENGINE=InnoDB DEFAULT CHARSET=utf8mb4 COLLATE=utf8mb4_unicode_ci;";
   EmptyString;
   "-- Create audit_logs table";
   "CREATE TABLE IF NOT EXISTS audit_logs (";
   "  id VARCHAR(36) PRIMARY KEY,";
   "  user_id VARCHAR(36),";
   "  action VARCHAR(100) NOT NULL,";
   "  entity_type VARCHAR(50),";
   "  entity_id VARCHAR(36),";
   "  changes JSON,";
   "  created_at TIMESTAMP DEFAULT CURRENT_TIMESTAMP,";
   "  FOREIGN KEY (user_id) REFERENCES users(id) ON DELETE SET NULL,";
   "  INDEX idx_user_id (user_id),";
   "  INDEX idx_action (action),";
   "  INDEX idx_created_at (created_at)";
   ") ENGINE=InnoDB DEFAULT CHARSET=utf8mb4 COLLATE=utf8mb4_unicode_ci;";
   EmptyString;
   "-- Record migration";
   "INSERT INTO migrations (name) VALUES ('001_create_initial_schema') ON DUPLICATE KEY UPDATE executed_at = CURRENT_TIMESTAMP;"]%string.

Definition schema_sql : string :=
  String.concat EmptyString (map (fun l => (l ++ newline)%string) schema_lines).

End Migrations.

(* ------------------------------------------------------------------ *)
(** ** Notions used to state further properties of the services *)

Module Notions.
Import Discovery Run.

(** The "Combine and deduplicate results" step of [discoverCompetitors]. *)
Definition aggregate (allCandidates : list Candidate) : list Candidate :=
  Js.map_values
    (Js.map_of_entries (map (fun c => (cand_url c, c)) allCandidates)).

(** The last candidate of a list that carries a given URL. *)
Definition last_by_url (u : string) (l : list Candidate)
  : option Candidate :=
  find (fun c => String.eqb (cand_url c) u) (rev l).




(** The rows of a website that the calculator and the ranking read. *)
Definition live (websiteId : Id) (c : Competitor) : bool :=
  Nat.eqb (c_website_id c) websiteId
  && ThreatScoring.is_null (c_deleted_at c).

(** [column ? JSON.parse(column) : []] *)
Definition parsed (column : option JsonText) : Result (list string) :=
  match column with
  | Some t => JSON_parse t
  | None => Ok []
  end.

(** In [ORDER BY threat_score DESC], a row with score [a] may come before a
    row with score [b]: [b] is NULL, or both are numbers and [b] is not the
    greater. *)
Definition not_below (a b : option Z) : Prop :=
  match b with
  | None => True
  | Some y => exists x, a = Some x /\ y <= x
  end.

(** The task a key of [scheduledJobs] refers to. *)
Definition registered (key : string) (st : Scheduler.Cron) : option nat :=
  option_map snd
    (find (fun entry => String.eqb (fst entry) key)
          (Scheduler.scheduledJobs st)).

(** [scheduledJobs] is an object, so it has each key once, and it refers
    to tasks that exist. *)
Definition registry_ok (st : Scheduler.Cron) : Prop :=
  NoDup (map fst (Scheduler.scheduledJobs st))
  /\ Forall (fun entry =>
               (snd entry < List.length (Scheduler.tasks st))%nat)
            (Scheduler.scheduledJobs st).

(** The names [getTasksStatus] reports on. *)
Definition task_names : list string :=
  ["weeklyRefresh"; "monthlyReports"; "subscriptionReminders"]%string.

End Notions.

(* ------------------------------------------------------------------ *)
(** ** server/migrations/run-migrations.js, the runner

    The runner's environment: [connect] is [pool.getConnection()],
    [readdirSync] the entries of the migrations directory,
    [select_names] the query of [getExecutedMigrations] with its rows
    mapped to their [migration_name], [path_join] is
    [path.join(__dirname, file)] and [release] is [connection.release()].
    A query reads the database and leaves it as it is.  [process.exit]
    ends the run with its code; the number beside it is [executedCount]
    at that moment. *)

Module MigrationRunner.
Import Migrations.

Inductive Outcome :=
| Returned
| Exited (code : nat).

Section Runner.
Variable Database : Type.
Variable connect : Result unit.
Variable readdirSync : list string.
Variable select_names : Database -> Result (list string).
Variable execute : Database -> string -> Result unit * Database.
Variable readFileSync : string -> Result string.
Variable path_join : string -> string.
Variable release : Result unit.

Definition getExecutedMigrations (db : Database) : list string :=
  match select_names db with
  | Ok names => names
  | Throw _ => []
  end.

(** The loop over the migration files. *)
Fixpoint run_pending (migrationFiles executedMigrations : list string)
  (executedCount : nat) (db : Database) : option nat * nat * Database :=
  match migrationFiles with
  | [] => (None, executedCount, db)
  | file :: rest =>
      let migrationName := getMigrationName file in
      if existsb (String.eqb migrationName) executedMigrations
      then run_pending rest executedMigrations executedCount db
      else
        match executeMigration execute readFileSync db (path_join file)
                migrationName with
        | (true, db1) =>
            run_pending rest executedMigrations (S executedCount) db1
        | (false, db1) => (Some 1%nat, executedCount, db1)
        end
  end.

Definition runMigrations (db : Database) : Outcome * nat * Database :=
  match connect with
  | Throw _ => (Exited 1, 0%nat, db)
  | Ok _ =>
      let migrationFiles := getMigrationFiles readdirSync in
      if Nat.eqb (List.length migrationFiles) 0 then (Returned, 0%nat, db)
      else
        let executedMigrations := getExecutedMigrations db in
        match run_pending migrationFiles executedMigrations 0 db with
        | (Some code, executedCount, db1) =>
            (Exited code, executedCount, db1)
        | (None, executedCount, db1) =>
            match release with
            | Ok _ => (Exited 0, executedCount, db1)
            | Throw _ => (Exited 1, executedCount, db1)
            end
        end
  end.

End Runner.

End MigrationRunner.

(* ------------------------------------------------------------------ *)
(** ** Notions used to state properties of the migration runner *)

Module MigrationNotions.
Import Ascii Migrations MigrationRunner.

(** A piece of a migration file that is blank, or whose first non-blank
    characters are [--]. *)
Definition comment_led (piece : string) : bool :=
  String.eqb (trim piece) EmptyString
  || String.prefix "--"%string (trim_start piece).

Definition no_semicolon (piece : string) : bool := negb (has_char ";"%char piece).

Fixpoint all_digits (s : string) : bool :=
  match s with
  | String c rest => is_digit c && all_digits rest
  | EmptyString => true
  end.

Definition first_code (file : string) : nat :=
  match file with
  | String c _ => code c
  | EmptyString => 0%nat
  end.

Section Runs.
Variable Database : Type.
Variable execute : Database -> string -> Result unit * Database.
Variable readFileSync : string -> Result string.
Variable path_join : string -> string.

(** The database after the statements of [l] were sent to it in turn. *)
Definition state_after (l : list string) (db : Database) : Database :=
  fold_left (fun d statement => snd (execute d statement)) l db.

(** A statement the loop of [executeMigration] passes: it succeeds, or it
    fails with a message that contains "already exists". *)
Definition tolerated (db : Database) (statement : string) : bool :=
  match fst (execute db statement) with
  | Ok _ => true
  | Throw message => includes "already exists"%string message
  end.

(** Every statement of [l] is tolerated in the state it is sent to. *)
Fixpoint all_tolerated (l : list string) (db : Database) : bool :=
  match l with
  | [] => true
  | statement :: rest =>
      tolerated db statement
      && all_tolerated rest (snd (execute db statement))
  end.

(** The files the runner does not skip. *)
Definition pending (migrationFiles executedMigrations : list string)
  : list string :=
  filter (fun file =>
            negb (existsb (String.eqb (getMigrationName file))
                          executedMigrations))
         migrationFiles.

Definition migrate (db : Database) (file : string) : bool * Database :=
  executeMigration execute readFileSync db (path_join file)
                   (getMigrationName file).

(** The database after the files of [l] were migrated in turn. *)
Definition db_after (l : list string) (db : Database) : Database :=
  fold_left (fun d file => snd (migrate d file)) l db.

(** Every file of [l] migrates successfully in the state it meets. *)
Fixpoint all_migrate (l : list string) (db : Database) : bool :=
  match l with
  | [] => true
  | file :: rest =>
      fst (migrate db file) && all_migrate rest (snd (migrate db file))
  end.

End Runs.

(** A database that refuses every statement. *)
Definition refusing (log : list string) (statement : string)
  : Result unit * list string :=
  (Throw "You have an error in your SQL syntax"%string, log ++ [statement]).

(** A database that records what it is sent and refuses the statement
    [DROP]. *)
Definition picky (log : list string) (statement : string)
  : Result unit * list string :=
  (if String.eqb statement "DROP"%string then Throw "Unknown table"%string
   else if String.eqb statement "CREATE"%string then Throw "Table already exists"%string
   else Ok tt,
   log ++ [statement]).

End MigrationNotions.

(* ------------------------------------------------------------------ *)
(** * Properties of the aggregate threat calculator *)

Module ThreatScoringSpec.
Import ThreatScoring.

Lemma keyword_count_read (websiteId : Id) (s : Store) :
  Js.or_number (hd_error [keyword_count websiteId s]) 0
  = keyword_count websiteId s.
Proof.
  cbn [hd_error Js.or_number].
  destruct (Z.eqb_spec (keyword_count websiteId s) 0) as [E | _];
    [ now rewrite E | reflexivity ].
Qed.

(** With no live competitor row the early return is taken and the keyword
    table is never read. *)
Lemma calculate_empty (websiteId : Id) (s : Store) :
  competitor_scores websiteId s = [] ->
  calculateThreatScore websiteId s
  = (Ok {| threat_level := LOW;
           threat_score := 20;
           competitor_count := 0;
           average_competitor_score := 0;
           market_saturation := low;
           ai_search_visibility := low |}, s).
Proof.
  intros E.
  unfold calculateThreatScore, try_catch, bind, select_threat_scores.
  now rewrite E.
Qed.

(** With at least one live competitor row the result is assembled from the
    four blocks. *)
Lemma calculate_nonempty (websiteId : Id) (s : Store) :
  competitor_scores websiteId s <> [] ->
  let rows := competitor_scores websiteId s in
  let count := Z.of_nat (List.length rows) in
  let adjusted := adjustForStrongest (maxScore rows)
                                     (determineThreatLevel count) in
  calculateThreatScore websiteId s
  = (Ok {| threat_level := fst adjusted;
           threat_score := Z.min 100 (snd adjusted);
           competitor_count := count;
           average_competitor_score := averageScore rows;
           market_saturation := determineMarketSaturation count;
           ai_search_visibility :=
             estimateAiSearchVisibility (keyword_count websiteId s) |}, s).
Proof.
  intros Hrows rows count adjusted.
  unfold calculateThreatScore, try_catch, bind, select_threat_scores.
  fold rows.
  destruct rows as [| r rs] eqn:E; [ contradiction |].
  change (Nat.eqb (List.length (r :: rs)) 0) with false.
  cbv iota.
  fold count. fold adjusted.
  destruct adjusted as [lvl sc].
  unfold select_keyword_count, ret.
  now rewrite keyword_count_read.
Qed.

Lemma count_positive {A} (rows : list A) :
  rows <> [] -> 1 <= Z.of_nat (List.length rows).
Proof.
  destruct rows; [ contradiction | intros _; cbn [List.length]; lia ].
Qed.

Lemma adjust_below_75 (m : Z) (base : ThreatLevel * Z) :
  m < 75 -> adjustForStrongest m base = base.
Proof.
  intros Hm. destruct base as [lvl sc]. unfold adjustForStrongest.
  destruct (Z.leb_spec 90 m); [ lia |].
  destruct (Z.leb_spec 75 m); [ lia | reflexivity ].
Qed.

Lemma adjust_from_90 (m : Z) (lvl : ThreatLevel) (sc : Z) :
  90 <= m -> adjustForStrongest m (lvl, sc) = (CRITICAL, Z.max sc 85).
Proof.
  intros Hm. unfold adjustForStrongest.
  destruct (Z.leb_spec 90 m); [ reflexivity | lia ].
Qed.

(** Between 75 and 89 both inner tests run in sequence: a level that the
    first one raised to MEDIUM is raised again by the second. *)
Lemma adjust_75_to_89 (m : Z) (lvl : ThreatLevel) (sc : Z) :
  75 <= m < 90 ->
  adjustForStrongest m (lvl, sc)
  = (match lvl with
     | CRITICAL => CRITICAL
     | HIGH | MEDIUM | LOW => HIGH
     end, Z.max sc 70).
Proof.
  intros Hm. unfold adjustForStrongest.
  destruct (Z.leb_spec 90 m); [ lia |].
  destruct (Z.leb_spec 75 m); [ | lia ].
  now destruct lvl.
Qed.

Lemma base_score_at_most_100 (count : Z) :
  snd (determineThreatLevel count) <= 100 \/ count < 5.
Proof.
  unfold determineThreatLevel.
  repeat match goal with
         | |- context [Z.leb ?a ?b] => destruct (Z.leb_spec a b)
         end; cbn [snd]; lia.
Qed.

(** C6. For a website with at least one live competitor row, the level and
    score before adjustment follow the count brackets (10 and more:
    CRITICAL, 80 + 2 x (count - 10) capped at 100; 7 to 9: HIGH,
    65 + 3 x (count - 7); 5 to 6: MEDIUM, 50 + 3 x (count - 5); 3 to 4:
    MEDIUM, 40 + 2 x count; 1 to 2: LOW, 20 + 5 x count); the returned level
    and score are that base adjusted for the strongest competitor, the score
    clamped to at most 100, and they are the base itself when the strongest
    competitor scores below 75; market_saturation follows the same count
    thresholds and ai_search_visibility the keyword count.  In particular
    11 competitors with maximum 60 and 3 keywords give CRITICAL, 82,
    very_high, very_low. *)
Theorem count_brackets (websiteId : Id) (s : Store)
  (Hrows : competitor_scores websiteId s <> []) :
  let rows := competitor_scores websiteId s in
  let count := Z.of_nat (List.length rows) in
  let kw := keyword_count websiteId s in
  let base := determineThreatLevel count in
  exists r,
    calculateThreatScore websiteId s = (Ok r, s)
    /\ 1 <= count
    /\ (10 <= count -> base = (CRITICAL, Z.min 100 (80 + 2 * (count - 10))))
    /\ (7 <= count <= 9 -> base = (HIGH, 65 + 3 * (count - 7)))
    /\ (5 <= count <= 6 -> base = (MEDIUM, 50 + 3 * (count - 5)))
    /\ (3 <= count <= 4 -> base = (MEDIUM, 40 + 2 * count))
    /\ (1 <= count <= 2 -> base = (LOW, 20 + 5 * count))
    /\ threat_level r = fst (adjustForStrongest (maxScore rows) base)
    /\ threat_score r
       = Z.min 100 (snd (adjustForStrongest (maxScore rows) base))
    /\ (maxScore rows < 75 ->
        threat_level r = fst base /\ threat_score r = snd base)
    /\ threat_score r <= 100
    /\ competitor_count r = count
    /\ (10 <= count -> market_saturation r = very_high)
    /\ (7 <= count < 10 -> market_saturation r = high)
    /\ (5 <= count < 7 -> market_saturation r = medium)
    /\ (3 <= count < 5 -> market_saturation r = medium)
    /\ (count < 3 -> market_saturation r = very_low)
    /\ (20 <= kw -> ai_search_visibility r = very_high)
    /\ (15 <= kw < 20 -> ai_search_visibility r = high)
    /\ (10 <= kw < 15 -> ai_search_visibility r = medium)
    /\ (5 <= kw < 10 -> ai_search_visibility r = low)
    /\ (kw < 5 -> ai_search_visibility r = very_low)
    /\ (count = 11 -> maxScore rows = 60 -> kw = 3 ->
        threat_level r = CRITICAL /\ threat_score r = 82
        /\ market_saturation r = very_high
        /\ ai_search_visibility r = very_low).
Proof.
  intros rows count kw base.
  pose proof (count_positive Hrows) as Hcount. fold rows count in Hcount.
  eexists. split; [ exact (calculate_nonempty websiteId s Hrows) |].
  cbn [threat_level threat_score competitor_count market_saturation
       ai_search_visibility].
  fold rows count kw base.
  assert (Hbase :
    (10 <= count -> base = (CRITICAL, Z.min 100 (80 + 2 * (count - 10))))
    /\ (7 <= count <= 9 -> base = (HIGH, 65 + 3 * (count - 7)))
    /\ (5 <= count <= 6 -> base = (MEDIUM, 50 + 3 * (count - 5)))
    /\ (3 <= count <= 4 -> base = (MEDIUM, 40 + 2 * count))
    /\ (1 <= count <= 2 -> base = (LOW, 20 + 5 * count))).
  { subst base. unfold determineThreatLevel.
    repeat match goal with
           | |- context [Z.leb ?a ?b] => destruct (Z.leb_spec a b)
           end;
      repeat split; intros; try lia; f_equal; lia. }
  assert (Hsat :
    (10 <= count -> determineMarketSaturation count = very_high)
    /\ (7 <= count < 10 -> determineMarketSaturation count = high)
    /\ (5 <= count < 7 -> determineMarketSaturation count = medium)
    /\ (3 <= count < 5 -> determineMarketSaturation count = medium)
    /\ (count < 3 -> determineMarketSaturation count = very_low)).
  { unfold determineMarketSaturation.
    repeat match goal with
           | |- context [Z.leb ?a ?b] => destruct (Z.leb_spec a b)
           end;
      repeat split; intros; try lia; reflexivity. }
  assert (Hvis :
    (20 <= kw -> estimateAiSearchVisibility kw = very_high)
    /\ (15 <= kw < 20 -> estimateAiSearchVisibility kw = high)
    /\ (10 <= kw < 15 -> estimateAiSearchVisibility kw = medium)
    /\ (5 <= kw < 10 -> estimateAiSearchVisibility kw = low)
    /\ (kw < 5 -> estimateAiSearchVisibility kw = very_low)).
  { unfold estimateAiSearchVisibility.
    repeat match goal with
           | |- context [Z.leb ?a ?b] => destruct (Z.leb_spec a b)
           end;
      repeat split; intros; try lia; reflexivity. }
  assert (Hlow : maxScore rows < 75 ->
                 fst (adjustForStrongest (maxScore rows) base) = fst base
                 /\ Z.min 100 (snd (adjustForStrongest (maxScore rows) base))
                    = snd base).
  { intros Hm. rewrite (adjust_below_75 base Hm). split; [ reflexivity |].
    destruct (base_score_at_most_100 count) as [H | H];
      [ fold base in H; lia |].
    destruct Hbase as (_ & _ & _ & H34 & H12).
    destruct (Z.le_gt_cases 3 count) as [H3 | H3];
      [ rewrite H34 by lia | rewrite H12 by lia ]; cbn [snd]; lia. }
  destruct Hbase as (B10 & B7 & B5 & B3 & B1).
  destruct Hsat as (S10 & S7 & S5 & S3 & S0).
  destruct Hvis as (V20 & V15 & V10 & V5 & V0).
  repeat match goal with |- _ /\ _ => split end; auto; try lia.
  intros Hc Hm Hk.
  destruct Hlow as [L1 L2]; [ lia |].
  rewrite L1, L2, B10, S10, V0 by lia. rewrite Hc.
  repeat split.
Qed.

(** C4, as amended.  For a website without a live competitor row the result
    is exactly LOW, 20, count 0, average 0, market_saturation low and
    ai_search_visibility low, whatever the number of keywords. *)
Theorem zero_competitors_low (websiteId : Id) (s : Store)
  (Hrows : competitor_scores websiteId s = []) :
  calculateThreatScore websiteId s
  = (Ok {| threat_level := LOW;
           threat_score := 20;
           competitor_count := 0;
           average_competitor_score := 0;
           market_saturation := low;
           ai_search_visibility := low |}, s).
Proof. exact (calculate_empty websiteId s Hrows). Qed.

Lemma count_brackets_witness :
  competitor_scores 1%nat ThreatFixtures.crowded_market <> []
  /\ exists r,
       calculateThreatScore 1%nat ThreatFixtures.crowded_market
       = (Ok r, ThreatFixtures.crowded_market)
       /\ threat_level r = CRITICAL /\ threat_score r = 82
       /\ market_saturation r = very_high
       /\ ai_search_visibility r = very_low.
Proof.
  assert (H : competitor_scores 1%nat ThreatFixtures.crowded_market <> [])
    by (vm_compute; discriminate).
  split; [ exact H |].
  destruct (count_brackets 1%nat ThreatFixtures.crowded_market H)
    as (r & Hr & Hrest).
  exists r. split; [ exact Hr |].
  repeat match type of Hrest with
         | _ /\ _ => destruct Hrest as [_ Hrest]
         end.
  apply Hrest; vm_compute; reflexivity.
Defined.

Lemma zero_competitors_low_witness :
  competitor_scores 1%nat Fixtures.one_site = []
  /\ calculateThreatScore 1%nat Fixtures.one_site
     = (Ok {| threat_level := LOW;
              threat_score := 20;
              competitor_count := 0;
              average_competitor_score := 0;
              market_saturation := low;
              ai_search_visibility := low |}, Fixtures.one_site).
Proof.
  split; [ reflexivity |].
  apply (zero_competitors_low 1%nat Fixtures.one_site). reflexivity.
Defined.

(** C4, as stated, fails: with no competitor and no keyword the two buckets
    come back as low, not very_low. *)
Lemma zero_competitors_not_very_low :
  competitor_scores 1%nat Fixtures.one_site = []
  /\ keyword_count 1%nat Fixtures.one_site = 0
  /\ exists r,
       calculateThreatScore 1%nat Fixtures.one_site
       = (Ok r, Fixtures.one_site)
       /\ ~ (threat_level r = LOW /\ threat_score r = 20
             /\ competitor_count r = 0
             /\ market_saturation r = very_low
             /\ ai_search_visibility r = very_low).
Proof.
  split; [ reflexivity |]. split; [ reflexivity |].
  eexists. split; [ reflexivity |].
  cbn. intros (_ & _ & _ & H & _). discriminate H.
Qed.

(** C2.  One live competitor scored 80: the count bracket gives LOW with
    score 25 and the strongest competitor lies between 75 and 89, yet the
    level returned is HIGH, two steps above the base, with score 70. *)
Theorem low_base_reaches_high :
  competitor_scores 1%nat ThreatFixtures.one_strong_rival = [Some 80]
  /\ maxScore [Some 80] = 80
  /\ determineThreatLevel 1 = (LOW, 25)
  /\ calculateThreatScore 1%nat ThreatFixtures.one_strong_rival
     = (Ok {| threat_level := HIGH;
              threat_score := 70;
              competitor_count := 1;
              average_competitor_score := 80;
              market_saturation := very_low;
              ai_search_visibility := very_low |},
        ThreatFixtures.one_strong_rival).
Proof. repeat split. Qed.

End ThreatScoringSpec.

(* ------------------------------------------------------------------ *)
(** * Facts about the JavaScript helpers *)

Module JsFacts.

Section SortFacts.
Variable A : Type.
Variable before : A -> A -> bool.

Let R (a b : A) : Prop := before a b = true.

Lemma insert_permutation (x : A) (l : list A) :
  Permutation (Js.insert before x l) (x :: l).
Proof.
  induction l as [| y ys IH]; cbn [Js.insert].
  - apply Permutation_refl.
  - destruct (before x y).
    + apply Permutation_refl.
    + eapply perm_trans; [ apply perm_skip, IH | apply perm_swap ].
Qed.

Lemma sort_permutation (l : list A) : Permutation (Js.sort before l) l.
Proof.
  induction l as [| x xs IH]; cbn [Js.sort].
  - apply perm_nil.
  - eapply perm_trans; [ apply insert_permutation | apply perm_skip, IH ].
Qed.

Lemma sort_length (l : list A) :
  List.length (Js.sort before l) = List.length l.
Proof. apply Permutation_length, sort_permutation. Qed.

Hypothesis before_total : forall a b, before a b = false -> before b a = true.
Hypothesis before_trans :
  forall a b c, before a b = true -> before b c = true -> before a c = true.

Lemma insert_sorted (x : A) (l : list A) :
  StronglySorted R l -> StronglySorted R (Js.insert before x l).
Proof.
  induction 1 as [| y ys Hs IH Hy]; cbn [Js.insert].
  - constructor; constructor.
  - destruct (before x y) eqn:E.
    + constructor; [ now constructor |].
      constructor; [ exact E |].
      eapply Forall_impl; [ | exact Hy ].
      intros z Hz. exact (before_trans E Hz).
    + constructor; [ exact IH |].
      eapply Permutation_Forall;
        [ apply Permutation_sym, insert_permutation |].
      constructor; [ exact (before_total E) | exact Hy ].
Qed.

Lemma sort_sorted (l : list A) : StronglySorted R (Js.sort before l).
Proof.
  induction l as [| x xs IH]; cbn [Js.sort].
  - constructor.
  - now apply insert_sorted.
Qed.

Lemma sorted_app_inv (l1 l2 : list A) :
  StronglySorted R (l1 ++ l2) ->
  StronglySorted R l1
  /\ forall a b, In a l1 -> In b l2 -> before a b = true.
Proof.
  induction l1 as [| x xs IH]; cbn [app]; intros Hs.
  - split; [ constructor | intros a b [] ].
  - apply StronglySorted_inv in Hs. destruct Hs as [Hs Hx].
    destruct (IH Hs) as [IH1 IH2].
    apply Forall_app in Hx. destruct Hx as [Hx1 Hx2].
    split; [ now constructor |].
    intros a b [<- | Ha] Hb.
    + rewrite Forall_forall in Hx2. now apply Hx2.
    + now apply IH2.
Qed.

(** The first [n] entries of the sorted array are sorted, and none of the
    entries cut off would have come before one that was kept. *)
Lemma sort_top (n : nat) (l : list A) :
  let kept := firstn n (Js.sort before l) in
  let cut := skipn n (Js.sort before l) in
  StronglySorted R kept
  /\ Permutation l (kept ++ cut)
  /\ forall a b, In a kept -> In b cut -> before a b = true.
Proof.
  intros kept cut.
  assert (E : kept ++ cut = Js.sort before l) by apply firstn_skipn.
  pose proof (sort_sorted l) as Hs. rewrite <- E in Hs.
  destruct (sorted_app_inv _ _ Hs) as [H1 H2].
  repeat split; [ exact H1 | | exact H2 ].
  rewrite E. apply Permutation_sym, sort_permutation.
Qed.

End SortFacts.

Lemma Forall_firstn {A} (P : A -> Prop) (n : nat) (l : list A) :
  Forall P l -> Forall P (firstn n l).
Proof.
  intros H. revert n.
  induction H as [| x xs Hx _ IH]; intros [| n]; cbn [firstn];
    constructor; auto.
Qed.

Lemma Forall_filter {A} (f : A -> bool) (l : list A) :
  Forall (fun x => f x = true) (filter f l).
Proof.
  apply Forall_forall. intros x Hx. now apply filter_In in Hx.
Qed.

End JsFacts.

(* ------------------------------------------------------------------ *)
(** * Properties of the agents *)

Module AgentSpec.
Import Discovery.

Lemma truthy_string_value (v : option string) :
  Js.truthy_string v = true -> string_of v <> EmptyString.
Proof.
  destruct v as [t |]; cbn; [ | discriminate ].
  destruct (String.eqb_spec t EmptyString); [ discriminate | auto ].
Qed.

(** C8.  Whatever the search provider does, [researchAgent] returns
    normally, with at most five candidates, each carrying a non-empty name
    and a non-empty URL taken from the provider's results; when the request
    fails or the body is malformed, or has no results, the list is empty.
    Of nine results of which two lack a title or a URL, the first five of
    the remaining seven are returned. *)
Theorem researchAgent_bounded (P : Providers) (agentId : nat)
  (businessContext : BusinessContext) (searchQuery : string) :
  exists found,
    researchAgent P agentId businessContext searchQuery = Ok found
    /\ (List.length found <= 5)%nat
    /\ Forall (fun c => name c <> EmptyString /\ cand_url c <> EmptyString)
              found
    /\ match tavily_search P searchQuery with
       | SearchData (Some results) =>
           Forall (fun c => exists r, In r results
                                      /\ title r = Some (name c)
                                      /\ url r = Some (cand_url c)) found
       | SearchData None | SearchFailed _ | SearchMalformed _ => found = []
       end
    /\ map name
         (Run.agentResults (Fixtures.finding Fixtures.nine_results) agentId
            businessContext searchQuery)
       = ["A"; "C"; "D"; "F"; "G"]%string.
Proof.
  assert (Hexample :
    map name
      (Run.agentResults (Fixtures.finding Fixtures.nine_results) agentId
         businessContext searchQuery)
    = ["A"; "C"; "D"; "F"; "G"]%string) by reflexivity.
  unfold researchAgent, response_data_results, rcatch, rbind.
  destruct (tavily_search P searchQuery) as [m | m | [results |]];
    try (exists []; repeat split;
         solve [ constructor | cbn; lia | exact Hexample ]).
  eexists. split; [ reflexivity |].
  split; [ apply firstn_le_length |].
  rewrite <- and_assoc. split; [ | exact Hexample ].
  split; apply JsFacts.Forall_firstn, Forall_forall; intros c Hc;
    apply in_map_iff in Hc; destruct Hc as (r & <- & Hr);
    apply filter_In in Hr; destruct Hr as [Hin Hr];
    apply andb_prop in Hr; destruct Hr as [Ht Hu]; cbn [name cand_url].
  - split; now apply truthy_string_value.
  - exists r. split; [ exact Hin |].
    destruct (title r), (url r); try discriminate. now split.
Qed.

Lemma confidence_desc_le (a b : ValidatedCompetitor) :
  confidence_desc a b = true
  <-> number_of (confidence b) <= number_of (confidence a).
Proof. unfold confidence_desc. rewrite Z.leb_le. lia. Qed.

Lemma confidence_desc_total (a b : ValidatedCompetitor) :
  confidence_desc a b = false -> confidence_desc b a = true.
Proof.
  intros H. apply confidence_desc_le.
  unfold confidence_desc in H. apply Z.leb_gt in H. lia.
Qed.

Lemma confidence_desc_trans (a b c : ValidatedCompetitor) :
  confidence_desc a b = true -> confidence_desc b c = true ->
  confidence_desc a c = true.
Proof. rewrite !confidence_desc_le. lia. Qed.

Lemma passes_inv (c : ValidatedCompetitor) :
  passes c = true ->
  is_competitor c = true /\ exists n, confidence c = Some n /\ 80 <= n.
Proof.
  unfold passes. intros H. apply andb_prop in H. destruct H as [H1 H2].
  split; [ exact H1 |].
  destruct (confidence c) as [n |]; cbn in H2; [ | discriminate ].
  exists n. split; [ reflexivity | now apply Z.leb_le ].
Qed.

Lemma sorted_by_confidence (l : list ValidatedCompetitor) :
  StronglySorted (fun a b => confidence_desc a b = true) l ->
  StronglySorted
    (fun a b => number_of (confidence b) <= number_of (confidence a)) l.
Proof.
  induction 1 as [| x xs _ IH Hx]; constructor; [ exact IH |].
  eapply Forall_impl; [ | exact Hx ].
  intros y Hy. now apply confidence_desc_le.
Qed.

(** What the supervisor keeps of a parsed [validated_competitors] array. *)
Lemma supervisor_keeps (judged : list ValidatedCompetitor) :
  let passing := filter passes judged in
  let validated := firstn 5 (Js.sort confidence_desc passing) in
  (List.length validated <= 5)%nat
  /\ List.length validated = Nat.min 5 (List.length passing)
  /\ Forall (fun c => is_competitor c = true
                      /\ exists n, confidence c = Some n /\ 80 <= n)
            validated
  /\ StronglySorted
       (fun a b => number_of (confidence b) <= number_of (confidence a))
       validated
  /\ exists cut,
       Permutation passing (validated ++ cut)
       /\ forall a b, In a validated -> In b cut ->
                      number_of (confidence b) <= number_of (confidence a).
Proof.
  intros passing validated.
  destruct (JsFacts.sort_top confidence_desc confidence_desc_total
              confidence_desc_trans 5 passing) as (Hs & Hp & Htop).
  fold validated in Hs, Hp, Htop.
  split; [ apply firstn_le_length |].
  split; [ unfold validated;
           now rewrite length_firstn, JsFacts.sort_length |].
  split.
  { apply JsFacts.Forall_firstn.
    eapply Permutation_Forall;
      [ apply Permutation_sym, JsFacts.sort_permutation |].
    eapply Forall_impl; [ | apply JsFacts.Forall_filter ].
    intros c Hc. now apply passes_inv. }
  split; [ now apply sorted_by_confidence |].
  eexists. split; [ exact Hp |].
  intros a b Ha Hb. apply confidence_desc_le. now apply Htop.
Qed.

(** C7.  The supervisor always returns normally.  When the reasoning
    service's answer parses, the output is the parsed entries with
    is_competitor true and confidence at least 80 (80 included), in
    descending order of confidence, cut to the first five: nothing else is
    in it, what is cut off is no more confident than what is kept, and as
    soon as five entries pass exactly five are returned.  Confidences
    95, 79, 80, 60 give 95, 80; eight passing entries give the five most
    confident.  In every other case the output is empty. *)
Theorem supervisor_filter_and_cap (P : Providers)
  (businessContext : BusinessContext) (allCandidates : list Candidate) :
  exists validated,
    supervisorAgent P businessContext allCandidates = Ok validated
    /\ match supervisor_completion P businessContext allCandidates with
       | Parsed (Some judged) =>
           let passing := filter passes judged in
           validated = firstn 5 (Js.sort confidence_desc passing)
           /\ (List.length validated <= 5)%nat
           /\ List.length validated = Nat.min 5 (List.length passing)
           /\ Forall (fun c => is_competitor c = true
                               /\ exists n, confidence c = Some n /\ 80 <= n)
                     validated
           /\ StronglySorted
                (fun a b => number_of (confidence b)
                            <= number_of (confidence a))
                validated
           /\ exists cut,
                Permutation passing (validated ++ cut)
                /\ forall a b, In a validated -> In b cut ->
                               number_of (confidence b)
                               <= number_of (confidence a)
       | Parsed None | RequestFailed _ | NoJsonObject | ParseError _ =>
           validated = []
       end
    /\ supervisorAgent (Fixtures.answering Fixtures.mixed_confidences)
         businessContext allCandidates
       = Ok [Fixtures.judged "A" "https://a.example" 95;
             Fixtures.judged "C" "https://c.example" 80]
    /\ List.length (filter passes Fixtures.eight_passing) = 8%nat
    /\ supervisorAgent (Fixtures.answering Fixtures.eight_passing)
         businessContext allCandidates
       = Ok [Fixtures.judged "B" "https://b.example" 99;
             Fixtures.judged "G" "https://g.example" 95;
             Fixtures.judged "D" "https://d.example" 90;
             Fixtures.judged "E" "https://e.example" 88;
             Fixtures.judged "C" "https://c.example" 85].
Proof.
  assert (Hexamples :
    supervisorAgent (Fixtures.answering Fixtures.mixed_confidences)
      businessContext allCandidates
    = Ok [Fixtures.judged "A" "https://a.example" 95;
          Fixtures.judged "C" "https://c.example" 80]
    /\ List.length (filter passes Fixtures.eight_passing) = 8%nat
    /\ supervisorAgent (Fixtures.answering Fixtures.eight_passing)
         businessContext allCandidates
       = Ok [Fixtures.judged "B" "https://b.example" 99;
             Fixtures.judged "G" "https://g.example" 95;
             Fixtures.judged "D" "https://d.example" 90;
             Fixtures.judged "E" "https://e.example" 88;
             Fixtures.judged "C" "https://c.example" 85])
    by (repeat split).
  unfold supervisorAgent at 1. unfold rcatch.
  destruct (supervisor_completion P businessContext allCandidates)
    as [m | | m | [judged |]];
    try (exists []; split; [ reflexivity |];
         split; [ reflexivity | assumption ]).
  eexists. split; [ reflexivity |].
  split; [ | assumption ].
  split; [ reflexivity | apply supervisor_keeps ].
Qed.

End AgentSpec.

(* ------------------------------------------------------------------ *)
(** * Properties of the discovery orchestrator *)

Module DiscoverySpec.
Import Discovery Run.

Lemma after_same (s : Store) :
  after s (competitors s) (jobs s) (next_uuid s) = s.
Proof. now destruct s. Qed.

Lemma after_after (s : Store) rows js next rows' js' next' :
  after (after s rows js next) rows' js' next' = after s rows' js' next'.
Proof. reflexivity. Qed.

(** Context resolution reads the websites and the taxonomy and writes
    nothing. *)
Lemma extract_pure (websiteId : Id) (s : Store) :
  extractBusinessContext websiteId s = (resolve websiteId s, s).
Proof.
  unfold resolve, extractBusinessContext, try_catch, bind, select_website,
    lift, ret, throw.
  destruct (find _ (websites s)) as [w |]; [ | reflexivity ].
  destruct (joined _ bt_keywords) as [[k | m] |]; cbn [JSON_parse];
    try reflexivity;
    destruct (joined _ bt_typical_competitors) as [[t | m'] |];
    reflexivity.
Qed.

Lemma resolve_after (websiteId : Id) (s : Store) rows js next :
  resolve websiteId (after s rows js next) = resolve websiteId s.
Proof.
  unfold resolve, extractBusinessContext, try_catch, bind, select_website,
    lift, ret, throw.
  cbn [websites business_types after].
  destruct (find _ (websites s)) as [w |]; [ | reflexivity ].
  destruct (joined _ bt_keywords) as [[k | m] |]; cbn [JSON_parse];
    try reflexivity;
    destruct (joined _ bt_typical_competitors) as [[t | m'] |];
    reflexivity.
Qed.

Lemma value_of_ok {A} (d : A) (r : Result A) :
  (exists a, r = Ok a) -> r = Ok (value d r).
Proof. intros [a ->]. reflexivity. Qed.

Lemma researchAgent_total (P : Providers) (agentId : nat)
  (businessContext : BusinessContext) (searchQuery : string) :
  researchAgent P agentId businessContext searchQuery
  = Ok (agentResults P agentId businessContext searchQuery).
Proof.
  apply value_of_ok.
  unfold researchAgent, response_data_results, rcatch, rbind.
  destruct (tavily_search P searchQuery) as [m | m | r]; eexists; reflexivity.
Qed.

Lemma supervisorAgent_total (P : Providers)
  (businessContext : BusinessContext) (allCandidates : list Candidate) :
  exists validated,
    supervisorAgent P businessContext allCandidates = Ok validated
    /\ (List.length validated <= 5)%nat.
Proof.
  unfold supervisorAgent, rcatch.
  destruct (supervisor_completion P businessContext allCandidates)
    as [m | | m | [judged |]];
    eexists; (split; [ reflexivity |]);
    solve [ cbn; lia | apply firstn_le_length ].
Qed.

Lemma calculateCompetitorThreat_total (P : Providers)
  (competitor : ValidatedCompetitor) (businessContext : BusinessContext) :
  exists threatData,
    calculateCompetitorThreat P competitor businessContext = Ok threatData.
Proof.
  unfold calculateCompetitorThreat, rcatch.
  destruct (threat_completion P competitor businessContext);
    eexists; reflexivity.
Qed.

Lemma scoreCompetitors_total (P : Providers)
  (businessContext : BusinessContext) (l : list ValidatedCompetitor) :
  exists scored,
    scoreCompetitors P businessContext l = Ok scored
    /\ List.length scored = List.length l
    /\ map sc_url scored = map vc_url l
    /\ map sc_confidence scored = map confidence l.
Proof.
  induction l as [| c rest (scored & E & Hlen & Hurl & Hconf)];
    cbn [scoreCompetitors].
  - exists []. repeat split.
  - destruct (calculateCompetitorThreat_total P c businessContext)
      as [t ->].
    rewrite E. cbn [rbind]. eexists. split; [ reflexivity |].
    cbn [List.length map spread sc_url sc_confidence].
    now rewrite Hlen, Hurl, Hconf.
Qed.

(** The steps between context resolution and storage never throw. *)
Lemma pipeline_total (P : Providers) (businessContext : BusinessContext) :
  supervisorAgent P businessContext (uniqueCandidates P businessContext)
  = Ok (validatedCompetitors P businessContext)
  /\ scoreCompetitors P businessContext
       (validatedCompetitors P businessContext)
     = Ok (competitorsWithScores P businessContext)
  /\ List.length (competitorsWithScores P businessContext)
     = List.length (validatedCompetitors P businessContext)
  /\ (List.length (validatedCompetitors P businessContext) <= 5)%nat.
Proof.
  unfold competitorsWithScores, validatedCompetitors.
  destruct (supervisorAgent_total P businessContext
              (uniqueCandidates P businessContext)) as (v & -> & Hv).
  cbn [value].
  destruct (scoreCompetitors_total P businessContext v)
    as (sc & -> & Hlen & _).
  cbn [value]. repeat split; assumption.
Qed.

Lemma fresh_no_duplicate (s : Store) (row : Competitor) :
  ids_fresh s -> c_id row = next_uuid s ->
  existsb (duplicate_key row) (competitors s) = false.
Proof.
  intros Hfresh Hid.
  destruct (existsb (duplicate_key row) (competitors s)) eqn:E;
    [ | reflexivity ].
  apply existsb_exists in E. destruct E as (old & Hin & Hdup).
  unfold ids_fresh in Hfresh. rewrite Forall_forall in Hfresh.
  specialize (Hfresh old Hin).
  unfold duplicate_key in Hdup. apply Nat.eqb_eq in Hdup. lia.
Qed.

(** One [INSERT ... ON DUPLICATE KEY UPDATE]: it draws one identifier and
    touches the competitors table only; on a table whose identifiers were
    all handed out before, it appends. *)
Lemma insert_competitor_run (websiteId : Id) (nm u : string)
  (lv : option string) (sc cf : Z) (s : Store) :
  exists rows,
    insert_competitor websiteId nm u lv sc cf s
    = (Ok tt, after s rows (jobs s) (S (next_uuid s)))
    /\ (ids_fresh s ->
        rows = competitors s
               ++ [new_row (next_uuid s) websiteId nm u lv sc cf (clock s)]).
Proof.
  unfold insert_competitor, bind, fresh_uuid, now.
  cbn [competitors set_next_uuid clock next_uuid].
  destruct (existsb _ (competitors s)) eqn:E.
  - eexists. split; [ reflexivity |].
    intros Hfresh. rewrite fresh_no_duplicate in E by auto. discriminate E.
  - eexists. split; [ reflexivity | reflexivity ].
Qed.

Lemma stored_rows_fresh (id websiteId : Id) (t : Timestamp)
  (l : list ScoredCompetitor) :
  Forall (fun c => (id <= c_id c < id + List.length l)%nat)
         (stored_rows id websiteId t l).
Proof.
  revert id. induction l as [| c rest IH]; intros id;
    cbn [stored_rows List.length]; constructor.
  - cbn. lia.
  - eapply Forall_impl; [ | apply (IH (S id)) ]. cbn beta. intros. lia.
Qed.

(** The storing loop: one identifier per competitor, the competitors table
    only; on a table whose identifiers were all handed out before, it
    appends one row per competitor. *)
Lemma storeCompetitors_run (websiteId : Id) (l : list ScoredCompetitor)
  (s : Store) :
  exists rows,
    storeCompetitors websiteId l s
    = (Ok tt, after s rows (jobs s) (next_uuid s + List.length l)%nat)
    /\ (ids_fresh s ->
        rows = competitors s
               ++ stored_rows (next_uuid s) websiteId (clock s) l).
Proof.
  revert s. induction l as [| c rest IH]; intros s; cbn [storeCompetitors].
  - exists (competitors s). split.
    + unfold ret. cbn [List.length]. rewrite Nat.add_0_r.
      now rewrite after_same.
    + intros _. cbn [stored_rows]. now rewrite app_nil_r.
  - destruct (insert_competitor_run websiteId (sc_name c) (sc_url c)
                (sc_threat_level c)
                (Js.or_number (sc_total_threat_score c) 50)
                (Js.or_number (sc_confidence c) 80) s)
      as (rows1 & E1 & F1).
    unfold bind at 1. rewrite E1.
    destruct (IH (after s rows1 (jobs s) (S (next_uuid s))))
      as (rows2 & E2 & F2).
    rewrite E2. cbn [jobs next_uuid after List.length].
    exists rows2. split.
    + rewrite after_after. do 2 f_equal. lia.
    + intros Hfresh. specialize (F1 Hfresh). subst rows1.
      rewrite F2.
      * cbn [competitors after clock next_uuid stored_rows].
        now rewrite <- app_assoc.
      * unfold ids_fresh. cbn [competitors after next_uuid].
        apply Forall_app. split.
        -- eapply Forall_impl; [ | exact Hfresh ]. cbn beta. intros. lia.
        -- constructor; [ cbn; lia | constructor ].
Qed.

(** The two ways a run ends.  When the context resolves, the run returns
    the scored competitors, has stored them, and has marked its own job
    completed through [WHERE id = ?].  When it does not, the run rethrows
    the message after marking failed every job that [WHERE website_id = ?]
    selects. *)
Lemma discover_run (P : Providers) (websiteId : Id) (s : Store) :
  let job := new_job (next_uuid s) websiteId (clock s) in
  match resolve websiteId s with
  | Ok businessContext =>
      let scored := competitorsWithScores P businessContext in
      exists rows,
        discoverCompetitors P websiteId s
        = (Ok scored,
           after s rows
             (map (fun j =>
                     if Nat.eqb (j_id j) (next_uuid s)
                     then set_completed (Z.of_nat (List.length scored)) j
                     else j)
                  (jobs s ++ [job]))
             (S (next_uuid s) + List.length scored)%nat)
        /\ (ids_fresh s ->
            rows = competitors s
                   ++ stored_rows (S (next_uuid s)) websiteId (clock s)
                        scored)
  | Throw message =>
      discoverCompetitors P websiteId s
      = (Throw message,
         after s (competitors s)
           (map (fun j =>
                   if Nat.eqb (j_website_id j) websiteId
                   then set_failed message j
                   else j)
                (jobs s ++ [job]))
           (S (next_uuid s)))
  end.
Proof.
  intros job.
  set (s1 := after s (competitors s) (jobs s ++ [job]) (S (next_uuid s))).
  assert (Hopen : forall A (k : Id -> M A),
            bind fresh_uuid
              (fun jobId => bind (insert_job jobId websiteId)
                                 (fun _ => k jobId)) s
            = k (next_uuid s) s1) by reflexivity.
  pose proof (resolve_after websiteId s (competitors s) (jobs s ++ [job])
                (S (next_uuid s))) as Hres.
  fold s1 in Hres.
  destruct (resolve websiteId s) as [businessContext | message];
    unfold discoverCompetitors, try_catch; rewrite Hopen;
    unfold bind at 1; rewrite extract_pure, Hres.
  - cbv zeta.
    pose proof (pipeline_total P businessContext) as (Hv & Hsc & _).
    unfold uniqueCandidates in Hv.
    destruct (searchQueries businessContext) as [[query1 query2] query3].
    unfold bind at 1, lift at 1. rewrite researchAgent_total.
    unfold bind at 1, lift at 1. rewrite researchAgent_total.
    unfold bind at 1, lift at 1. rewrite researchAgent_total.
    unfold bind at 1, lift at 1. rewrite Hv.
    unfold bind at 1, lift at 1. rewrite Hsc.
    destruct (storeCompetitors_run websiteId
                (competitorsWithScores P businessContext) s1)
      as (rows & Estore & Hrows).
    unfold bind at 1. rewrite Estore.
    exists rows. split; [ reflexivity |].
    intros Hfresh. apply Hrows.
    unfold ids_fresh, s1. cbn [competitors after next_uuid].
    eapply Forall_impl; [ | exact Hfresh ]. cbn beta. intros. lia.
  - reflexivity.
Qed.

Lemma stored_rows_keys (id websiteId : Id) (t : Timestamp)
  (l : list ScoredCompetitor) :
  map natural_key (stored_rows id websiteId t l)
  = map (fun c => (websiteId, sc_url c)) l.
Proof.
  revert id. induction l as [| c rest IH]; intros id; cbn [stored_rows map].
  - reflexivity.
  - now rewrite IH.
Qed.



(** A run whose context resolves: the scored competitors are returned, the
    job of this run ends completed with their number, and, identifiers
    being fresh, every earlier job is left as it was and one row per scored
    competitor is appended. *)
Lemma completed_run (P : Providers) (websiteId : Id) (s : Store)
  (businessContext : BusinessContext) :
  resolve websiteId s = Ok businessContext ->
  let scored := competitorsWithScores P businessContext in
  exists rows earlier,
    discoverCompetitors P websiteId s
    = (Ok scored,
       after s rows
         (earlier
          ++ [set_completed (Z.of_nat (List.length scored))
                (new_job (next_uuid s) websiteId (clock s))])
         (S (next_uuid s) + List.length scored)%nat)
    /\ List.length earlier = List.length (jobs s)
    /\ (job_ids_fresh s -> earlier = jobs s)
    /\ (ids_fresh s ->
        rows = competitors s
               ++ stored_rows (S (next_uuid s)) websiteId (clock s) scored).
Proof.
  intros E scored. pose proof (discover_run P websiteId s) as H.
  cbv zeta in H. rewrite E in H. destruct H as (rows & H & Hrows).
  fold scored in H, Hrows.
  exists rows. eexists. split; [ | split; [ | split ] ].
  - rewrite H, map_app. cbn [map new_job j_id].
    rewrite Nat.eqb_refl. reflexivity.
  - apply length_map.
  - intros Hfresh. unfold job_ids_fresh in Hfresh.
    rewrite <- (map_id (jobs s)) at 2. apply map_ext_in.
    intros j Hj. rewrite Forall_forall in Hfresh. specialize (Hfresh j Hj).
    destruct (Nat.eqb_spec (j_id j) (next_uuid s)); [ lia | reflexivity ].
  - exact Hrows.
Qed.

(** Running discovery again with the same provider answers appends the same
    competitors a second time: every identifier is drawn afresh, so the
    [ON DUPLICATE KEY UPDATE] branch is never taken. *)
Lemma rerun_appends (P : Providers) (websiteId : Id) (s : Store)
  (businessContext : BusinessContext) :
  resolve websiteId s = Ok businessContext ->
  ids_fresh s ->
  let scored := competitorsWithScores P businessContext in
  exists s1 s2 rows1 rows2,
    discoverCompetitors P websiteId s = (Ok scored, s1)
    /\ discoverCompetitors P websiteId s1 = (Ok scored, s2)
    /\ competitors s1 = competitors s ++ rows1
    /\ competitors s2 = competitors s ++ rows1 ++ rows2
    /\ map natural_key rows1 = map (fun c => (websiteId, sc_url c)) scored
    /\ map natural_key rows2 = map natural_key rows1.
Proof.
  intros E Hfresh scored.
  destruct (completed_run P websiteId s E) as (r1 & e1 & H1 & _ & _ & Hr1).
  fold scored in H1, Hr1. specialize (Hr1 Hfresh).
  set (s1 := after s r1 _ _) in H1.
  assert (E1 : resolve websiteId s1 = Ok businessContext)
    by (unfold s1; now rewrite resolve_after).
  assert (Hfresh1 : ids_fresh s1).
  { unfold ids_fresh, s1. cbn [competitors after next_uuid]. rewrite Hr1.
    apply Forall_app. split.
    - eapply Forall_impl; [ | exact Hfresh ]. cbn beta. intros. lia.
    - eapply Forall_impl; [ | apply stored_rows_fresh ].
      cbn beta. intros. lia. }
  destruct (completed_run P websiteId s1 E1) as (r2 & e2 & H2 & _ & _ & Hr2).
  fold scored in H2, Hr2. specialize (Hr2 Hfresh1).
  do 4 eexists.
  split; [ exact H1 |]. split; [ exact H2 |].
  split; [ exact Hr1 |].
  split; [ cbn [competitors after]; rewrite Hr2; unfold s1;
           cbn [competitors after]; rewrite Hr1, <- app_assoc; reflexivity |].
  now rewrite !stored_rows_keys.
Qed.

(** C1.  The same website, the same provider answers, two runs: the second
    run returns what the first returned, and the competitors table then
    holds two rows with the same (website, competitor URL), under two
    identifiers. *)
Theorem rerun_duplicates_rows :
  let first := discoverCompetitors Fixtures.steady 1%nat Fixtures.one_site in
  let second := discoverCompetitors Fixtures.steady 1%nat (snd first) in
  fst second = fst first
  /\ map natural_key (competitors (snd first))
     = [(1%nat, "https://rival.example"%string)]
  /\ map natural_key (competitors (snd second))
     = [(1%nat, "https://rival.example"%string);
        (1%nat, "https://rival.example"%string)]
  /\ map c_id (competitors (snd second)) = [101%nat; 103%nat].
Proof. repeat split. Qed.

(** C3.  A website with one completed job; its next run fails in context
    resolution.  The update of that run is not confined to the job it
    created: the earlier job loses its completed status and receives the
    error message too. *)
Theorem failed_run_rewrites_history :
  jobs Fixtures.florist_history = [Fixtures.earlier_job]
  /\ j_status Fixtures.earlier_job = completed
  /\ j_error_message Fixtures.earlier_job = None
  /\ exists s',
       discoverCompetitors Fixtures.steady 2%nat Fixtures.florist_history
       = (Throw "Unexpected token b in JSON"%string, s')
       /\ jobs s'
          = [set_failed "Unexpected token b in JSON" Fixtures.earlier_job;
             set_failed "Unexpected token b in JSON"
               (new_job 100%nat 2%nat 1000%nat)].
Proof.
  repeat split. eexists. split; reflexivity.
Qed.









End DiscoverySpec.

(* ------------------------------------------------------------------ *)
(** * Properties of the weekly batch *)

Module AutomationSpec.
Import Discovery Run Automation.

(** The aggregate calculator reads the store, writes nothing, and always
    returns. *)
Lemma calculateThreatScore_total (websiteId : Id) (s : Store) :
  exists threatData,
    ThreatScoring.calculateThreatScore websiteId s = (Ok threatData, s).
Proof.
  destruct (ThreatScoring.competitor_scores websiteId s) eqn:E.
  - eexists. now apply ThreatScoringSpec.calculate_empty.
  - eexists. apply ThreatScoringSpec.calculate_nonempty.
    rewrite E. discriminate.
Qed.

(** One pass of the loop body.  It throws exactly when the discovery run
    throws, that is, when the context does not resolve; then no assessment
    is written.  Otherwise one assessment row for this website is
    appended. *)
Lemma refreshWebsite_run (P : Providers) (website : Website) (s : Store) :
  match resolve (w_id website) s with
  | Ok _ =>
      exists s' assessment,
        refreshWebsite P website s = (Ok tt, s')
        /\ threat_assessments s' = threat_assessments s ++ [assessment]
        /\ ta_website_id assessment = w_id website
  | Throw message =>
      exists s',
        refreshWebsite P website s = (Throw message, s')
        /\ threat_assessments s' = threat_assessments s
  end.
Proof.
  pose proof (DiscoverySpec.discover_run P (w_id website) s) as H.
  cbv zeta in H.
  destruct (resolve (w_id website) s) as [businessContext | message].
  - destruct H as (rows & H & _).
    set (s1 := after s rows _ _) in H.
    destruct (calculateThreatScore_total (w_id website) s1)
      as (threatData & Hcalc).
    unfold refreshWebsite, bind. rewrite H, Hcalc.
    unfold insert_threat_assessment, touch_website, bind, fresh_uuid, now.
    do 2 eexists. split; [ reflexivity |].
    split; reflexivity.
  - unfold refreshWebsite, bind. rewrite H.
    eexists. split; reflexivity.
Qed.

(** The loop, from any counters and any store: it returns, every website
    adds one to exactly one counter, and the assessments appended are, in
    order, those of the websites whose refresh returned. *)
Lemma refreshAll_run (P : Providers) (websites : list Website)
  (successCount errorCount : nat) (s : Store) :
  let outs := outcomes P websites s in
  exists s' assessed,
    refreshAll P websites successCount errorCount s
    = (Ok ((successCount + List.length (filter refreshed outs))%nat,
           (errorCount + List.length (filter thrown outs))%nat), s')
    /\ threat_assessments s' = threat_assessments s ++ assessed
    /\ map ta_website_id assessed
       = map (fun o => w_id (fst o)) (filter refreshed outs).
Proof.
  revert successCount errorCount s.
  induction websites as [| website rest IH]; intros successCount errorCount s;
    cbn [outcomes refreshAll].
  - exists s, []. cbn [filter List.length map]. unfold ret.
    rewrite !Nat.add_0_r, app_nil_r. repeat split.
  - pose proof (refreshWebsite_run P website s) as Hone.
    unfold bind at 1. unfold try_catch, bind at 1.
    destruct (resolve (w_id website) s) as [businessContext | message].
    + destruct Hone as (s1 & assessment & -> & Hta & Hid).
      unfold ret at 1. cbn [fst snd].
      destruct (IH (S successCount) errorCount s1)
        as (s' & assessed & -> & Hta' & Hids).
      exists s', (assessment :: assessed).
      cbn [filter refreshed thrown snd negb List.length map fst].
      split; [ do 3 f_equal; lia |].
      split; [ rewrite Hta', Hta, <- app_assoc; reflexivity |].
      now rewrite Hid, Hids.
    + destruct Hone as (s1 & -> & Hta).
      unfold ret at 1. cbn [fst snd].
      destruct (IH successCount (S errorCount) s1)
        as (s' & assessed & -> & Hta' & Hids).
      exists s', assessed.
      cbn [filter refreshed thrown snd negb List.length map fst].
      split; [ do 3 f_equal; lia |].
      split; [ now rewrite Hta', Hta | exact Hids ].
Qed.

Lemma outcomes_partition (outs : list (Website * bool)) :
  (List.length (filter refreshed outs) + List.length (filter thrown outs)
   = List.length outs)%nat.
Proof.
  induction outs as [| [w [|]] rest IH];
    cbn [filter refreshed thrown snd negb List.length]; lia.
Qed.

Lemma outcomes_length (P : Providers) (websites : list Website) (s : Store) :
  List.length (outcomes P websites s) = List.length websites.
Proof.
  revert s. induction websites as [| w rest IH]; intros s; cbn [outcomes].
  - reflexivity.
  - destruct (refreshWebsite P w s) as [r s1]. cbn [List.length].
    now rewrite IH.
Qed.

(** C9.  In the weekly loop a website whose refresh throws adds one to the
    error count and the loop goes on with the remaining websites in the
    store the failed refresh left; one whose refresh returns adds one to
    the success count.  The batch always returns, having gone through every
    active website: the two counts add up to their number, and the
    assessments it appended are those of the websites whose refresh
    returned, in order.  With three websites of which only the second
    throws, the counts are 2 and 1 and the new assessments belong to the
    first and the third. *)
Theorem weekly_batch_isolation (P : Providers) (s : Store) :
  let websites := active_websites s in
  let outs := outcomes P websites s in
  (forall website rest successCount errorCount s0,
      refreshAll P (website :: rest) successCount errorCount s0
      = match refreshWebsite P website s0 with
        | (Ok _, s1) => refreshAll P rest (S successCount) errorCount s1
        | (Throw _, s1) => refreshAll P rest successCount (S errorCount) s1
        end)
  /\ (exists successCount errorCount s' assessed,
        performWeeklyRefresh P s
        = (Ok (Some (successCount, errorCount)), s')
        /\ successCount = List.length (filter refreshed outs)
        /\ errorCount = List.length (filter thrown outs)
        /\ (successCount + errorCount = List.length websites)%nat
        /\ threat_assessments s' = threat_assessments s ++ assessed
        /\ map ta_website_id assessed
           = map (fun o => w_id (fst o)) (filter refreshed outs))
  /\ (exists s',
        performWeeklyRefresh Fixtures.steady Fixtures.three_sites
        = (Ok (Some (2%nat, 1%nat)), s')
        /\ map w_id (active_websites Fixtures.three_sites)
           = [1%nat; 2%nat; 3%nat]
        /\ map snd (outcomes Fixtures.steady
                      (active_websites Fixtures.three_sites)
                      Fixtures.three_sites)
           = [true; false; true]
        /\ threat_assessments Fixtures.three_sites = []
        /\ map ta_website_id (threat_assessments s') = [1%nat; 3%nat]).
Proof.
  intros websites outs. split; [ | split ].
  - intros website rest successCount errorCount s0.
    cbn [refreshAll]. unfold bind, try_catch, ret.
    destruct (refreshWebsite P website s0) as [[[] | message] s1].
    + reflexivity.
    + reflexivity.
  - destruct (refreshAll_run P websites 0 0 s)
      as (s' & assessed & Hrun & Hta & Hids).
    fold outs in Hrun, Hids. cbn [Nat.add] in Hrun.
    do 4 eexists. split.
    { unfold performWeeklyRefresh, try_catch, bind, select_active_websites.
      fold websites. rewrite Hrun. reflexivity. }
    split; [ reflexivity |]. split; [ reflexivity |].
    split; [ unfold outs;
             now rewrite outcomes_partition, outcomes_length |].
    split; [ exact Hta | exact Hids ].
  - exists (snd (performWeeklyRefresh Fixtures.steady Fixtures.three_sites)).
    repeat match goal with |- _ /\ _ => split end; vm_compute; reflexivity.
Qed.

End AutomationSpec.

(* ------------------------------------------------------------------ *)
(** * The candidate aggregator *)

Module AggregatorSpec.
Import Discovery Notions.

Section MapFacts.
Variable V : Type.

Lemma map_of_entries_snoc (l : list (string * V)) (e : string * V) :
  Js.map_of_entries (l ++ [e])
  = Js.map_set (fst e) (snd e) (Js.map_of_entries l).
Proof. unfold Js.map_of_entries. now rewrite fold_left_app. Qed.

Lemma map_set_keys (k : string) (v : V) (m : list (string * V)) :
  map fst (Js.map_set k v m)
  = if existsb (String.eqb k) (map fst m) then map fst m
    else map fst m ++ [k].
Proof.
  induction m as [| [k' v'] rest IH]; cbn [Js.map_set map existsb fst].
  - reflexivity.
  - destruct (String.eqb_spec k k') as [-> | Hne]; cbn [orb map fst].
    + reflexivity.
    + rewrite IH. now destruct (existsb _ (map fst rest)).
Qed.

Lemma existsb_eqb_in (k : string) (l : list string) :
  existsb (String.eqb k) l = true <-> In k l.
Proof.
  rewrite existsb_exists. split.
  - intros (x & Hx & E). apply String.eqb_eq in E. now subst.
  - intros H. exists k. split; [ exact H | apply String.eqb_refl ].
Qed.

Lemma map_set_nodup (k : string) (v : V) (m : list (string * V)) :
  NoDup (map fst m) -> NoDup (map fst (Js.map_set k v m)).
Proof.
  intros Hm. rewrite map_set_keys.
  destruct (existsb (String.eqb k) (map fst m)) eqn:E; [ exact Hm |].
  apply NoDup_app; [ exact Hm | repeat constructor; intros [] | ].
  intros x Hx [<- | []].
  apply existsb_eqb_in in Hx. congruence.
Qed.

Lemma in_map_set (k0 : string) (v0 : V) (m : list (string * V))
  (k : string) (v : V) :
  NoDup (map fst m) ->
  In (k, v) (Js.map_set k0 v0 m)
  <-> (k = k0 /\ v = v0) \/ (k <> k0 /\ In (k, v) m).
Proof.
  induction m as [| [k' v'] rest IH]; cbn [Js.map_set map fst]; intros Hm.
  - cbn [In]. split.
    + intros [[= <- <-] | []]. now left.
    + intros [[-> ->] | [_ []]]. now left.
  - apply NoDup_cons_iff in Hm. destruct Hm as [Hk' Hrest].
    destruct (String.eqb_spec k0 k') as [-> | Hne]; cbn [In].
    + split.
      * intros [[= <- <-] | Hin]; [ now left |].
        right. split; [ | now right ].
        intros ->. apply Hk'. apply in_map_iff. now exists (k', v).
      * intros [[-> ->] | [Hk [[= <- <-] | Hin]]];
          [ now left | contradiction | now right ].
    + rewrite IH by exact Hrest. split.
      * intros [[= <- <-] | [[-> ->] | [Hk Hin]]].
        -- right. split; [ congruence | now left ].
        -- now left.
        -- right. split; [ exact Hk | now right ].
      * intros [[-> ->] | [Hk [[= <- <-] | Hin]]].
        -- right. now left.
        -- now left.
        -- right. right. now split.
Qed.

(** The map built from a list of entries: one entry per key, holding the
    value of the last entry with that key. *)
Lemma map_of_entries_spec (l : list (string * V)) :
  NoDup (map fst (Js.map_of_entries l))
  /\ forall k v,
       In (k, v) (Js.map_of_entries l)
       <-> find (fun e => String.eqb (fst e) k) (rev l) = Some (k, v).
Proof.
  induction l as [| e l [IHn IHf]] using rev_ind.
  - split; [ constructor |]. intros k v. cbn. split; [ intros [] | discriminate ].
  - rewrite map_of_entries_snoc. split; [ now apply map_set_nodup |].
    intros k v. rewrite in_map_set by exact IHn. rewrite rev_app_distr.
    cbn [rev app find]. destruct e as [k0 v0]. cbn [fst snd].
    destruct (String.eqb_spec k0 k) as [-> | Hne].
    + split.
      * intros [[_ ->] | [Hk _]]; [ reflexivity | contradiction ].
      * intros [= <-]. now left.
    + rewrite <- IHf. split.
      * intros [[-> _] | [_ Hin]]; [ contradiction | exact Hin ].
      * intros Hin. right. split; [ congruence | exact Hin ].
Qed.

End MapFacts.

Lemma find_map_entries (u : string) (l : list Candidate) :
  find (fun e => String.eqb (fst e) u) (map (fun c => (cand_url c, c)) l)
  = option_map (fun c => (cand_url c, c))
               (find (fun c => String.eqb (cand_url c) u) l).
Proof.
  induction l as [| c rest IH]; cbn [map find fst option_map].
  - reflexivity.
  - destruct (String.eqb (cand_url c) u); [ reflexivity | exact IH ].
Qed.

Lemma last_by_url_some (u : string) (l : list Candidate) (c : Candidate) :
  last_by_url u l = Some c -> cand_url c = u /\ In c l.
Proof.
  unfold last_by_url. intros H. apply find_some in H. destruct H as [Hin E].
  apply String.eqb_eq in E. split; [ exact E | now apply in_rev ].
Qed.

Lemma in_aggregate (l : list Candidate) (k : string) (c : Candidate) :
  In (k, c) (Js.map_of_entries (map (fun c => (cand_url c, c)) l))
  <-> last_by_url k l = Some c.
Proof.
  rewrite (proj2 (map_of_entries_spec _)), <- map_rev, find_map_entries.
  unfold last_by_url.
  destruct (find _ (rev l)) as [c' |] eqn:E; cbn [option_map].
  - apply find_some in E. destruct E as [_ E]. apply String.eqb_eq in E.
    split; [ now intros [= _ ->] | intros [= ->]; now rewrite E ].
  - split; discriminate.
Qed.

Lemma map_set_new {V} (k : string) (v : V) (m : list (string * V)) :
  ~ In k (map fst m) -> Js.map_set k v m = m ++ [(k, v)].
Proof.
  induction m as [| [k' v'] rest IH]; cbn [Js.map_set map fst app];
    intros Hk.
  - reflexivity.
  - destruct (String.eqb_spec k k') as [-> | Hne].
    + exfalso. apply Hk. now left.
    + rewrite IH; [ reflexivity |]. intros Hin. apply Hk. now right.
Qed.

Lemma map_of_entries_distinct {V} (l : list (string * V)) :
  NoDup (map fst l) -> Js.map_of_entries l = l.
Proof.
  induction l as [| e l IH] using rev_ind; intros Hl.
  - reflexivity.
  - rewrite map_app in Hl. cbn [map] in Hl.
    apply NoDup_remove in Hl. rewrite app_nil_r in Hl.
    destruct Hl as [Hl He].
    rewrite map_of_entries_snoc, (IH Hl).
    destruct e as [k v]. now apply map_set_new.
Qed.

Lemma aggregate_keys (l : list Candidate) :
  map cand_url (aggregate l)
  = map fst (Js.map_of_entries (map (fun c => (cand_url c, c)) l)).
Proof.
  unfold aggregate, Js.map_values. rewrite map_map.
  apply map_ext_in. intros [k c] Hin. cbn [fst snd].
  apply in_aggregate, last_by_url_some in Hin. apply Hin.
Qed.

(** X1.  The aggregator keeps one candidate per URL: the URLs of its output
    are pairwise distinct and are exactly the URLs of its input, the
    candidate kept for a URL is the last input candidate with that URL, the
    output is never longer than the input, and an input without repeated
    URLs comes back unchanged.  It is the step [discoverCompetitors]
    applies to the three agents' results. *)
Theorem aggregate_dedup (l : list Candidate) :
  let unique := aggregate l in
  NoDup (map cand_url unique)
  /\ (forall c, In c unique <-> last_by_url (cand_url c) l = Some c)
  /\ (forall u, In u (map cand_url unique) <-> In u (map cand_url l))
  /\ (List.length unique <= List.length l)%nat
  /\ (NoDup (map cand_url l) -> unique = l)
  /\ (forall P businessContext,
        Run.uniqueCandidates P businessContext
        = let '(query1, query2, query3) := searchQueries businessContext in
          aggregate (Run.agentResults P 1 businessContext query1
                     ++ Run.agentResults P 2 businessContext query2
                     ++ Run.agentResults P 3 businessContext query3)).
Proof.
  intros unique.
  assert (Hmem : forall c,
             In c unique <-> last_by_url (cand_url c) l = Some c).
  { intros c. unfold unique, aggregate, Js.map_values. split.
    - intros Hin. apply in_map_iff in Hin.
      destruct Hin as ([k c'] & E & Hin). cbn [snd] in E. subst c'.
      apply in_aggregate in Hin.
      destruct (last_by_url_some _ _ Hin) as [-> _]. exact Hin.
    - intros H. apply in_map_iff. exists (cand_url c, c).
      split; [ reflexivity | now apply in_aggregate ]. }
  assert (Hurls : forall u,
             In u (map cand_url unique) <-> In u (map cand_url l)).
  { intros u. rewrite !in_map_iff. split.
    - intros (c & <- & Hc). apply Hmem, last_by_url_some in Hc.
      exists c. split; [ reflexivity | apply Hc ].
    - intros (c & <- & Hc).
      destruct (last_by_url (cand_url c) l) as [c' |] eqn:E.
      + destruct (last_by_url_some _ _ E) as [Hu _].
        exists c'. split; [ exact Hu |]. apply Hmem. now rewrite Hu.
      + exfalso. unfold last_by_url in E.
        apply in_rev in Hc.
        pose proof (find_none _ _ E c Hc) as Hne. cbn beta in Hne.
        rewrite String.eqb_refl in Hne. discriminate Hne. }
  assert (Hnodup : NoDup (map cand_url unique)).
  { unfold unique. rewrite aggregate_keys.
    apply (proj1 (map_of_entries_spec _)). }
  split; [ exact Hnodup |]. split; [ exact Hmem |].
  split; [ exact Hurls |]. split; [ | split ].
  - rewrite <- (length_map cand_url unique), <- (length_map cand_url l).
    apply NoDup_incl_length; [ exact Hnodup |].
    intros u. apply Hurls.
  - intros Hl. unfold unique, aggregate, Js.map_values.
    rewrite map_of_entries_distinct.
    + rewrite map_map. cbn [snd]. apply map_id.
    + rewrite map_map. cbn [fst]. exact Hl.
  - intros P businessContext. unfold Run.uniqueCandidates.
    now destruct (searchQueries businessContext) as [[q1 q2] q3].
Qed.

End AggregatorSpec.

(* ------------------------------------------------------------------ *)
(** * Further properties of the discovery service *)

Module DiscoveryMore.
Import Discovery Run Notions.

Lemma resolve_unfold (websiteId : Id) (s : Store) :
  resolve websiteId s
  = match find (fun w => Nat.eqb (w_id w) websiteId) (websites s) with
    | None => Throw "Website not found"%string
    | Some w =>
        let taxonomy :=
          find (fun bt => String.eqb (w_business_type w) (bt_type_name bt))
               (business_types s) in
        match parsed (joined taxonomy bt_keywords) with
        | Throw message => Throw message
        | Ok keywords =>
            match parsed (joined taxonomy bt_typical_competitors) with
            | Throw message => Throw message
            | Ok typical =>
                Ok {| business_name := w_business_name w;
                      business_type := w_business_type w;
                      location := w_location w;
                      website_url := w_website_url w;
                      ctx_keywords := keywords;
                      typical_competitors := typical |}
            end
        end
    end.
Proof.
  unfold resolve, extractBusinessContext, try_catch, bind, select_website,
    lift, ret, throw, parsed.
  destruct (find _ (websites s)) as [w |]; [ | reflexivity ].
  cbv zeta.
  destruct (joined _ bt_keywords) as [[k | m] |]; cbn [JSON_parse];
    try reflexivity;
    destruct (joined _ bt_typical_competitors) as [[t | m'] |];
    reflexivity.
Qed.

(** X2.  Context resolution writes nothing.  It throws "Website not found"
    when no website row has the identifier.  When a row has it, a missing
    taxonomy row gives empty keyword and competitor hints, a context that
    is returned copies name, type, location and URL from the website row,
    and the only other failure is a taxonomy column that does not parse,
    reported with the parser's message. *)
Theorem context_resolution_cases (websiteId : Id) (s : Store) :
  let found := find (fun w => Nat.eqb (w_id w) websiteId) (websites s) in
  extractBusinessContext websiteId s = (resolve websiteId s, s)
  /\ (found = None ->
      resolve websiteId s = Throw "Website not found"%string)
  /\ (forall w,
        found = Some w ->
        let taxonomy :=
          find (fun bt => String.eqb (w_business_type w) (bt_type_name bt))
               (business_types s) in
        (taxonomy = None ->
         resolve websiteId s
         = Ok {| business_name := w_business_name w;
                 business_type := w_business_type w;
                 location := w_location w;
                 website_url := w_website_url w;
                 ctx_keywords := [];
                 typical_competitors := [] |})
        /\ (forall businessContext,
              resolve websiteId s = Ok businessContext ->
              business_name businessContext = w_business_name w
              /\ business_type businessContext = w_business_type w
              /\ location businessContext = w_location w
              /\ website_url businessContext = w_website_url w)
        /\ (forall message,
              resolve websiteId s = Throw message ->
              exists bt,
                taxonomy = Some bt
                /\ (bt_keywords bt = Some (JsonUnparsable message)
                    \/ bt_typical_competitors bt
                       = Some (JsonUnparsable message)))).
Proof.
  intros found. split; [ apply DiscoverySpec.extract_pure |].
  rewrite (resolve_unfold websiteId s). fold found.
  destruct found as [w |].
  - split; [ discriminate |]. intros w' [= <-] taxonomy. subst taxonomy.
    cbv zeta.
    destruct (find _ (business_types s)) as [bt |]; cbn [joined parsed].
    + split; [ discriminate |].
      destruct (bt_keywords bt) as [[k | m] |] eqn:Ek; cbn [JSON_parse];
        destruct (bt_typical_competitors bt) as [[t | m'] |] eqn:Et;
        cbn [JSON_parse];
        (split;
         [ intros ctx E;
           first [ discriminate E | injection E as <-; repeat split ]
         | intros message E;
           first [ discriminate E
                 | injection E as <-; exists bt; split; [ reflexivity |];
                   first [ left; exact Ek | right; exact Et ] ] ]).
    + split; [ reflexivity |].
      split; [ intros ctx [= <-]; repeat split | discriminate ].
  - split; [ reflexivity |]. discriminate.
Qed.





Lemma started_desc_total (a b : DiscoveryJob) :
  started_desc a b = false -> started_desc b a = true.
Proof.
  unfold started_desc.
  destruct (j_started_at a), (j_started_at b); try reflexivity;
    try discriminate.
  intros H. apply Nat.leb_gt in H. apply Nat.leb_le. lia.
Qed.

Lemma started_desc_trans (a b c : DiscoveryJob) :
  started_desc a b = true -> started_desc b c = true ->
  started_desc a c = true.
Proof.
  unfold started_desc.
  destruct (j_started_at a), (j_started_at b), (j_started_at c);
    try reflexivity; try discriminate.
  rewrite !Nat.leb_le. lia.
Qed.

(** The first entry of a sorted array comes before every entry. *)
Lemma sort_head {A} (before : A -> A -> bool) (l : list A) :
  (forall a b, before a b = false -> before b a = true) ->
  (forall a b c, before a b = true -> before b c = true ->
                 before a c = true) ->
  match Js.sort before l with
  | [] => l = []
  | first :: _ => In first l /\ forall x, In x l -> before first x = true
  end.
Proof.
  intros Htotal Htrans.
  pose proof (JsFacts.sort_permutation before l) as Hperm.
  pose proof (JsFacts.sort_sorted before Htotal Htrans l) as Hsorted.
  destruct (Js.sort before l) as [| first rest].
  - now apply Permutation_nil in Hperm.
  - split; [ eapply Permutation_in; [ exact Hperm | now left ] |].
    intros x Hx. apply Permutation_sym in Hperm.
    apply (Permutation_in _ Hperm) in Hx.
    apply StronglySorted_inv in Hsorted. destruct Hsorted as [_ Hfirst].
    destruct Hx as [<- | Hx].
    + destruct (before first first) eqn:E; [ reflexivity |].
      pose proof (Htotal _ _ E) as E'. congruence.
    + rewrite Forall_forall in Hfirst. now apply Hfirst.
Qed.

(** X4.  The status lookup writes nothing and always returns.  It returns
    no job exactly when the website has none; otherwise it returns a job of
    that website from the table such that no job of the website started
    later (a job without a start time counts as the earliest). *)
Theorem discovery_status_latest (websiteId : Id) (s : Store) :
  exists found,
    getDiscoveryStatus websiteId s = (Ok found, s)
    /\ (found = None <->
        forall j, In j (jobs s) -> j_website_id j <> websiteId)
    /\ (forall j,
          found = Some j ->
          In j (jobs s)
          /\ j_website_id j = websiteId
          /\ forall j', In j' (jobs s) -> j_website_id j' = websiteId ->
               match j_started_at j' with
               | None => True
               | Some t' =>
                   exists t, j_started_at j = Some t /\ (t' <= t)%nat
               end).
Proof.
  unfold getDiscoveryStatus.
  set (mine := filter (fun j => Nat.eqb (j_website_id j) websiteId)
                      (jobs s)).
  pose proof (sort_head started_desc mine started_desc_total
                started_desc_trans) as Hhead.
  eexists. split; [ reflexivity |].
  assert (Hmine : forall j, In j mine
                            <-> In j (jobs s) /\ j_website_id j = websiteId).
  { intros j. unfold mine. rewrite filter_In, Nat.eqb_eq. reflexivity. }
  destruct (Js.sort started_desc mine) as [| first rest]; cbn [hd_error].
  - split.
    + split; [ | reflexivity ]. intros _ j Hj Hw.
      assert (Hin : In j mine) by now apply Hmine.
      rewrite Hhead in Hin. destruct Hin.
    + discriminate.
  - destruct Hhead as [Hin Hbefore]. apply Hmine in Hin.
    split.
    + split; [ discriminate |]. intros H. exfalso.
      exact (H first (proj1 Hin) (proj2 Hin)).
    + intros j [= <-]. split; [ apply Hin |]. split; [ apply Hin |].
      intros j' Hj' Hw'. specialize (Hbefore j' (proj2 (Hmine j')
                                                   (conj Hj' Hw'))).
      unfold started_desc in Hbefore.
      destruct (j_started_at j') as [t' |]; [ | exact I ].
      destruct (j_started_at first) as [t |]; [ | discriminate ].
      exists t. split; [ reflexivity | now apply Nat.leb_le ].
Qed.






Lemma stored_rows_ids (id websiteId : Id) (t : Timestamp)
  (l : list ScoredCompetitor) :
  map c_id (stored_rows id websiteId t l) = seq id (List.length l).
Proof.
  revert id. induction l as [| c rest IH]; intros id;
    cbn [stored_rows map List.length seq]; [ reflexivity |].
  now rewrite IH.
Qed.


Lemma job_update_ids (f : DiscoveryJob -> DiscoveryJob)
  (l : list DiscoveryJob) :
  (forall j, j_id (f j) = j_id j) -> map j_id (map f l) = map j_id l.
Proof. intros Hf. rewrite map_map. now apply map_ext. Qed.

(** What any run does to the key columns of the jobs table: the earlier
    identifiers stay, in place, and the identifier of the new job follows. *)
Lemma run_job_ids (P : Providers) (websiteId : Id) (s : Store) :
  map j_id (jobs (snd (discoverCompetitors P websiteId s)))
  = map j_id (jobs s) ++ [next_uuid s]
  /\ map j_website_id (jobs (snd (discoverCompetitors P websiteId s)))
     = map j_website_id (jobs s) ++ [websiteId].
Proof.
  pose proof (DiscoverySpec.discover_run P websiteId s) as Hrun.
  cbv zeta in Hrun.
  destruct (resolve websiteId s) as [businessContext | message].
  - destruct Hrun as (rows & -> & _). cbn [snd jobs after].
    rewrite !map_map, !map_app. cbn [map new_job j_id j_website_id].
    split;
      (f_equal;
       [ apply map_ext; intros j;
         now destruct (Nat.eqb (j_id j) (next_uuid s))
       | now destruct (Nat.eqb (next_uuid s) (next_uuid s)) ]).
  - rewrite Hrun. cbn [snd jobs after].
    rewrite !map_map, !map_app. cbn [map new_job j_id j_website_id].
    split;
      (f_equal;
       [ apply map_ext; intros j;
         now destruct (Nat.eqb (j_website_id j) websiteId)
       | now destruct (Nat.eqb websiteId websiteId) ]).
Qed.

Lemma stored_rows_live (id websiteId : Id) (t : Timestamp)
  (l : list ScoredCompetitor) :
  Forall (fun c => c_website_id c = websiteId /\ c_deleted_at c = None)
         (stored_rows id websiteId t l).
Proof.
  revert id. induction l as [| c rest IH]; intros id; cbn [stored_rows];
    constructor; [ now split | apply IH ].
Qed.

(** What any run does to the other tables and to the counter. *)
Lemma run_frame (P : Providers) (websiteId : Id) (s : Store) :
  let s' := snd (discoverCompetitors P websiteId s) in
  websites s' = websites s
  /\ business_types s' = business_types s
  /\ keywords s' = keywords s
  /\ threat_assessments s' = threat_assessments s
  /\ clock s' = clock s
  /\ (next_uuid s < next_uuid s')%nat
  /\ (ids_fresh s ->
      exists rows,
        competitors s' = competitors s ++ rows
        /\ Forall (fun c => (next_uuid s < c_id c < next_uuid s')%nat
                            /\ c_website_id c = websiteId
                            /\ c_deleted_at c = None) rows
        /\ NoDup (map c_id rows)).
Proof.
  pose proof (DiscoverySpec.discover_run P websiteId s) as Hrun.
  cbv zeta in Hrun. cbv zeta.
  destruct (resolve websiteId s) as [businessContext | message].
  - destruct Hrun as (rows & -> & Hrows). cbn [snd].
    cbn [websites business_types keywords threat_assessments clock
         next_uuid competitors after].
    repeat split; try lia.
    intros Hfresh. specialize (Hrows Hfresh). eexists.
    split; [ exact Hrows |]. split.
    + pose proof (DiscoverySpec.stored_rows_fresh (S (next_uuid s))
                    websiteId (clock s)
                    (competitorsWithScores P businessContext)) as Hids.
      pose proof (stored_rows_live (S (next_uuid s)) websiteId (clock s)
                    (competitorsWithScores P businessContext)) as Hlive.
      apply Forall_forall. intros c Hc.
      rewrite Forall_forall in Hids, Hlive.
      specialize (Hids c Hc). specialize (Hlive c Hc).
      split; [ lia | exact Hlive ].
    + rewrite stored_rows_ids. apply seq_NoDup.
  - rewrite Hrun. cbn [snd].
    cbn [websites business_types keywords threat_assessments clock
         next_uuid competitors after].
    repeat split; try lia.
    intros _. exists []. rewrite app_nil_r.
    repeat split; constructor.
Qed.





(** The calculator's result depends on the store only through the scores
    of the live competitor rows and the number of keywords. *)
Lemma calculate_congruence (websiteId : Id) (s s' : Store) :
  ThreatScoring.competitor_scores websiteId s
  = ThreatScoring.competitor_scores websiteId s' ->
  ThreatScoring.keyword_count websiteId s
  = ThreatScoring.keyword_count websiteId s' ->
  fst (ThreatScoring.calculateThreatScore websiteId s)
  = fst (ThreatScoring.calculateThreatScore websiteId s').
Proof.
  intros Hscores Hkw.
  destruct (ThreatScoring.competitor_scores websiteId s) eqn:E.
  - rewrite !ThreatScoringSpec.calculate_empty by congruence. reflexivity.
  - rewrite !ThreatScoringSpec.calculate_nonempty by congruence.
    cbn [fst]. now rewrite <- Hscores, E, Hkw.
Qed.

Lemma calculate_count (websiteId : Id) (s : Store) :
  exists r,
    ThreatScoring.calculateThreatScore websiteId s = (Ok r, s)
    /\ ThreatScoring.competitor_count r
       = Z.of_nat (List.length
                     (filter (live websiteId) (competitors s))).
Proof.
  assert (Hlen : List.length (ThreatScoring.competitor_scores websiteId s)
                 = List.length (filter (live websiteId) (competitors s))).
  { unfold ThreatScoring.competitor_scores.
    now rewrite JsFacts.sort_length, length_map. }
  destruct (ThreatScoring.competitor_scores websiteId s) eqn:E.
  - eexists. split; [ now apply ThreatScoringSpec.calculate_empty |].
    cbn [ThreatScoring.competitor_count]. now rewrite <- Hlen.
  - eexists. split.
    + apply ThreatScoringSpec.calculate_nonempty. rewrite E. discriminate.
    + cbn [ThreatScoring.competitor_count]. now rewrite <- Hlen, E.
Qed.

(** X9.  Discovery for one website never changes the threat score of
    another: after any run on a store with fresh identifiers the
    calculator returns for every other website what it returned before.
    For the website of the run, the competitor count the calculator
    reports grows by the number of rows the run appended. *)
Theorem discovery_moves_only_its_website (P : Providers) (websiteId : Id)
  (s : Store) (Hfresh : ids_fresh s) :
  let s' := snd (discoverCompetitors P websiteId s) in
  (forall other,
      other <> websiteId ->
      fst (ThreatScoring.calculateThreatScore other s')
      = fst (ThreatScoring.calculateThreatScore other s))
  /\ exists before after_run rows,
       ThreatScoring.calculateThreatScore websiteId s = (Ok before, s)
       /\ ThreatScoring.calculateThreatScore websiteId s'
          = (Ok after_run, s')
       /\ competitors s' = competitors s ++ rows
       /\ ThreatScoring.competitor_count after_run
          = ThreatScoring.competitor_count before
            + Z.of_nat (List.length rows).
Proof.
  destruct (run_frame P websiteId s)
    as (_ & _ & Hk & _ & _ & _ & Hrows).
  destruct (Hrows Hfresh) as (rows & Erows & Hnew & _).
  cbv zeta. split.
  - intros other Hother. apply calculate_congruence.
    + unfold ThreatScoring.competitor_scores. rewrite Erows, filter_app.
      replace (filter _ rows) with (@nil Competitor);
        [ now rewrite app_nil_r |].
      symmetry. clear Erows.
      induction Hnew as [| c rest (_ & Hw & _) _ IH]; [ reflexivity |].
      cbn [filter]. rewrite Hw.
      destruct (Nat.eqb_spec websiteId other); [ congruence | exact IH ].
    + unfold ThreatScoring.keyword_count. now rewrite Hk.
  - destruct (calculate_count websiteId s) as (r & Hr & Hcount).
    destruct (calculate_count websiteId
                (snd (discoverCompetitors P websiteId s)))
      as (r' & Hr' & Hcount').
    exists r, r', rows. split; [ exact Hr |]. split; [ exact Hr' |].
    split; [ exact Erows |].
    rewrite Hcount', Hcount, Erows, filter_app, length_app.
    replace (filter (live websiteId) rows) with rows; [ lia |].
    clear Erows.
    induction Hnew as [| c rest (_ & Hw & Hd) _ IH]; [ reflexivity |].
    cbn [filter]. unfold live at 1. rewrite Hw, Hd, Nat.eqb_refl.
    cbn [andb ThreatScoring.is_null]. now rewrite <- IH.
Qed.

Lemma discovery_moves_only_its_website_witness :
  ids_fresh Fixtures.three_sites
  /\ fst (ThreatScoring.calculateThreatScore 3%nat
            (snd (discoverCompetitors Fixtures.steady 1%nat
                    Fixtures.three_sites)))
     = fst (ThreatScoring.calculateThreatScore 3%nat Fixtures.three_sites).
Proof.
  assert (H : ids_fresh Fixtures.three_sites) by constructor.
  split; [ exact H |].
  apply (proj1 (discovery_moves_only_its_website Fixtures.steady 1%nat H)).
  discriminate.
Defined.

End DiscoveryMore.

(* ------------------------------------------------------------------ *)
(** * Further properties of the weekly batch *)

Module AutomationMore.
Import Discovery Run Notions Automation.

Lemma refreshWebsite_jobs (P : Providers) (website : Website) (s : Store) :
  jobs (snd (refreshWebsite P website s))
  = jobs (snd (discoverCompetitors P (w_id website) s)).
Proof.
  unfold refreshWebsite. unfold bind at 1.
  destruct (discoverCompetitors P (w_id website) s) as [[found | message] s1];
    cbn [snd]; [ | reflexivity ].
  destruct (AutomationSpec.calculateThreatScore_total (w_id website) s1)
    as (threatData & Hcalc).
  unfold bind at 1. rewrite Hcalc. reflexivity.
Qed.

Lemma refreshAll_jobs (P : Providers) (websites : list Website)
  (successCount errorCount : nat) (s : Store) :
  map j_website_id
      (jobs (snd (refreshAll P websites successCount errorCount s)))
  = map j_website_id (jobs s) ++ map w_id websites.
Proof.
  revert successCount errorCount s.
  induction websites as [| website rest IH]; intros successCount errorCount s;
    cbn [refreshAll map].
  - unfold ret. cbn [snd]. now rewrite app_nil_r.
  - pose proof (refreshWebsite_jobs P website s) as Hjobs.
    pose proof (proj2 (DiscoveryMore.run_job_ids P (w_id website) s)) as Hids.
    rewrite <- Hjobs in Hids.
    unfold bind at 1. unfold try_catch, bind at 1.
    destruct (refreshWebsite P website s) as [[[] | message] s1];
      cbn [snd] in Hids; unfold ret at 1; cbn [fst snd];
      rewrite IH, Hids, <- app_assoc; reflexivity.
Qed.

Lemma outcomes_websites (P : Providers) (websites : list Website)
  (s : Store) :
  map fst (outcomes P websites s) = websites.
Proof.
  revert s. induction websites as [| w rest IH]; intros s; cbn [outcomes].
  - reflexivity.
  - destruct (refreshWebsite P w s) as [r s1]. cbn [map fst].
    now rewrite IH.
Qed.

Lemma updated_asc_total (a b : Website) :
  updated_asc a b = false -> updated_asc b a = true.
Proof.
  unfold updated_asc. intros H. apply Nat.leb_gt in H.
  apply Nat.leb_le. lia.
Qed.

Lemma updated_asc_trans (a b c : Website) :
  updated_asc a b = true -> updated_asc b c = true ->
  updated_asc a c = true.
Proof. unfold updated_asc. rewrite !Nat.leb_le. lia. Qed.

Lemma sorted_weaken {A} (R R' : A -> A -> Prop) (l : list A) :
  (forall a b, R a b -> R' a b) ->
  StronglySorted R l -> StronglySorted R' l.
Proof.
  intros Himpl. induction 1 as [| a l _ IH Ha]; constructor;
    [ exact IH |].
  eapply Forall_impl; [ | exact Ha ]. intros b. apply Himpl.
Qed.

(** X10.  The weekly batch works on the websites that are not soft-deleted
    and have status active, and on no other: taken least recently updated
    first, each of them gets exactly one new discovery job, in that order,
    no job is created for any other website, and every assessment the
    batch appends belongs to one of them. *)
Theorem weekly_refresh_covers_active (P : Providers) (s : Store) :
  let active := active_websites s in
  exists counts s' assessed,
    performWeeklyRefresh P s = (Ok (Some counts), s')
    /\ Permutation active
         (filter (fun w => ThreatScoring.is_null (w_deleted_at w)
                           && String.eqb (w_status w) "active")
                 (websites s))
    /\ StronglySorted (fun a b => (w_updated_at a <= w_updated_at b)%nat)
                      active
    /\ map j_website_id (jobs s')
       = map j_website_id (jobs s) ++ map w_id active
    /\ threat_assessments s' = threat_assessments s ++ assessed
    /\ Forall (fun ta => In (ta_website_id ta) (map w_id active)) assessed.
Proof.
  intros active.
  destruct (AutomationSpec.refreshAll_run P active 0 0 s)
    as (s' & assessed & Hrun & Hta & Hids).
  pose proof (refreshAll_jobs P active 0 0 s) as Hjobs.
  rewrite Hrun in Hjobs. cbn [snd] in Hjobs.
  exists (List.length (filter refreshed (outcomes P active s)),
          List.length (filter thrown (outcomes P active s))), s', assessed.
  split.
  { unfold performWeeklyRefresh, try_catch, bind, select_active_websites.
    fold active. rewrite Hrun. reflexivity. }
  split; [ apply JsFacts.sort_permutation |].
  split.
  { pose proof (JsFacts.sort_sorted updated_asc updated_asc_total
                  updated_asc_trans
                  (filter (fun w => ThreatScoring.is_null (w_deleted_at w)
                                    && String.eqb (w_status w) "active")
                          (websites s))) as Hsorted.
    fold (active_websites s) in Hsorted. fold active in Hsorted.
    eapply sorted_weaken; [ | exact Hsorted ].
    cbn beta. intros a b Hab. now apply Nat.leb_le. }
  split; [ exact Hjobs |]. split; [ exact Hta |].
  apply Forall_forall. intros ta Hin.
  assert (Hid : In (ta_website_id ta) (map ta_website_id assessed))
    by now apply in_map.
  rewrite Hids in Hid. apply in_map_iff in Hid.
  destruct Hid as (o & <- & Ho). apply filter_In in Ho.
  apply in_map. rewrite <- (outcomes_websites P active s).
  apply in_map. apply Ho.
Qed.

End AutomationMore.

(* ------------------------------------------------------------------ *)
(** * Properties of the reporting functions *)

Module ReportingSpec.
Import ThreatScoring ThreatReporting Notions.

Lemma score_desc_not_below (a b : option Z) :
  score_desc a b = true <-> not_below a b.
Proof.
  unfold score_desc, not_below. destruct a as [x |], b as [y |].
  - rewrite Z.leb_le. split.
    + intros H. exists x. now split.
    + intros (x' & [= <-] & H). exact H.
  - tauto.
  - split; [ discriminate | intros (x & E & _); discriminate E ].
  - tauto.
Qed.

Lemma row_score_desc_total (a b : Competitor) :
  row_score_desc a b = false -> row_score_desc b a = true.
Proof.
  unfold row_score_desc, score_desc.
  destruct (c_threat_score a), (c_threat_score b); try reflexivity;
    try discriminate.
  intros H. apply Z.leb_gt in H. apply Z.leb_le. lia.
Qed.

Lemma row_score_desc_trans (a b c : Competitor) :
  row_score_desc a b = true -> row_score_desc b c = true ->
  row_score_desc a c = true.
Proof.
  unfold row_score_desc, score_desc.
  destruct (c_threat_score a), (c_threat_score b), (c_threat_score c);
    try reflexivity; try discriminate.
  rewrite !Z.leb_le. lia.
Qed.

Lemma with_rank_rows (index : Z) (l : list Competitor) :
  Forall2 (fun c r =>
             rc_id r = c_id c
             /\ rc_competitor_name r = c_competitor_name c
             /\ rc_competitor_url r = c_competitor_url c
             /\ rc_threat_level r = c_threat_level c
             /\ rc_threat_score r = c_threat_score c
             /\ rc_confidence r = c_confidence c)
          l (with_rank index l).
Proof.
  revert index. induction l as [| c rest IH]; intros index; cbn [with_rank];
    constructor; [ repeat split | apply IH ].
Qed.

Lemma with_rank_nth (index : Z) (l : list Competitor) (k : nat)
  (r : RankedCompetitor) :
  nth_error (with_rank index l) k = Some r ->
  rank r = index + Z.of_nat k + 1.
Proof.
  revert index k. induction l as [| c rest IH]; intros index k;
    cbn [with_rank].
  - destruct k; discriminate.
  - destruct k as [| k]; cbn [nth_error].
    + intros [= <-]. cbn [rank]. lia.
    + intros H. rewrite (IH _ _ H). lia.
Qed.

(** X11.  The ranking query writes nothing and always returns.  It lists
    live competitor rows of the website only, ten at most and all of them
    when there are fewer; the entry at position k, from 0, has rank k + 1;
    entries are in descending order of threat score with NULL scores last;
    and no live row left out would have ranked above a row listed. *)
Theorem ranking_top_ten (websiteId : Id) (s : Store) :
  let liveRows := filter (live websiteId) (competitors s) in
  exists ranking selected cut,
    rankCompetitorsByThreat websiteId s = (Ok ranking, s)
    /\ List.length ranking = Nat.min 10 (List.length liveRows)
    /\ (forall k r, nth_error ranking k = Some r ->
                    rank r = Z.of_nat k + 1)
    /\ Forall2 (fun c r =>
                  rc_id r = c_id c
                  /\ rc_competitor_name r = c_competitor_name c
                  /\ rc_competitor_url r = c_competitor_url c
                  /\ rc_threat_level r = c_threat_level c
                  /\ rc_threat_score r = c_threat_score c
                  /\ rc_confidence r = c_confidence c)
               selected ranking
    /\ Permutation liveRows (selected ++ cut)
    /\ StronglySorted
         (fun a b => not_below (c_threat_score a) (c_threat_score b))
         selected
    /\ (forall a b, In a selected -> In b cut ->
                    not_below (c_threat_score a) (c_threat_score b)).
Proof.
  intros liveRows.
  destruct (JsFacts.sort_top row_score_desc row_score_desc_total
              row_score_desc_trans 10 liveRows) as (Hsorted & Hperm & Htop).
  exists (with_rank 0 (select_ranking websiteId s)),
         (select_ranking websiteId s),
         (skipn 10 (Js.sort row_score_desc liveRows)).
  split; [ reflexivity |].
  split.
  { pose proof (with_rank_rows 0 (select_ranking websiteId s)) as H.
    apply Forall2_length in H. rewrite <- H.
    unfold select_ranking. fold (live websiteId). fold liveRows.
    now rewrite length_firstn, JsFacts.sort_length. }
  split.
  { intros k r H. rewrite (with_rank_nth _ _ _ H). lia. }
  split; [ apply with_rank_rows |].
  split; [ exact Hperm |].
  split.
  - eapply AutomationMore.sorted_weaken; [ | exact Hsorted ].
    cbn beta. intros a b H. now apply score_desc_not_below.
  - intros a b Ha Hb. apply score_desc_not_below. now apply Htop.
Qed.

Lemma level_eqb_eq (a b : ThreatLevel) : level_eqb a b = true <-> a = b.
Proof. destruct a, b; cbn; split; congruence. Qed.

Lemma level_count_sum (websiteId : Id) (s : Store) :
  (level_count websiteId CRITICAL s + level_count websiteId HIGH s
   + level_count websiteId MEDIUM s + level_count websiteId LOW s
   = List.length (filter (fun ta => Nat.eqb (ta_website_id ta) websiteId)
                         (threat_assessments s)))%nat.
Proof.
  unfold level_count.
  induction (threat_assessments s) as [| ta rest IH]; [ reflexivity |].
  cbn [filter].
  destruct (Nat.eqb (ta_website_id ta) websiteId); cbn [andb];
    [ | exact IH ].
  destruct (ta_threat_level ta); cbn [level_eqb List.length]; lia.
Qed.

Lemma level_count_positive (websiteId : Id) (l : ThreatLevel) (s : Store) :
  level_count websiteId l s <> 0%nat
  <-> exists ta, In ta (threat_assessments s)
                 /\ ta_website_id ta = websiteId
                 /\ ta_threat_level ta = l.
Proof.
  unfold level_count.
  set (p := fun ta => Nat.eqb (ta_website_id ta) websiteId
                      && level_eqb (ta_threat_level ta) l).
  split.
  - intros H. destruct (filter p (threat_assessments s)) as [| ta rest] eqn:E;
      [ contradiction |].
    assert (Hin : In ta (filter p (threat_assessments s)))
      by (rewrite E; now left).
    apply filter_In in Hin. destruct Hin as [Hin Hp].
    unfold p in Hp. apply andb_prop in Hp. destruct Hp as [Hw Hl].
    exists ta. split; [ exact Hin |].
    split; [ now apply Nat.eqb_eq | now apply level_eqb_eq ].
  - intros (ta & Hin & Hw & Hl).
    assert (Hf : In ta (filter p (threat_assessments s))).
    { apply filter_In. split; [ exact Hin |]. unfold p.
      apply andb_true_intro. split;
        [ now apply Nat.eqb_eq | now apply level_eqb_eq ]. }
    destruct (filter p (threat_assessments s)); [ destruct Hf |].
    discriminate.
Qed.

(** X12.  The distribution query writes nothing and always returns.  Its
    rows partition the assessments of the website by level: the counts add
    up to the number of assessments of the website, a level is listed
    exactly when some assessment of the website has it, with the number of
    those assessments (never 0), and the levels come in the order
    CRITICAL, HIGH, MEDIUM, LOW, each at most once. *)
Theorem distribution_partitions (websiteId : Id) (s : Store) :
  exists rows keep,
    getThreatDistribution websiteId s = (Ok rows, s)
    /\ fold_right (fun row total => snd row + total) 0 rows
       = Z.of_nat
           (List.length
              (filter (fun ta => Nat.eqb (ta_website_id ta) websiteId)
                      (threat_assessments s)))
    /\ Forall (fun row =>
                 1 <= snd row
                 /\ snd row = Z.of_nat (level_count websiteId (fst row) s))
              rows
    /\ (forall l,
          In l (map fst rows)
          <-> exists ta, In ta (threat_assessments s)
                         /\ ta_website_id ta = websiteId
                         /\ ta_threat_level ta = l)
    /\ map fst rows = filter keep [CRITICAL; HIGH; MEDIUM; LOW].
Proof.
  exists (distribution websiteId s),
         (fun l => negb (Nat.eqb (level_count websiteId l s) 0)).
  split; [ reflexivity |].
  pose proof (level_count_sum websiteId s) as Hsum.
  assert (Hpos : forall l,
             In l (map fst (distribution websiteId s))
             <-> level_count websiteId l s <> 0%nat).
  { intros l. unfold distribution. cbn [flat_map].
    destruct (level_count websiteId CRITICAL s) eqn:Ec;
      destruct (level_count websiteId HIGH s) eqn:Eh;
      destruct (level_count websiteId MEDIUM s) eqn:Em;
      destruct (level_count websiteId LOW s) eqn:El;
      cbn [app map fst In]; destruct l;
      rewrite ?Ec, ?Eh, ?Em, ?El;
      split; intros H; try discriminate; try congruence;
      repeat (destruct H as [H | H]; try discriminate H);
      try contradiction; auto. }
  split; [ | split; [ | split ] ].
  - rewrite <- Hsum. unfold distribution. cbn [flat_map].
    destruct (level_count websiteId CRITICAL s);
      destruct (level_count websiteId HIGH s);
      destruct (level_count websiteId MEDIUM s);
      destruct (level_count websiteId LOW s);
      cbn [app fold_right snd]; lia.
  - unfold distribution. cbn [flat_map].
    destruct (level_count websiteId CRITICAL s) eqn:Ec;
      destruct (level_count websiteId HIGH s) eqn:Eh;
      destruct (level_count websiteId MEDIUM s) eqn:Em;
      destruct (level_count websiteId LOW s) eqn:El;
      cbn [app]; repeat constructor; cbn [fst snd];
      rewrite ?Ec, ?Eh, ?Em, ?El; try lia; reflexivity.
  - intros l. rewrite Hpos. apply level_count_positive.
  - unfold distribution. cbn [flat_map filter].
    destruct (level_count websiteId CRITICAL s);
      destruct (level_count websiteId HIGH s);
      destruct (level_count websiteId MEDIUM s);
      destruct (level_count websiteId LOW s); reflexivity.
Qed.

Lemma in_push_if (test : bool) (item r : Recommendation)
  (l : list Recommendation) :
  In r (push_if test item l) <-> In r l \/ (test = true /\ r = item).
Proof.
  unfold push_if. destruct test.
  - rewrite in_app_iff. cbn [In]. intuition congruence.
  - intuition discriminate.
Qed.

Lemma length_push_if (test : bool) (item : Recommendation)
  (l : list Recommendation) :
  List.length (push_if test item l)
  = (List.length l + if test then 1 else 0)%nat.
Proof.
  unfold push_if. destruct test; [ | lia ].
  rewrite length_app. reflexivity.
Qed.

Lemma bucket_eqb_eq (a b : Bucket) : bucket_eqb a b = true <-> a = b.
Proof. destruct a, b; cbn; split; congruence. Qed.

(** Which recommendations [generateRecommendations] returns. *)
Lemma in_recommendations (threatData : ThreatData) (r : Recommendation) :
  In r (generateRecommendations threatData)
  <-> (10 <= competitor_count threatData /\ r = differentiate)
      \/ (75 <= average_competitor_score threatData
          /\ r = improve_positioning)
      \/ ((market_saturation threatData = very_high
           \/ market_saturation threatData = high) /\ r = niche_markets)
      \/ ((ai_search_visibility threatData = very_low
           \/ ai_search_visibility threatData = low)
          /\ r = improve_visibility)
      \/ (threat_level threatData = CRITICAL /\ r = response_plan)
      \/ ((threat_level threatData = LOW
           \/ threat_level threatData = MEDIUM) /\ r = monitor_activity).
Proof.
  unfold generateRecommendations. cbv zeta.
  rewrite !in_push_if, !orb_true_iff, !Z.leb_le, !bucket_eqb_eq,
    !level_eqb_eq.
  cbn [In]. tauto.
Qed.

Lemma recommendations_facts (threatData : ThreatData) :
  let advice := generateRecommendations threatData in
  (List.length advice <= 5)%nat
  /\ (In differentiate advice <-> 10 <= competitor_count threatData)
  /\ (In improve_positioning advice
      <-> 75 <= average_competitor_score threatData)
  /\ (In niche_markets advice
      <-> market_saturation threatData = very_high
          \/ market_saturation threatData = high)
  /\ (In improve_visibility advice
      <-> ai_search_visibility threatData = very_low
          \/ ai_search_visibility threatData = low)
  /\ (In response_plan advice <-> threat_level threatData = CRITICAL)
  /\ (In monitor_activity advice
      <-> threat_level threatData = LOW
          \/ threat_level threatData = MEDIUM)
  /\ (advice = []
      <-> threat_level threatData = HIGH
          /\ competitor_count threatData < 10
          /\ average_competitor_score threatData < 75
          /\ market_saturation threatData <> very_high
          /\ market_saturation threatData <> high
          /\ ai_search_visibility threatData <> very_low
          /\ ai_search_visibility threatData <> low).
Proof.
  intros advice.
  assert (Hin := in_recommendations threatData). fold advice in Hin.
  split.
  { unfold advice, generateRecommendations. cbv zeta.
    rewrite !length_push_if. cbn [List.length].
    destruct (threat_level threatData); cbn [level_eqb orb];
      repeat match goal with
             | |- context [if ?b then _ else _] => destruct b
             end; lia. }
  repeat match goal with |- _ /\ _ => split end;
    try (rewrite Hin; split;
         [ intros H; decompose [and or] H; clear H;
           try discriminate; auto
         | intros H; tauto ]).
  split.
  - intros Hnil. rewrite Hnil in Hin. cbn [In] in Hin.
    assert (H1 := proj2 (Hin differentiate)).
    assert (H2 := proj2 (Hin improve_positioning)).
    assert (H3 := proj2 (Hin niche_markets)).
    assert (H4 := proj2 (Hin improve_visibility)).
    assert (H5 := proj2 (Hin response_plan)).
    assert (H6 := proj2 (Hin monitor_activity)).
    destruct (threat_level threatData); try tauto.
    repeat split; try discriminate;
      try (intros E; tauto);
      try (apply Z.lt_nge; intros E; tauto).
  - intros (Hl & Hc & Ha & Hs1 & Hs2 & Hv1 & Hv2).
    destruct advice as [| r rest]; [ reflexivity |].
    exfalso. assert (Hr : In r (r :: rest)) by now left.
    apply Hin in Hr. rewrite Hl in Hr.
    decompose [and or] Hr; try discriminate; try contradiction; lia.
Qed.

(** X13.  [generateRecommendations] returns at most five recommendations.
    Each of the six possible ones is present exactly when its condition
    holds: ten or more competitors, average score 75 or more, saturation
    high or very high, visibility low or very low, level CRITICAL, level
    LOW or MEDIUM.  A HIGH level alone brings no recommendation, so the
    list is empty exactly when the level is HIGH and none of the four data
    conditions holds. *)
Theorem recommendations_by_condition (threatData : ThreatData) :
  let advice := generateRecommendations threatData in
  (List.length advice <= 5)%nat
  /\ (In differentiate advice <-> 10 <= competitor_count threatData)
  /\ (In improve_positioning advice
      <-> 75 <= average_competitor_score threatData)
  /\ (In niche_markets advice
      <-> market_saturation threatData = very_high
          \/ market_saturation threatData = high)
  /\ (In improve_visibility advice
      <-> ai_search_visibility threatData = very_low
          \/ ai_search_visibility threatData = low)
  /\ (In response_plan advice <-> threat_level threatData = CRITICAL)
  /\ (In monitor_activity advice
      <-> threat_level threatData = LOW
          \/ threat_level threatData = MEDIUM)
  /\ (advice = []
      <-> threat_level threatData = HIGH
          /\ competitor_count threatData < 10
          /\ average_competitor_score threatData < 75
          /\ market_saturation threatData <> very_high
          /\ market_saturation threatData <> high
          /\ ai_search_visibility threatData <> very_low
          /\ ai_search_visibility threatData <> low).
Proof. exact (recommendations_facts threatData). Qed.

Lemma saturation_high_iff (count : Z) :
  (determineMarketSaturation count = very_high
   \/ determineMarketSaturation count = high) <-> 7 <= count.
Proof.
  unfold determineMarketSaturation.
  repeat match goal with
         | |- context [Z.leb ?a ?b] => destruct (Z.leb_spec a b)
         end; split; intros Hx; try lia; try tauto;
    destruct Hx; discriminate.
Qed.

Lemma visibility_low_iff (kw : Z) :
  (estimateAiSearchVisibility kw = very_low
   \/ estimateAiSearchVisibility kw = low) <-> kw < 10.
Proof.
  unfold estimateAiSearchVisibility.
  repeat match goal with
         | |- context [Z.leb ?a ?b] => destruct (Z.leb_spec a b)
         end; split; intros Hx; try lia; try tauto;
    destruct Hx; discriminate.
Qed.

(** X14.  The summary of a website always comes back, without a write.  It
    carries the calculator's result, the colour and the description of its
    level (never the fallbacks), and the recommendations for that result.
    A website without live competitors is advised to improve its AI search
    visibility and to monitor competitors, nothing else.  With ten or more
    live competitors the advice includes differentiation, niche markets and
    a response plan.  The advice is empty exactly when the level is HIGH,
    the average score is below 75, there are fewer than seven live
    competitors and the website has ten or more keywords. *)
Theorem summary_for_website (websiteId : Id) (s : Store) :
  let count := Z.of_nat (List.length (competitor_scores websiteId s)) in
  exists summary,
    generateThreatSummary websiteId s = (Ok summary, s)
    /\ calculateThreatScore websiteId s = (Ok (threatData summary), s)
    /\ recommendations summary
       = generateRecommendations (threatData summary)
    /\ (color summary, summary_description summary)
       = match threat_level (threatData summary) with
         | CRITICAL =>
             (Own "#e74c3c",
              Own "Critical threat - Immediate action required")
         | HIGH => (Own "#e67e22", Own "High threat - Take action soon")
         | MEDIUM => (Own "#f39c12", Own "Medium threat - Monitor closely")
         | LOW =>
             (Own "#27ae60", Own "Low threat - Maintain current strategy")
         end
    /\ (count = 0 ->
        recommendations summary = [improve_visibility; monitor_activity])
    /\ (10 <= count ->
        In differentiate (recommendations summary)
        /\ In niche_markets (recommendations summary)
        /\ In response_plan (recommendations summary))
    /\ (recommendations summary = []
        <-> threat_level (threatData summary) = HIGH
            /\ average_competitor_score (threatData summary) < 75
            /\ count < 7
            /\ 10 <= keyword_count websiteId s).
Proof.
  intros count.
  unfold generateThreatSummary, try_catch, bind.
  destruct (competitor_scores websiteId s) as [| r rows] eqn:E.
  - rewrite (ThreatScoringSpec.calculate_empty websiteId s E).
    unfold ret. eexists. split; [ reflexivity |].
    cbn [threatData recommendations color summary_description
         threat_level].
    split; [ reflexivity |]. split; [ reflexivity |].
    split; [ reflexivity |]. split; [ reflexivity |].
    subst count. cbn [List.length Z.of_nat].
    split; [ lia |].
    split; [ discriminate | intros (H & _); discriminate H ].
  - assert (Hne : competitor_scores websiteId s <> [])
      by (rewrite E; discriminate).
    pose proof (ThreatScoringSpec.calculate_nonempty websiteId s Hne)
      as Hcalc.
    pose proof (ThreatScoringSpec.count_positive Hne) as Hpos.
    cbv zeta in Hcalc. rewrite E in Hcalc, Hpos. fold count in Hcalc, Hpos.
    rewrite Hcalc. unfold ret. eexists. split; [ reflexivity |].
    cbn [threatData recommendations color summary_description].
    set (td := {| threat_level := _ |}).
    split; [ reflexivity |]. split; [ reflexivity |].
    split; [ now destruct (threat_level td) |].
    split; [ lia |].
    pose proof (in_recommendations td) as Hin.
    destruct (recommendations_facts td) as (_ & _ & _ & _ & _ & _ & _ & He).
    cbv zeta in He.
    assert (Hsat : market_saturation td = determineMarketSaturation count)
      by reflexivity.
    assert (Hvis : ai_search_visibility td
                   = estimateAiSearchVisibility (keyword_count websiteId s))
      by reflexivity.
    assert (Hcount : competitor_count td = count) by reflexivity.
    pose proof (saturation_high_iff count) as Hs.
    pose proof (visibility_low_iff (keyword_count websiteId s)) as Hv.
    split.
    + intros H10. rewrite !Hin.
      assert (Hlevel : threat_level td = CRITICAL).
      { subst td. cbn [threat_level].
        unfold determineThreatLevel.
        destruct (Z.leb_spec 10 count); [ | lia ].
        unfold adjustForStrongest.
        repeat match goal with
               | |- context [Z.leb ?a ?b] => destruct (Z.leb a b)
               end; reflexivity. }
      rewrite Hcount, Hsat, Hlevel.
      split; [ left; now split |].
      split; [ right; right; left; split; [ apply Hs; lia | reflexivity ] |].
      right; right; right; right; left. now split.
    + rewrite He, Hcount, Hsat, Hvis. split.
      * intros (Hl & Hc & Ha & Hs1 & Hs2 & Hv1 & Hv2).
        split; [ exact Hl |]. split; [ exact Ha |].
        split; [ apply Z.lt_nge; intros H7; apply Hs in H7; tauto |].
        apply Z.le_ngt. intros Hk. apply Hv in Hk. tauto.
      * intros (Hl & Ha & Hc & Hk).
        split; [ exact Hl |]. split; [ lia |]. split; [ exact Ha |].
        repeat split; intros Hx.
        -- assert (H7 : 7 <= count) by (apply Hs; now left). lia.
        -- assert (H7 : 7 <= count) by (apply Hs; now right). lia.
        -- assert (H10 : keyword_count websiteId s < 10)
             by (apply Hv; now left). lia.
        -- assert (H10 : keyword_count websiteId s < 10)
             by (apply Hv; now right). lia.
Qed.

(** A website at level HIGH for which the summary holds no advice. *)
Lemma quiet_high_gets_no_advice :
  exists summary,
    generateThreatSummary 1%nat ThreatFixtures.quiet_high
    = (Ok summary, ThreatFixtures.quiet_high)
    /\ threat_level (threatData summary) = HIGH
    /\ recommendations summary = [].
Proof. eexists. split; [ vm_compute; reflexivity |]. now split. Qed.

Lemma get_property_missing (literal : list (string * string))
  (key : string) :
  ~ In key (map fst literal) -> ~ In key object_prototype_keys ->
  get_property literal key = None.
Proof.
  intros Hown Hproto. unfold get_property.
  destruct (find _ literal) as [entry |] eqn:E.
  - exfalso. apply find_some in E. destruct E as [Hin E].
    apply String.eqb_eq in E. apply Hown. subst key. now apply in_map.
  - destruct (existsb (String.eqb key) object_prototype_keys) eqn:Ex;
      [ | reflexivity ].
    exfalso. apply Hproto. apply existsb_exists in Ex.
    destruct Ex as (k & Hk & E'). apply String.eqb_eq in E'. now subst.
Qed.

(** X15.  The colour and description lookups are by exact level name.  The
    four level names get four different colours.  Any other string gets the
    grey fallback and "Unknown threat level", except the names of the
    members every object inherits, such as constructor or toString, for
    which the lookups return that inherited member instead of a string. *)
Theorem level_lookup_fallbacks (threatLevel : string) :
  (forall l l',
      getThreatColor (level_name l) = getThreatColor (level_name l') ->
      l = l')
  /\ (forall l, exists colour text,
        getThreatColor (level_name l) = Own colour
        /\ colour <> "#95a5a6"%string
        /\ getThreatDescription (level_name l) = Own text
        /\ text <> "Unknown threat level"%string)
  /\ ((forall l, threatLevel <> level_name l) ->
      ~ In threatLevel object_prototype_keys ->
      getThreatColor threatLevel = Own "#95a5a6"
      /\ getThreatDescription threatLevel = Own "Unknown threat level")
  /\ (In threatLevel object_prototype_keys ->
      getThreatColor threatLevel = Inherited threatLevel
      /\ getThreatDescription threatLevel = Inherited threatLevel).
Proof.
  split; [ | split; [ | split ] ].
  - intros [] []; cbn; intros H; try reflexivity; discriminate H.
  - intros []; do 2 eexists; cbn;
      (split; [ reflexivity |]); (split; [ discriminate |]);
      (split; [ reflexivity | discriminate ]).
  - intros Hlevel Hproto.
    assert (Hown : ~ In threatLevel
                     ["CRITICAL"; "HIGH"; "MEDIUM"; "LOW"]%string).
    { cbn [In]. intros [H | [H | [H | [H | []]]]]; symmetry in H.
      - exact (Hlevel CRITICAL H).
      - exact (Hlevel HIGH H).
      - exact (Hlevel MEDIUM H).
      - exact (Hlevel LOW H). }
    unfold getThreatColor, getThreatDescription.
    rewrite !get_property_missing by assumption. now split.
  - intros Hproto. cbn [In object_prototype_keys] in Hproto.
    repeat (destruct Hproto as [<- | Hproto]; [ now split |]).
    destruct Hproto.
Qed.

End ReportingSpec.

(* ------------------------------------------------------------------ *)
(** * Properties of the task registry *)

Module SchedulerSpec.
Import Scheduler Notions.
Local Open Scope nat_scope.

Lemma stop_at_length (job : nat) (l : list CronTask) :
  List.length (stop_at job l) = List.length l.
Proof.
  revert job. induction l as [| t rest IH]; intros [| job];
    cbn [stop_at List.length]; try reflexivity.
  now rewrite IH.
Qed.

Lemma stop_at_running (job other : nat) (l : list CronTask) :
  option_map running (nth_error (stop_at job l) other)
  = if Nat.eqb job other
    then option_map (fun _ => false) (nth_error l other)
    else option_map running (nth_error l other).
Proof.
  revert job other. induction l as [| t rest IH]; intros job other.
  - destruct job, other; cbn; try reflexivity;
      now destruct (Nat.eqb job other).
  - destruct job as [| job], other as [| other];
      cbn [stop_at nth_error Nat.eqb option_map running]; try reflexivity.
    apply IH.
Qed.

Lemma is_running_stop (job other : nat) (st : Cron) :
  is_running other (job_stop job st)
  = negb (Nat.eqb job other) && is_running other st.
Proof.
  unfold is_running, job_stop. cbn [tasks].
  pose proof (stop_at_running job other (tasks st)) as H.
  destruct (nth_error (stop_at job (tasks st)) other) as [t |];
    destruct (nth_error (tasks st) other) as [t' |];
    destruct (Nat.eqb job other); cbn [option_map negb andb] in *;
    congruence.
Qed.

Lemma stop_all_jobs (entries : list (string * nat)) (st : Cron) :
  let st' := fold_left (fun acc entry => job_stop (snd entry) acc)
                       entries st in
  scheduledJobs st' = scheduledJobs st
  /\ List.length (tasks st') = List.length (tasks st)
  /\ forall job,
       is_running job st'
       = negb (existsb (fun entry => Nat.eqb (snd entry) job) entries)
         && is_running job st.
Proof.
  revert st. induction entries as [| [key j] rest IH]; intros st;
    cbn [fold_left existsb snd].
  - repeat split.
  - destruct (IH (job_stop j st)) as (Hreg & Hlen & Hrun).
    cbv zeta. rewrite Hreg, Hlen. split; [ reflexivity |].
    split; [ apply stop_at_length |].
    intros job. rewrite Hrun, is_running_stop.
    destruct (Nat.eqb j job), (existsb _ rest); reflexivity.
Qed.

(** X16.  Stopping all tasks stops every task the registry refers to and
    no other task, and returns true.  It does not empty the registry, so
    afterwards the status report is what it was before: a task that was
    registered is still reported active although it no longer runs. *)
Theorem stop_keeps_status (st : Cron) :
  let st' := snd (stopAllTasks st) in
  fst (stopAllTasks st) = true
  /\ scheduledJobs st' = scheduledJobs st
  /\ getTasksStatus st' = getTasksStatus st
  /\ (forall key job,
        In (key, job) (scheduledJobs st) -> is_running job st' = false)
  /\ (forall job,
        ~ In job (map snd (scheduledJobs st)) ->
        is_running job st' = is_running job st)
  /\ (forall key job,
        registered key st = Some job ->
        status_of key st' = "active"%string
        /\ is_running job st' = false).
Proof.
  destruct (stop_all_jobs (scheduledJobs st) st) as (Hreg & _ & Hrun).
  cbv zeta in Hreg, Hrun. unfold stopAllTasks. cbn [fst snd].
  assert (Hstopped : forall key job,
             In (key, job) (scheduledJobs st) ->
             is_running job
               (fold_left (fun acc entry => job_stop (snd entry) acc)
                          (scheduledJobs st) st) = false).
  { intros key job Hin. rewrite Hrun.
    replace (existsb _ (scheduledJobs st)) with true; [ reflexivity |].
    symmetry. apply existsb_exists. exists (key, job).
    split; [ exact Hin | apply Nat.eqb_refl ]. }
  split; [ reflexivity |]. split; [ exact Hreg |].
  split; [ unfold getTasksStatus, status_of; now rewrite Hreg |].
  split; [ exact Hstopped |].
  split.
  - intros job Hout. rewrite Hrun.
    replace (existsb _ (scheduledJobs st)) with false; [ reflexivity |].
    symmetry. apply not_true_is_false. intros H.
    apply existsb_exists in H. destruct H as ([key j] & Hin & E).
    apply Nat.eqb_eq in E. cbn [snd] in E. subst j.
    apply Hout. apply in_map_iff. now exists (key, job).
  - intros key job Hreg'. unfold registered in Hreg'.
    destruct (find _ (scheduledJobs st)) as [[key' j] |] eqn:E;
      [ | discriminate ].
    cbn [option_map snd] in Hreg'. injection Hreg' as ->.
    split.
    + unfold status_of. now rewrite Hreg, E.
    + apply find_some in E. eapply Hstopped. apply E.
Qed.

Lemma find_map_set (key k : string) (job : nat) (m : list (string * nat)) :
  option_map snd
    (find (fun entry => String.eqb (fst entry) key) (Js.map_set k job m))
  = if String.eqb k key then Some job
    else option_map snd (find (fun entry => String.eqb (fst entry) key) m).
Proof.
  induction m as [| [k' j'] rest IH]; cbn [Js.map_set find fst].
  - destruct (String.eqb k key); reflexivity.
  - destruct (String.eqb_spec k k') as [-> | Hne]; cbn [find fst].
    + destruct (String.eqb k' key); reflexivity.
    + destruct (String.eqb_spec k' key) as [-> | Hne'].
      * destruct (String.eqb_spec k key); [ contradiction | reflexivity ].
      * exact IH.
Qed.

(** The state one initialisation leaves. *)
Lemma initialize_state (st : Cron) :
  let n := List.length (tasks st) in
  snd (initializeScheduledTasks st)
  = {| tasks :=
         tasks st
         ++ [{| expression := "0 2 * * 1"; callback := weekly_refresh;
                running := true |};
             {| expression := "0 3 1 * *"; callback := monthly_reports;
                running := true |};
             {| expression := "0 9 * * *";
                callback := subscription_reminders; running := true |}];
       scheduledJobs :=
         Js.map_set "subscriptionReminders" (n + 2)
           (Js.map_set "monthlyReports" (n + 1)
              (Js.map_set "weeklyRefresh" n (scheduledJobs st))) |}.
Proof.
  unfold initializeScheduledTasks, scheduleSubscriptionReminders,
    scheduleMonthlyReports, scheduleWeeklyRefresh, cron_schedule, assign.
  cbn [snd fst tasks scheduledJobs].
  rewrite !length_app. cbn [List.length].
  rewrite <- !app_assoc. cbn [app].
  rewrite <- Nat.add_assoc. reflexivity.
Qed.

Lemma initialize_registry (st : Cron) :
  registry_ok st ->
  let n := List.length (tasks st) in
  let st1 := snd (initializeScheduledTasks st) in
  registry_ok st1
  /\ List.length (tasks st1) = (n + 3)%nat
  /\ forall key job,
       In (key, job) (scheduledJobs st1) ->
       (n <= job < n + 3)%nat \/ (job < n)%nat.
Proof.
  intros [Hkeys Hrefs] n st1.
  unfold st1. rewrite initialize_state. fold n.
  cbn [tasks scheduledJobs].
  set (m1 := Js.map_set "weeklyRefresh" n (scheduledJobs st)).
  set (m2 := Js.map_set "monthlyReports" (n + 1) m1).
  assert (H1 : NoDup (map fst m1)) by now apply AggregatorSpec.map_set_nodup.
  assert (H2 : NoDup (map fst m2)) by now apply AggregatorSpec.map_set_nodup.
  assert (Hin : forall key job,
             In (key, job)
                (Js.map_set "subscriptionReminders" (n + 2) m2) ->
             (n <= job < n + 3)%nat \/ (job < n)%nat).
  { intros key job H.
    apply AggregatorSpec.in_map_set in H; [ | exact H2 ].
    destruct H as [[_ ->] | [_ H]]; [ left; lia |].
    apply AggregatorSpec.in_map_set in H; [ | exact H1 ].
    destruct H as [[_ ->] | [_ H]]; [ left; lia |].
    apply AggregatorSpec.in_map_set in H; [ | exact Hkeys ].
    destruct H as [[_ ->] | [_ H]]; [ left; lia |].
    right. rewrite Forall_forall in Hrefs. exact (Hrefs (key, job) H). }
  split; [ split |].
  - cbn [scheduledJobs]. now apply AggregatorSpec.map_set_nodup.
  - cbn [scheduledJobs tasks]. apply Forall_forall. intros [key job] H.
    cbn [snd]. rewrite length_app. cbn [List.length]. fold n.
    destruct (Hin key job H); lia.
  - split; [ rewrite length_app; reflexivity | exact Hin ].
Qed.

(** What the registry holds after one initialisation: the three names
    refer to the three new tasks, every other key is as before. *)
Lemma initialize_entries (st : Cron) (key : string) (job : nat) :
  registry_ok st ->
  let n := List.length (tasks st) in
  In (key, job) (scheduledJobs (snd (initializeScheduledTasks st)))
  <-> (key = "weeklyRefresh"%string /\ job = n)
      \/ (key = "monthlyReports"%string /\ job = n + 1)
      \/ (key = "subscriptionReminders"%string /\ job = n + 2)
      \/ (~ In key task_names /\ In (key, job) (scheduledJobs st)).
Proof.
  intros [Hkeys _] n. rewrite initialize_state. fold n.
  cbn [scheduledJobs].
  set (m1 := Js.map_set "weeklyRefresh" n (scheduledJobs st)).
  set (m2 := Js.map_set "monthlyReports" (n + 1) m1).
  assert (H1 : NoDup (map fst m1)) by now apply AggregatorSpec.map_set_nodup.
  assert (H2 : NoDup (map fst m2)) by now apply AggregatorSpec.map_set_nodup.
  rewrite AggregatorSpec.in_map_set by exact H2.
  unfold m2. rewrite AggregatorSpec.in_map_set by exact H1.
  unfold m1. rewrite AggregatorSpec.in_map_set by exact Hkeys.
  unfold task_names. cbn [In]. split.
  - intros [H | [Hs [H | [Hm [H | [Hw H]]]]]]; auto.
    right. right. right. split; [ | exact H ].
    intros [E | [E | [E | []]]]; congruence.
  - intros [[-> ->] | [[-> ->] | [H | [Hout H]]]].
    + right. split; [ discriminate |]. right. split; [ discriminate |].
      now left.
    + right. split; [ discriminate |]. now left.
    + now left.
    + right. split; [ intros ->; apply Hout; auto |].
      right. split; [ intros ->; apply Hout; auto |].
      right. split; [ intros ->; apply Hout; auto | exact H ].
Qed.

Lemma initialize_tasks (st : Cron) (job : nat) :
  let n := List.length (tasks st) in
  let st1 := snd (initializeScheduledTasks st) in
  List.length (tasks st1) = n + 3
  /\ (job < n -> is_running job st1 = is_running job st)
  /\ (n <= job < n + 3 -> is_running job st1 = true).
Proof.
  intros n st1. unfold st1. rewrite initialize_state. fold n.
  unfold is_running. cbn [tasks]. split; [ | split ].
  - rewrite length_app. reflexivity.
  - intros H. now rewrite nth_error_app1.
  - intros H. rewrite nth_error_app2 by (fold n; lia). fold n.
    destruct (job - n) as [| [| [| k]]] eqn:E; try reflexivity. lia.
Qed.

(** X17.  Initialising twice without stopping in between leaks the first
    three tasks: the second initialisation overwrites the three registry
    entries, so stopping all tasks afterwards stops only the three tasks of
    the second initialisation.  The three tasks of the first one keep
    running and no registry entry refers to them any more, while the
    status report says active for all three names. *)
Theorem double_initialisation_leaks (st : Cron) :
  registry_ok st ->
  let n := List.length (tasks st) in
  let st2 :=
    snd (initializeScheduledTasks (snd (initializeScheduledTasks st))) in
  let st3 := snd (stopAllTasks st2) in
  List.length (tasks st3) = n + 6
  /\ (forall job, n <= job < n + 3 ->
        is_running job st3 = true
        /\ ~ In job (map snd (scheduledJobs st3)))
  /\ (forall job, n + 3 <= job < n + 6 -> is_running job st3 = false)
  /\ getTasksStatus st3
     = {| weeklyRefresh := "active"; monthlyReports := "active";
          subscriptionReminders := "active" |}.
Proof.
  intros Hok n st2 st3.
  set (st1 := snd (initializeScheduledTasks st)) in *.
  destruct (initialize_registry Hok) as (Hok1 & Hlen1 & _).
  cbv zeta in Hlen1. fold st1 in Hok1, Hlen1. fold n in Hlen1.
  assert (Hentries : forall key job,
             In (key, job) (scheduledJobs st2)
             <-> (key = "weeklyRefresh"%string /\ job = n + 3)
                 \/ (key = "monthlyReports"%string /\ job = n + 4)
                 \/ (key = "subscriptionReminders"%string /\ job = n + 5)
                 \/ (~ In key task_names
                     /\ In (key, job) (scheduledJobs st))).
  { intros key job. unfold st2.
    rewrite (@initialize_entries st1 key job Hok1). cbv zeta.
    rewrite Hlen1. rewrite <- !Nat.add_assoc. cbn [Nat.add].
    unfold st1. rewrite (@initialize_entries st key job Hok). cbv zeta.
    fold n. unfold task_names. cbn [In]. intuition congruence. }
  assert (Hold : forall key job,
             In (key, job) (scheduledJobs st) -> job < n).
  { intros key job H. destruct Hok as [_ Hrefs].
    rewrite Forall_forall in Hrefs. exact (Hrefs (key, job) H). }
  destruct (stop_all_jobs (scheduledJobs st2) st2) as (Hreg & Hlen & Hrun).
  cbv zeta in Hreg, Hlen, Hrun.
  assert (E3 : st3 = fold_left (fun acc entry => job_stop (snd entry) acc)
                               (scheduledJobs st2) st2) by reflexivity.
  rewrite <- E3 in Hreg, Hlen, Hrun. clearbody st3.
  assert (Hlen2 : List.length (tasks st2) = n + 6).
  { unfold st2. destruct (initialize_tasks st1 0) as (-> & _).
    rewrite Hlen1. lia. }
  assert (Hrun2 : forall job, n <= job < n + 6 -> is_running job st2 = true).
  { intros job Hjob. unfold st2.
    destruct (initialize_tasks st1 job) as (_ & Hlow & Hhigh).
    rewrite Hlen1 in Hlow, Hhigh.
    destruct (Nat.lt_ge_cases job (n + 3)) as [Hlt | Hge].
    - rewrite (Hlow Hlt). unfold st1.
      destruct (initialize_tasks st job) as (_ & _ & Hfirst).
      apply Hfirst. fold n. lia.
    - apply Hhigh. lia. }
  split; [ now rewrite Hlen |]. split; [ | split ].
  - intros job Hjob. split.
    + rewrite Hrun, Hrun2 by lia.
      replace (existsb _ (scheduledJobs st2)) with false; [ reflexivity |].
      symmetry. apply not_true_is_false. intros H.
      apply existsb_exists in H. destruct H as ([key j] & Hin & E).
      apply Nat.eqb_eq in E. cbn [snd] in E. subst j.
      apply Hentries in Hin.
      destruct Hin as [[_ ->] | [[_ ->] | [[_ ->] | [_ Hin]]]]; try lia.
      apply Hold in Hin. lia.
    + rewrite Hreg. intros Hin. apply in_map_iff in Hin.
      destruct Hin as ([key j] & E & Hin). cbn [snd] in E. subst j.
      apply Hentries in Hin.
      destruct Hin as [[_ ->] | [[_ ->] | [[_ ->] | [_ Hin]]]]; try lia.
      apply Hold in Hin. lia.
  - intros job Hjob. rewrite Hrun.
    replace (existsb _ (scheduledJobs st2)) with true; [ reflexivity |].
    symmetry. apply existsb_exists.
    assert (Hcase : job = n + 3 \/ job = n + 4 \/ job = n + 5) by lia.
    destruct Hcase as [-> | [-> | ->]].
    + exists ("weeklyRefresh"%string, n + 3). split;
        [ apply Hentries; auto | apply Nat.eqb_refl ].
    + exists ("monthlyReports"%string, n + 4). split;
        [ apply Hentries; auto | apply Nat.eqb_refl ].
    + exists ("subscriptionReminders"%string, n + 5). split;
        [ apply Hentries; auto | apply Nat.eqb_refl ].
  - unfold getTasksStatus, status_of. rewrite Hreg.
    assert (Hfound : forall key job,
               In (key, job) (scheduledJobs st2) ->
               find (fun entry => String.eqb (fst entry) key)
                    (scheduledJobs st2) <> None).
    { intros key job Hin Hnone.
      pose proof (find_none _ _ Hnone _ Hin) as E. cbn [fst] in E.
      now rewrite String.eqb_refl in E. }
    pose proof (Hfound "weeklyRefresh"%string (n + 3)) as Hw.
    pose proof (Hfound "monthlyReports"%string (n + 4)) as Hm.
    pose proof (Hfound "subscriptionReminders"%string (n + 5)) as Hs.
    destruct (find _ (scheduledJobs st2));
      [ | exfalso; apply Hw; [ apply Hentries; auto | reflexivity ] ].
    destruct (find _ (scheduledJobs st2));
      [ | exfalso; apply Hm; [ apply Hentries; auto | reflexivity ] ].
    destruct (find _ (scheduledJobs st2));
      [ | exfalso; apply Hs; [ apply Hentries; auto | reflexivity ] ].
    reflexivity.
Qed.

Lemma double_initialisation_leaks_witness :
  registry_ok module_loaded
  /\ is_running 0
       (snd (stopAllTasks
               (snd (initializeScheduledTasks
                       (snd (initializeScheduledTasks module_loaded))))))
     = true.
Proof.
  assert (Hok : registry_ok module_loaded)
    by (split; [ constructor | constructor ]).
  split; [ exact Hok |].
  destruct (@double_initialisation_leaks module_loaded Hok)
    as (_ & Hleak & _).
  apply Hleak. cbn. lia.
Defined.

End SchedulerSpec.

(* ------------------------------------------------------------------ *)
(** * Properties of the migration runner *)

Module MigrationsSpec.
Import Ascii Migrations MigrationRunner MigrationNotions.
Local Open Scope nat_scope.

Lemma append_assoc (a b c : string) :
  ((a ++ b) ++ c = a ++ (b ++ c))%string.
Proof.
  induction a as [| x a IH]; cbn [String.append]; [ reflexivity |].
  now rewrite IH.
Qed.

Lemma length_append (a b : string) :
  String.length (a ++ b) = String.length a + String.length b.
Proof.
  induction a as [| x a IH]; cbn [String.append String.length Nat.add];
    [ reflexivity | now rewrite IH ].
Qed.

Lemma split_nonempty (sep : ascii) (s : string) : split sep s <> [].
Proof.
  destruct s as [| c rest]; cbn [split]; [ discriminate |].
  destruct (Ascii.eqb c sep); [ discriminate |].
  destruct (split sep rest); discriminate.
Qed.

Lemma join_cons (piece : string) (rest : list string) :
  rest <> [] -> join (piece :: rest) = (piece ++ ";" ++ join rest)%string.
Proof. destruct rest; [ congruence | reflexivity ]. Qed.

(** Splitting loses nothing but the separators. *)
Lemma join_split (s : string) : join (split ";" s) = s.
Proof.
  induction s as [| c rest IH]; cbn [split]; [ reflexivity |].
  destruct (Ascii.eqb_spec c ";") as [-> | Hne].
  - rewrite join_cons by apply split_nonempty. now rewrite IH.
  - pose proof (@split_nonempty ";" rest) as Hs.
    destruct (split ";" rest) as [| piece [| p2 ps]]; [ congruence | | ].
    + cbn [join] in *. now rewrite IH.
    + rewrite join_cons in IH by discriminate.
      rewrite join_cons by discriminate.
      cbn [String.append]. now rewrite <- IH.
Qed.

Lemma split_plain (p : string) :
  has_char ";" p = false -> split ";" p = [p].
Proof.
  induction p as [| c r IH]; cbn [has_char split]; [ reflexivity |].
  intros H. apply orb_false_iff in H. destruct H as [Hc Hr].
  rewrite Hc, (IH Hr). reflexivity.
Qed.

Lemma split_append (p s : string) :
  has_char ";" p = false ->
  split ";" (p ++ ";" ++ s) = p :: split ";" s.
Proof.
  induction p as [| c r IH]; cbn [has_char String.append]; intros H.
  - cbn [split]. now rewrite Ascii.eqb_refl.
  - apply orb_false_iff in H. destruct H as [Hc Hr].
    cbn [split]. rewrite Hc. cbn [String.append] in IH.
    now rewrite (IH Hr).
Qed.

Lemma split_join (pieces : list string) :
  pieces <> [] ->
  forallb no_semicolon pieces = true ->
  split ";" (join pieces) = pieces.
Proof.
  induction pieces as [| p rest IH]; [ congruence |].
  intros _ H. cbn [forallb] in H. apply andb_true_iff in H.
  destruct H as [Hp Hrest]. apply negb_true_iff in Hp.
  destruct rest as [| q rest].
  - cbn [join]. now apply split_plain.
  - rewrite join_cons by discriminate. rewrite split_append by exact Hp.
    rewrite IH; [ reflexivity | discriminate | exact Hrest ].
Qed.

(** X18.  For a file made of pieces without a semicolon, joined by
    semicolons, the statements are the trimmed pieces, in the order of the
    file, without those that are empty after trimming and without those
    that begin with two dashes after trimming. *)
Theorem statements_of_pieces (pieces : list string) :
  pieces <> [] ->
  forallb no_semicolon pieces = true ->
  statements (join pieces) = filter is_statement (map trim pieces).
Proof.
  intros Hne Hplain. unfold statements. now rewrite split_join.
Qed.

Lemma statements_of_pieces_witness :
  statements "-- users; CREATE TABLE a (id INT) ;; DROP TABLE b; "
  = ["CREATE TABLE a (id INT)"; "DROP TABLE b"]%string.
Proof.
  exact (@statements_of_pieces
           ["-- users"; " CREATE TABLE a (id INT) "; EmptyString;
            " DROP TABLE b"; " "]%string
           ltac:(discriminate) eq_refl).
Defined.

Lemma trim_end_keeps (c : ascii) (r : string) :
  is_space c = false -> exists k, trim_end (String c r) = String c k.
Proof.
  intros H. cbn [trim_end]. destruct (trim_end r); rewrite ?H; eauto.
Qed.

Lemma prefix_dashes_trim_end (s : string) :
  String.prefix "--" s = true -> String.prefix "--" (trim_end s) = true.
Proof.
  destruct s as [| a [| b r]]; cbn [String.prefix]; try discriminate.
  - destruct (ascii_dec "-" a); discriminate.
  - destruct (ascii_dec "-" a) as [<- |]; [ | discriminate ].
    destruct (ascii_dec "-" b) as [<- |]; [ | discriminate ].
    intros _.
    destruct (@trim_end_keeps "-" r eq_refl) as [k Ek].
    change (trim_end (String "-" (String "-" r)))
      with (match trim_end (String "-" r) with
            | EmptyString => String "-" EmptyString
            | kept => String "-" kept
            end).
    rewrite Ek. cbn [String.prefix].
    destruct (ascii_dec "-" "-") as [_ | Hn]; [ | now elim Hn ].
    now destruct k.
Qed.

(** A piece that is blank or led by a comment gives no statement, whatever
    follows the comment line. *)
Lemma comment_led_no_statement (piece : string) :
  comment_led piece = true -> is_statement (trim piece) = false.
Proof.
  unfold comment_led, is_statement. intros H.
  apply orb_true_iff in H. destruct H as [H | H].
  - apply String.eqb_eq in H. now rewrite H.
  - unfold trim. rewrite (prefix_dashes_trim_end _ H).
    apply andb_false_r.
Qed.

Lemma statements_nil (sql : string) :
  forallb comment_led (split ";" sql) = true -> statements sql = [].
Proof.
  unfold statements. induction (split ";" sql) as [| p rest IH];
    cbn [forallb map filter]; [ reflexivity |].
  intros H. apply andb_true_iff in H. destruct H as [Hp Hrest].
  rewrite (comment_led_no_statement _ Hp). exact (IH Hrest).
Qed.

Lemma comment_led_runs
  (Database : Type) (execute : Database -> string -> Result unit * Database)
  (readFileSync : string -> Result string) (db : Database)
  (filePath migrationName sql : string) :
  readFileSync filePath = Ok sql ->
  forallb comment_led (split ";" sql) = true ->
  executeMigration execute readFileSync db filePath migrationName
  = (true, db).
Proof.
  intros Hread Hled. unfold executeMigration.
  rewrite Hread, (statements_nil _ Hled). reflexivity.
Qed.

(** X19.  When every piece between the semicolons of a migration file is
    blank or begins, after leading white space, with two dashes, the
    migration sends nothing to the database and reports success.  The SQL
    that follows a comment line inside such a piece is dropped with it. *)
Theorem comment_led_file_runs_nothing
  (Database : Type) (execute : Database -> string -> Result unit * Database)
  (readFileSync : string -> Result string) (db : Database)
  (filePath migrationName sql : string) :
  readFileSync filePath = Ok sql ->
  forallb comment_led (split ";" sql) = true ->
  executeMigration execute readFileSync db filePath migrationName
  = (true, db).
Proof. apply comment_led_runs. Qed.

(** The schema file of the repository is such a file: each of its
    statements follows a comment line. *)
Lemma schema_comment_led : forallb comment_led (split ";" schema_sql) = true.
Proof. vm_compute. reflexivity. Qed.

Lemma comment_led_file_runs_nothing_witness :
  executeMigration refusing (fun _ => Ok schema_sql) []
    "001_create_initial_schema.sql" "001_create_initial_schema"
  = (true, []).
Proof.
  apply (@comment_led_file_runs_nothing (list string) refusing
           (fun _ => Ok schema_sql) [] "001_create_initial_schema.sql"
           "001_create_initial_schema" schema_sql eq_refl).
  vm_compute. reflexivity.
Defined.

Section StatementRuns.
Variable Database : Type.
Variable execute : Database -> string -> Result unit * Database.
Variable readFileSync : string -> Result string.

Lemma state_after_snoc (l : list string) (s : string) (db : Database) :
  state_after execute (l ++ [s]) db
  = snd (execute (state_after execute l db) s).
Proof. unfold state_after. now rewrite fold_left_app. Qed.

Lemma run_statements_tolerated (l : list string) (db : Database) :
  all_tolerated execute l db = true ->
  run_statements execute l db = (Ok tt, state_after execute l db).
Proof.
  revert db. induction l as [| s rest IH]; intros db;
    cbn [all_tolerated run_statements]; [ reflexivity |].
  unfold tolerated. intros H. apply andb_true_iff in H.
  destruct H as [Hs Hrest]. specialize (IH _ Hrest).
  unfold state_after in *. cbn [fold_left].
  destruct (execute db s) as [[u | message] db1]; cbn [fst snd] in *.
  - exact IH.
  - rewrite Hs. exact IH.
Qed.

Lemma run_statements_stops (l1 l2 : list string) (s message : string)
  (db : Database) :
  all_tolerated execute l1 db = true ->
  fst (execute (state_after execute l1 db) s) = Throw message ->
  includes "already exists" message = false ->
  run_statements execute (l1 ++ s :: l2) db
  = (Throw message, state_after execute (l1 ++ [s]) db).
Proof.
  revert db. induction l1 as [| s1 rest IH]; intros db;
    cbn [all_tolerated app run_statements].
  - intros _ Hs Hm. unfold state_after in *. cbn [fold_left] in *.
    destruct (execute db s) as [[u | m] db1]; cbn [fst snd] in *;
      [ discriminate |].
    injection Hs as ->. now rewrite Hm.
  - unfold tolerated. intros H Hs Hm. apply andb_true_iff in H.
    destruct H as [H1 Hrest].
    unfold state_after in *. cbn [fold_left] in *.
    specialize (IH (snd (execute db s1)) Hrest Hs Hm).
    destruct (execute db s1) as [[u | m] db1]; cbn [fst snd] in *.
    + exact IH.
    + rewrite H1. exact IH.
Qed.

Lemma run_statements_ok (l : list string) (db : Database) :
  (exists db', run_statements execute l db = (Ok tt, db'))
  <-> all_tolerated execute l db = true.
Proof.
  split.
  - revert db. induction l as [| s rest IH]; intros db;
      cbn [all_tolerated run_statements]; [ reflexivity |].
    unfold tolerated. intros [db' H].
    destruct (execute db s) as [[u | m] db1]; cbn [fst snd].
    + apply IH. now exists db'.
    + destruct (includes "already exists" m); cbn [negb andb] in *.
      * apply IH. now exists db'.
      * discriminate.
  - intros H. eexists. now apply run_statements_tolerated.
Qed.

End StatementRuns.

(** X20.  A migration whose file can be read reports success exactly when
    every statement is tolerated by the database in the state it is sent
    to: the statement succeeds, or fails with a message that contains
    "already exists".  All statements have then been sent, in order. *)
Theorem migration_succeeds_iff_tolerated
  (Database : Type) (execute : Database -> string -> Result unit * Database)
  (readFileSync : string -> Result string) (db : Database)
  (filePath migrationName sql : string) :
  readFileSync filePath = Ok sql ->
  let result :=
    executeMigration execute readFileSync db filePath migrationName in
  (fst result = true <-> all_tolerated execute (statements sql) db = true)
  /\ (fst result = true ->
      snd result = state_after execute (statements sql) db).
Proof.
  intros Hread result. unfold result, executeMigration. rewrite Hread.
  destruct (all_tolerated execute (statements sql) db) eqn:E.
  - rewrite (run_statements_tolerated _ _ _ E). cbn [fst snd].
    split; [ tauto | reflexivity ].
  - destruct (run_statements execute (statements sql) db) as [[[] | m] db1]
      eqn:R; cbn [fst snd].
    + assert (all_tolerated execute (statements sql) db = true)
        by (apply run_statements_ok; now exists db1).
      congruence.
    + split; [ split; discriminate | discriminate ].
Qed.

Lemma migration_succeeds_iff_tolerated_witness :
  executeMigration picky (fun _ => Ok "CREATE; INSERT ;"%string) []
    "1_a.sql" "1_a"
  = (true, ["CREATE"; "INSERT"]%string).
Proof.
  destruct (@migration_succeeds_iff_tolerated (list string) picky
              (fun _ => Ok "CREATE; INSERT ;"%string) [] "1_a.sql" "1_a"
              "CREATE; INSERT ;" eq_refl) as [Hiff Hstate].
  cbv zeta in Hiff, Hstate.
  assert (Hok : fst (executeMigration picky
                       (fun _ => Ok "CREATE; INSERT ;"%string) []
                       "1_a.sql" "1_a") = true)
    by (apply Hiff; vm_compute; reflexivity).
  specialize (Hstate Hok).
  destruct (executeMigration picky (fun _ => Ok "CREATE; INSERT ;"%string)
              [] "1_a.sql" "1_a") as [ok db1].
  cbn [fst snd] in Hok, Hstate. rewrite Hok, Hstate.
  vm_compute. reflexivity.
Defined.

(** X21.  The first statement that fails with a message not containing
    "already exists" ends the migration with failure.  The statements
    before it and the failing statement itself have been sent and their
    effects stay; the statements after it are never sent. *)
Theorem first_error_stops_migration
  (Database : Type) (execute : Database -> string -> Result unit * Database)
  (readFileSync : string -> Result string) (db : Database)
  (filePath migrationName sql : string)
  (l1 l2 : list string) (s message : string) :
  readFileSync filePath = Ok sql ->
  statements sql = l1 ++ s :: l2 ->
  all_tolerated execute l1 db = true ->
  fst (execute (state_after execute l1 db) s) = Throw message ->
  includes "already exists" message = false ->
  executeMigration execute readFileSync db filePath migrationName
  = (false, state_after execute (l1 ++ [s]) db).
Proof.
  intros Hread Hsplit Hbefore Hfail Hmessage. unfold executeMigration.
  rewrite Hread, Hsplit.
  now rewrite (run_statements_stops _ _ _ _ _ Hbefore Hfail Hmessage).
Qed.

Lemma first_error_stops_migration_witness :
  executeMigration picky (fun _ => Ok "CREATE;INSERT;DROP;ALTER"%string) []
    "1_a.sql" "1_a"
  = (false, ["CREATE"; "INSERT"; "DROP"]%string).
Proof.
  exact (@first_error_stops_migration (list string) picky
           (fun _ => Ok "CREATE;INSERT;DROP;ALTER"%string) []
           "1_a.sql" "1_a" "CREATE;INSERT;DROP;ALTER"
           ["CREATE"; "INSERT"]%string ["ALTER"%string] "DROP"
           "Unknown table" eq_refl eq_refl eq_refl eq_refl eq_refl).
Defined.

Lemma leb_total (a b : string) :
  String.leb a b = false -> String.leb b a = true.
Proof.
  intros H. destruct (String.leb_total a b) as [E | E];
    [ congruence | exact E ].
Qed.

Lemma leb_trans (a b c : string) :
  String.leb a b = true -> String.leb b c = true -> String.leb a c = true.
Proof.
  unfold String.leb. revert b c.
  induction a as [| x a IH]; intros [| y b] [| z c];
    cbn [String.compare]; try congruence.
  unfold Ascii.compare.
  destruct (N.compare_spec (N_of_ascii x) (N_of_ascii y)) as [E1 | L1 | G1];
    destruct (N.compare_spec (N_of_ascii y) (N_of_ascii z))
      as [E2 | L2 | G2];
    destruct (N.compare_spec (N_of_ascii x) (N_of_ascii z))
      as [E3 | L3 | G3];
    try congruence; try lia.
  apply IH.
Qed.

Lemma leb_first_code (a b : string) :
  first_code a < first_code b ->
  String.leb a b = true /\ String.leb b a = false.
Proof.
  unfold String.leb.
  destruct a as [| x a], b as [| y b]; cbn [first_code String.compare];
    try lia; try (now split).
  unfold code, Ascii.compare, nat_of_ascii. intros H.
  destruct (N.compare_spec (N_of_ascii x) (N_of_ascii y));
    destruct (N.compare_spec (N_of_ascii y) (N_of_ascii x));
    try lia; now split.
Qed.

Lemma strip_suffix_sound (suffix s name : string) :
  strip_suffix suffix s = Some name -> (name ++ suffix)%string = s.
Proof.
  revert name. induction s as [| c rest IH]; intros name;
    cbn [strip_suffix].
  - destruct (String.eqb_spec EmptyString suffix) as [<- |];
      [ | discriminate ].
    now intros [= <-].
  - destruct (String.eqb_spec (String c rest) suffix) as [<- |].
    + now intros [= <-].
    + destruct (strip_suffix suffix rest) as [kept |]; cbn [option_map];
        [ | discriminate ].
      intros [= <-]. cbn [String.append]. now rewrite (IH kept).
Qed.

Lemma strip_suffix_complete (suffix name : string) :
  strip_suffix suffix (name ++ suffix) = Some name.
Proof.
  induction name as [| c n IH]; cbn [String.append].
  - destruct suffix; cbn [strip_suffix]; now rewrite String.eqb_refl.
  - cbn [strip_suffix].
    destruct (String.eqb_spec (String c (n ++ suffix)) suffix) as [E |].
    + apply (f_equal String.length) in E.
      cbn [String.length] in E. rewrite length_append in E. lia.
    + now rewrite IH.
Qed.

Lemma drop_digits_spec (s : string) :
  exists digits,
    s = (digits ++ drop_digits s)%string /\ all_digits digits = true.
Proof.
  induction s as [| c rest (digits & E & Hd)]; cbn [drop_digits].
  - now exists EmptyString.
  - destruct (is_digit c) eqn:Ec.
    + exists (String c digits). cbn [String.append all_digits].
      rewrite Ec, Hd. now rewrite <- E.
    + now exists EmptyString.
Qed.

Lemma drop_digits_append (digits rest : string) :
  all_digits digits = true ->
  drop_digits (digits ++ String "_" rest) = String "_" rest.
Proof.
  induction digits as [| c d IH]; cbn [all_digits String.append drop_digits];
    [ reflexivity |].
  intros H. apply andb_true_iff in H. destruct H as [-> H]. exact (IH H).
Qed.

Lemma no_line_terminator_append (a b : string) :
  no_line_terminator (a ++ b)
  = no_line_terminator a && no_line_terminator b.
Proof.
  induction a as [| c a IH]; cbn [String.append no_line_terminator];
    [ reflexivity |].
  now rewrite IH, andb_assoc.
Qed.

(** The names the pattern accepts: one digit or more, an underscore, any
    characters but line breaks, and [.sql] at the end. *)
Lemma matches_migration_spec (file : string) :
  matches_migration file = true
  <-> exists digits stem,
        file = (digits ++ "_" ++ stem ++ ".sql")%string
        /\ digits <> EmptyString
        /\ all_digits digits = true
        /\ no_line_terminator stem = true.
Proof.
  split.
  - unfold matches_migration. destruct file as [| c rest]; [ discriminate |].
    intros H. apply andb_true_iff in H. destruct H as [Hc H].
    destruct (drop_digits_spec (String c rest)) as (digits & E & Hd).
    destruct (drop_digits (String c rest)) as [| u tail];
      [ discriminate |].
    apply andb_true_iff in H. destruct H as [H Hsuffix].
    apply andb_true_iff in H. destruct H as [Hu Hline].
    apply Ascii.eqb_eq in Hu. subst u.
    destruct (strip_suffix ".sql" tail) as [stem |] eqn:Es;
      [ | discriminate ].
    apply strip_suffix_sound in Es. subst tail.
    rewrite no_line_terminator_append in Hline.
    apply andb_true_iff in Hline. destruct Hline as [Hstem _].
    exists digits, stem. repeat split; try assumption.
    intros ->. cbn [String.append] in E. injection E as E _. subst c.
    discriminate.
  - intros (digits & stem & -> & Hne & Hd & Hstem).
    destruct digits as [| c d]; [ congruence |].
    pose proof (@drop_digits_append (String c d) (stem ++ ".sql") Hd) as E.
    unfold matches_migration. cbn [String.append] in E |- *. rewrite E.
    cbn [all_digits] in Hd. apply andb_true_iff in Hd.
    destruct Hd as [-> _]. rewrite Ascii.eqb_refl.
    rewrite no_line_terminator_append, Hstem.
    now rewrite strip_suffix_complete.
Qed.

Lemma matches_migration_name (file : string) :
  matches_migration file = true ->
  (getMigrationName file ++ ".sql")%string = file.
Proof.
  intros H. apply matches_migration_spec in H.
  destruct H as (digits & stem & -> & _).
  unfold getMigrationName.
  replace (digits ++ "_" ++ stem ++ ".sql")%string
    with ((digits ++ "_" ++ stem) ++ ".sql")%string.
  - now rewrite strip_suffix_complete.
  - rewrite append_assoc. reflexivity.
Qed.

Lemma files_sorted (entries : list string) :
  StronglySorted (fun a b => String.leb a b = true)
                 (getMigrationFiles entries).
Proof. apply JsFacts.sort_sorted; [ exact leb_total | exact leb_trans ]. Qed.

Lemma in_files (entries : list string) (file : string) :
  In file (getMigrationFiles entries)
  <-> In file entries /\ matches_migration file = true.
Proof.
  unfold getMigrationFiles. rewrite <- filter_In. split.
  - apply Permutation_in, JsFacts.sort_permutation.
  - apply Permutation_in, Permutation_sym, JsFacts.sort_permutation.
Qed.

(** X22.  The migration files are exactly the directory entries named by
    one digit or more, an underscore, any characters but line breaks and
    the ending [.sql]; for each of them the migration name is the file name
    without that ending. *)
Theorem migration_files_selected (entries : list string) (file : string) :
  In file (getMigrationFiles entries)
  <-> In file entries
      /\ exists digits stem,
           file = (digits ++ "_" ++ stem ++ ".sql")%string
           /\ getMigrationName file = (digits ++ "_" ++ stem)%string
           /\ digits <> EmptyString
           /\ all_digits digits = true
           /\ no_line_terminator stem = true.
Proof.
  rewrite in_files. split.
  - intros [Hin Hm]. split; [ exact Hin |].
    pose proof (matches_migration_name _ Hm) as Hname.
    apply matches_migration_spec in Hm.
    destruct Hm as (digits & stem & E & Hne & Hd & Hstem).
    exists digits, stem. repeat split; try assumption.
    subst file. unfold getMigrationName.
    replace (digits ++ "_" ++ stem ++ ".sql")%string
      with ((digits ++ "_" ++ stem) ++ ".sql")%string.
    + now rewrite strip_suffix_complete.
    + rewrite append_assoc. reflexivity.
  - intros [Hin (digits & stem & E & _ & Hne & Hd & Hstem)].
    split; [ exact Hin |]. apply matches_migration_spec.
    now exists digits, stem.
Qed.

(** X23.  The migration files come in ascending order of their code units,
    each as often as the directory listing has it. *)
Theorem migration_files_sorted (entries : list string) :
  StronglySorted (fun a b => String.leb a b = true)
                 (getMigrationFiles entries)
  /\ Permutation (getMigrationFiles entries)
                 (filter matches_migration entries).
Proof.
  split; [ apply files_sorted | apply JsFacts.sort_permutation ].
Qed.

Lemma sorted_app_tail {A} (R : A -> A -> Prop) (l1 l2 : list A) :
  StronglySorted R (l1 ++ l2) -> StronglySorted R l2.
Proof.
  induction l1 as [| x l1 IH]; cbn [app]; [ trivial |].
  intros H. apply StronglySorted_inv in H. now apply IH.
Qed.

(** X24.  The order is that of the characters, not of the numbers: of two
    migration files, the one whose name begins with the smaller digit is
    run first, however many digits follow. *)
Theorem first_digit_orders_files (entries : list string) (a b : string) :
  In a (getMigrationFiles entries) ->
  In b (getMigrationFiles entries) ->
  first_code a < first_code b ->
  exists l1 l2 l3, getMigrationFiles entries = l1 ++ a :: l2 ++ b :: l3.
Proof.
  intros Ha Hb Hlt.
  destruct (leb_first_code _ _ Hlt) as [_ Hba].
  pose proof (files_sorted entries) as Hs.
  destruct (in_split _ _ Hb) as (front & l3 & E).
  rewrite E in Ha, Hs.
  apply in_app_or in Ha. destruct Ha as [Ha | [Ha | Ha]].
  - destruct (in_split _ _ Ha) as (l1 & l2 & E1).
    exists l1, l2, l3. rewrite E, E1, <- app_assoc. reflexivity.
  - subst b. lia.
  - apply sorted_app_tail in Hs.
    apply StronglySorted_inv in Hs. destruct Hs as [_ Hs].
    rewrite Forall_forall in Hs. specialize (Hs a Ha). cbv beta in Hs.
    congruence.
Qed.

Lemma first_digit_orders_files_witness :
  exists l1 l2 l3,
    getMigrationFiles ["2_add_reports.sql"; "10_add_index.sql"]%string
    = l1 ++ "10_add_index.sql"%string :: l2
      ++ "2_add_reports.sql"%string :: l3.
Proof.
  apply (@first_digit_orders_files
           ["2_add_reports.sql"; "10_add_index.sql"]%string
           "10_add_index.sql" "2_add_reports.sql").
  - vm_compute. auto.
  - vm_compute. auto.
  - vm_compute. lia.
Defined.

Section RunnerFacts.
Variable Database : Type.
Variable connect : Result unit.
Variable readdirSync : list string.
Variable select_names : Database -> Result (list string).
Variable execute : Database -> string -> Result unit * Database.
Variable readFileSync : string -> Result string.
Variable path_join : string -> string.
Variable release : Result unit.

(** Skipping the executed migrations is running the pending ones. *)
Lemma run_pending_skips (files executed : list string) (count : nat)
  (db : Database) :
  run_pending execute readFileSync path_join files executed count db = run_pending execute readFileSync path_join (pending files executed) [] count db.
Proof.
  revert count db.
  induction files as [| file rest IH]; intros count db;
    cbn [pending filter run_pending]; [ reflexivity |].
  fold (pending rest executed).
  destruct (existsb _ executed); cbn [negb]; [ apply IH |].
  cbn [run_pending existsb].
  destruct (executeMigration _ _ _ _ _) as [[|] db1];
    [ apply IH | reflexivity ].
Qed.

Lemma run_pending_all (l : list string) (count : nat) (db : Database) :
  all_migrate execute readFileSync path_join l db = true ->
  run_pending execute readFileSync path_join l [] count db
  = (None, count + List.length l,
     db_after execute readFileSync path_join l db).
Proof.
  revert count db.
  induction l as [| file rest IH]; intros count db;
    cbn [all_migrate run_pending existsb List.length].
  - intros _. now rewrite Nat.add_0_r.
  - change (db_after execute readFileSync path_join (file :: rest) db)
      with (db_after execute readFileSync path_join rest
              (snd (migrate execute readFileSync path_join db file))).
    unfold migrate.
    destruct (executeMigration _ _ _ _ _) as [ok db1]. cbn [fst snd].
    intros H. apply andb_true_iff in H. destruct H as [-> Hrest].
    rewrite (IH _ _ Hrest). now rewrite Nat.add_succ_r.
Qed.

Lemma run_pending_fails (l1 l2 : list string) (file : string) (count : nat)
  (db : Database) :
  all_migrate execute readFileSync path_join l1 db = true ->
  fst (migrate execute readFileSync path_join (db_after execute readFileSync path_join l1 db) file) = false ->
  run_pending execute readFileSync path_join (l1 ++ file :: l2) [] count db
  = (Some 1, count + List.length l1,
     snd (migrate execute readFileSync path_join (db_after execute readFileSync path_join l1 db) file)).
Proof.
  revert count db.
  induction l1 as [| f rest IH]; intros count db;
    cbn [all_migrate app run_pending existsb List.length].
  - intros _. change (db_after execute readFileSync path_join [] db)
      with db.
    unfold migrate.
    destruct (executeMigration _ _ _ _ _) as [ok db1]. cbn [fst snd].
    intros ->. now rewrite Nat.add_0_r.
  - change (db_after execute readFileSync path_join (f :: rest) db)
      with (db_after execute readFileSync path_join rest
              (snd (migrate execute readFileSync path_join db f))).
    change (executeMigration execute readFileSync db (path_join f)
              (getMigrationName f))
      with (migrate execute readFileSync path_join db f).
    destruct (migrate execute readFileSync path_join db f) as [ok db1].
    cbn [fst snd].
    intros H. apply andb_true_iff in H. destruct H as [-> Hrest].
    intros Hfail.
    rewrite (IH _ _ Hrest Hfail). now rewrite Nat.add_succ_r.
Qed.

Lemma files_length (l : list string) :
  l <> [] -> Nat.eqb (List.length l) 0 = false.
Proof. destruct l; [ congruence | reflexivity ]. Qed.

Lemma runMigrations_all :
  connect = Ok tt ->
  release = Ok tt ->
  getMigrationFiles readdirSync <> [] ->
  forall db,
    let todo := pending (getMigrationFiles readdirSync)
                        (getExecutedMigrations select_names db) in
    all_migrate execute readFileSync path_join todo db = true ->
    runMigrations connect readdirSync select_names execute readFileSync
    path_join release db
    = (Exited 0, List.length todo,
       db_after execute readFileSync path_join todo db).
Proof.
  intros Hconnect Hrelease Hfiles db todo Hall.
  unfold runMigrations. rewrite Hconnect, Hrelease.
  rewrite (files_length Hfiles). cbv zeta.
  pose proof (run_pending_skips (getMigrationFiles readdirSync)
                (getExecutedMigrations select_names db) 0 db) as E.
  rewrite E. fold todo.
  pose proof (run_pending_all todo 0 db Hall) as E'.
  rewrite E'. reflexivity.
Qed.

Lemma runMigrations_aborts (l1 l2 : list string) (file : string)
  (db : Database) :
  connect = Ok tt ->
  pending (getMigrationFiles readdirSync)
          (getExecutedMigrations select_names db) = l1 ++ file :: l2 ->
  all_migrate execute readFileSync path_join l1 db = true ->
  fst (migrate execute readFileSync path_join (db_after execute readFileSync path_join l1 db) file) = false ->
  runMigrations connect readdirSync select_names execute readFileSync
    path_join release db
  = (Exited 1, List.length l1,
     snd (migrate execute readFileSync path_join (db_after execute readFileSync path_join l1 db) file)).
Proof.
  intros Hconnect Hpending Hall Hfail.
  unfold runMigrations. rewrite Hconnect.
  assert (Hfiles : getMigrationFiles readdirSync <> []).
  { intros E. rewrite E in Hpending. cbn in Hpending.
    destruct l1; discriminate. }
  rewrite (files_length Hfiles). cbv zeta.
  pose proof (run_pending_skips (getMigrationFiles readdirSync)
                (getExecutedMigrations select_names db) 0 db) as E.
  rewrite E, Hpending.
  pose proof (run_pending_fails l1 l2 file 0 db Hall Hfail) as E'.
  rewrite E'. reflexivity.
Qed.

Lemma comment_led_migrate (l : list string) (db : Database) :
  (forall file, In file l ->
     exists sql, readFileSync (path_join file) = Ok sql
                 /\ forallb comment_led (split ";" sql) = true) ->
  all_migrate execute readFileSync path_join l db = true
  /\ db_after execute readFileSync path_join l db = db.
Proof.
  induction l as [| file rest IH]; intros H; [ now split |].
  destruct (H file (or_introl eq_refl)) as (sql & Hread & Hled).
  change (db_after execute readFileSync path_join (file :: rest) db)
    with (db_after execute readFileSync path_join rest
            (snd (migrate execute readFileSync path_join db file))).
  cbn [all_migrate]. unfold migrate.
  rewrite (@comment_led_runs _ execute _ db _ (getMigrationName file) _
             Hread Hled).
  cbn [fst snd andb]. apply IH. intros f Hf. apply H. now right.
Qed.

End RunnerFacts.

(** X25.  With a connection and at least one migration file, when every
    migration that is not listed as executed succeeds, the runner migrates
    exactly those files, in the order of the file list, counts them, and
    exits with code 0.  A file whose name is listed as executed is neither
    read nor run. *)
Theorem runner_runs_pending
  (Database : Type) (connect : Result unit) (readdirSync : list string)
  (select_names : Database -> Result (list string))
  (execute : Database -> string -> Result unit * Database)
  (readFileSync : string -> Result string) (path_join : string -> string)
  (release : Result unit) (db : Database) :
  connect = Ok tt ->
  release = Ok tt ->
  getMigrationFiles readdirSync <> [] ->
  let todo := pending (getMigrationFiles readdirSync)
                      (getExecutedMigrations select_names db) in
  all_migrate execute readFileSync path_join todo db = true ->
  runMigrations connect readdirSync select_names execute readFileSync
    path_join release db
  = (Exited 0, List.length todo,
     db_after execute readFileSync path_join todo db).
Proof.
  intros Hconnect Hrelease Hfiles todo Hall.
  now apply runMigrations_all.
Qed.

Lemma runner_runs_pending_witness :
  runMigrations (Ok tt) ["2_b.sql"; "notes.txt"; "1_a.sql"]%string
    (fun _ => Ok ["1_a"%string]) picky
    (fun path => if String.eqb path "2_b.sql" then Ok "INSERT"%string
                 else Throw "ENOENT"%string)
    (fun file => file) (Ok tt) []
  = (Exited 0, 1, ["INSERT"%string]).
Proof.
  apply (@runner_runs_pending (list string) (Ok tt)
           ["2_b.sql"; "notes.txt"; "1_a.sql"]%string
           (fun _ => Ok ["1_a"%string]) picky
           (fun path => if String.eqb path "2_b.sql" then Ok "INSERT"%string
                        else Throw "ENOENT"%string)
           (fun file => file) (Ok tt) [] eq_refl eq_refl).
  - vm_compute. discriminate.
  - vm_compute. reflexivity.
Defined.

(** X26.  The first pending migration that fails makes the runner exit
    with code 1.  The migrations before it stay applied, the count is
    theirs, and the files after it are neither read nor run. *)
Theorem runner_aborts_at_first_failure
  (Database : Type) (connect : Result unit) (readdirSync : list string)
  (select_names : Database -> Result (list string))
  (execute : Database -> string -> Result unit * Database)
  (readFileSync : string -> Result string) (path_join : string -> string)
  (release : Result unit) (db : Database)
  (l1 l2 : list string) (file : string) :
  connect = Ok tt ->
  pending (getMigrationFiles readdirSync)
          (getExecutedMigrations select_names db) = l1 ++ file :: l2 ->
  all_migrate execute readFileSync path_join l1 db = true ->
  fst (migrate execute readFileSync path_join
         (db_after execute readFileSync path_join l1 db) file) = false ->
  runMigrations connect readdirSync select_names execute readFileSync
    path_join release db
  = (Exited 1, List.length l1,
     snd (migrate execute readFileSync path_join
            (db_after execute readFileSync path_join l1 db) file)).
Proof.
  intros Hconnect Hpending Hall Hfail.
  now apply runMigrations_aborts with (l2 := l2).
Qed.

Lemma runner_aborts_at_first_failure_witness :
  runMigrations (Ok tt) ["3_c.sql"; "2_b.sql"; "1_a.sql"]%string
    (fun _ => Throw "Table 'migrations' doesn't exist"%string) picky
    (fun path => if String.eqb path "1_a.sql" then Ok "CREATE"%string
                 else if String.eqb path "2_b.sql"
                      then Ok "INSERT;DROP;ALTER"%string
                      else Ok "UPDATE"%string)
    (fun file => file) (Ok tt) []
  = (Exited 1, 1, ["CREATE"; "INSERT"; "DROP"]%string).
Proof.
  exact (@runner_aborts_at_first_failure (list string) (Ok tt)
           ["3_c.sql"; "2_b.sql"; "1_a.sql"]%string
           (fun _ => Throw "Table 'migrations' doesn't exist"%string) picky
           (fun path => if String.eqb path "1_a.sql" then Ok "CREATE"%string
                        else if String.eqb path "2_b.sql"
                             then Ok "INSERT;DROP;ALTER"%string
                             else Ok "UPDATE"%string)
           (fun file => file) (Ok tt) []
           ["1_a.sql"%string] ["3_c.sql"%string] "2_b.sql"
           eq_refl eq_refl eq_refl eq_refl).
Defined.

(** X27.  When every migration file is made of pieces that are blank or
    led by a comment, the runner exits with code 0 and counts every
    pending file as executed, while the database received no statement and
    is what it was before the run. *)
Theorem comment_led_migrations_change_nothing
  (Database : Type) (connect : Result unit) (readdirSync : list string)
  (select_names : Database -> Result (list string))
  (execute : Database -> string -> Result unit * Database)
  (readFileSync : string -> Result string) (path_join : string -> string)
  (release : Result unit) (db : Database) :
  connect = Ok tt ->
  release = Ok tt ->
  getMigrationFiles readdirSync <> [] ->
  (forall file, In file (getMigrationFiles readdirSync) ->
     exists sql, readFileSync (path_join file) = Ok sql
                 /\ forallb comment_led (split ";" sql) = true) ->
  runMigrations connect readdirSync select_names execute readFileSync
    path_join release db
  = (Exited 0,
     List.length (pending (getMigrationFiles readdirSync)
                          (getExecutedMigrations select_names db)),
     db).
Proof.
  intros Hconnect Hrelease Hfiles Hled.
  set (todo := pending (getMigrationFiles readdirSync)
                       (getExecutedMigrations select_names db)).
  destruct (@comment_led_migrate Database execute readFileSync path_join
              todo db) as [Hall Hdb].
  { intros file Hin. apply Hled. unfold todo, pending in Hin.
    now apply filter_In in Hin. }
  rewrite (@runMigrations_all Database connect readdirSync select_names
             execute readFileSync path_join release Hconnect Hrelease
             Hfiles db Hall).
  fold todo. now rewrite Hdb.
Qed.

Lemma comment_led_migrations_change_nothing_witness :
  runMigrations (Ok tt)
    ["001_create_initial_schema.sql"; "run-migrations.js"]%string
    (fun _ => Throw "Table 'migrations' doesn't exist"%string) refusing
    (fun _ => Ok schema_sql) (fun file => file) (Ok tt) []
  = (Exited 0, 1, []).
Proof.
  apply (@comment_led_migrations_change_nothing (list string) (Ok tt)
           ["001_create_initial_schema.sql"; "run-migrations.js"]%string
           (fun _ => Throw "Table 'migrations' doesn't exist"%string)
           refusing (fun _ => Ok schema_sql) (fun file => file) (Ok tt) []
           eq_refl eq_refl).
  - vm_compute. discriminate.
  - intros file _. exists schema_sql.
    split; [ reflexivity | vm_compute; reflexivity ].
Defined.

End MigrationsSpec.
